(** * BIP-0039 mnemonic codec of pkg/bip39: entropy, mnemonic sentence, seed.

    The codec of [pkg/bip39/bip39.go] is embedded function by function.
    Go's [math/big] integers are [Z]; byte slices are [list byte]; strings
    are [string]; a [panic] is a result of its own, next to the returned
    [error] values.  The primitives the codec imports (SHA-256, HMAC-SHA-512,
    PBKDF2) are written out after their standards, so that every definition
    evaluates on concrete input. *)

From Stdlib Require Import ZArith NArith Lia Bool Btauto Ascii String List Uint63.
From Stdlib Require Import DecimalString DecimalNat.
From Stdlib.Lists Require Finite.
From coqutil Require Import Z.bitblast.
From Stdlib.Strings Require Import Byte.
Import ListNotations.
Local Open Scope string_scope.
Local Open Scope list_scope.
Local Open Scope Z_scope.

(** ** Bytes and big-endian integers *)

Definition byte_to_Z (b : byte) : Z := Z.of_N (Byte.to_N b).

Definition byte_of_Z (z : Z) : byte :=
  match Byte.of_N (Z.to_N (Z.land z 255)) with
  | Some b => b
  | None => x00
  end.

Definition byte_xor (a b : byte) : byte :=
  byte_of_Z (Z.lxor (byte_to_Z a) (byte_to_Z b)).

(** [be_bytes n x]: the low [n] bytes of [x], most significant first. *)
Fixpoint be_bytes (n : nat) (x : Z) : list byte :=
  match n with
  | O => []
  | S n' => byte_of_Z (Z.shiftr x (8 * Z.of_nat n')) :: be_bytes n' x
  end.

(** [be_Z l]: the unsigned integer a big-endian byte string denotes. *)
Definition be_Z (l : list byte) : Z :=
  fold_left (fun acc b => acc * 256 + byte_to_Z b) l 0.

Fixpoint xor_bytes (a b : list byte) : list byte :=
  match a, b with
  | x :: a', y :: b' => byte_xor x y :: xor_bytes a' b'
  | _, _ => []
  end.

(** ** SHA-2 (FIPS 180-4), shared by SHA-256 and SHA-512 *)

Module sha2.
Section Family.
(** word size in bits and in bytes *)
Variable wbits : Z.
Variable mask : Z.
Variable wbytes : nat.
(** rotation and shift amounts of the four sigma functions *)
Variables S0a S0b S0c S1a S1b S1c : Z.
Variables s0a s0b s0c s1a s1b s1c : Z.
(** round constants and initial hash value *)
Variable K : list Z.
Definition state : Type := (Z * Z * Z * Z * Z * Z * Z * Z)%type.
Variable H0 : state.

Definition trunc (x : Z) : Z := Z.land x mask.
Definition rotr (n x : Z) : Z :=
  Z.lor (Z.shiftr x n) (trunc (Z.shiftl x (wbits - n))).

Definition Ch (x y z : Z) : Z :=
  Z.lxor (Z.land x y) (Z.land (Z.lxor x mask) z).
Definition Maj (x y z : Z) : Z :=
  Z.lxor (Z.lxor (Z.land x y) (Z.land x z)) (Z.land y z).
Definition Sigma0 (x : Z) : Z :=
  Z.lxor (Z.lxor (rotr S0a x) (rotr S0b x)) (rotr S0c x).
Definition Sigma1 (x : Z) : Z :=
  Z.lxor (Z.lxor (rotr S1a x) (rotr S1b x)) (rotr S1c x).
Definition sigma0 (x : Z) : Z :=
  Z.lxor (Z.lxor (rotr s0a x) (rotr s0b x)) (Z.shiftr x s0c).
Definition sigma1 (x : Z) : Z :=
  Z.lxor (Z.lxor (rotr s1a x) (rotr s1b x)) (Z.shiftr x s1c).

Definition blockSize : nat := 16 * wbytes.

(** Padding: a one bit, zero bits, and the bit length in two words. *)
Definition padding (len : nat) : list byte :=
  let used := ((len + 1 + 2 * wbytes) mod blockSize)%nat in
  let zeros := ((blockSize - used) mod blockSize)%nat in
  x80 :: repeat x00 zeros ++ be_bytes (2 * wbytes) (8 * Z.of_nat len).

(** The words of a byte string, [wbytes] bytes each. *)
Fixpoint words (n : nat) (l : list byte) : list Z :=
  match n with
  | O => []
  | S n' => be_Z (firstn wbytes l) :: words n' (skipn wbytes l)
  end.

(** Message schedule: [w] holds the last sixteen words, oldest first. *)
Definition next_word (w : list Z) : Z :=
  trunc (sigma1 (nth 14 w 0) + nth 9 w 0 + sigma0 (nth 1 w 0) + nth 0 w 0).

Fixpoint schedule (n : nat) (w : list Z) : list Z :=
  match n with
  | O => []
  | S n' => let x := next_word w in x :: schedule n' (tl w ++ [x])
  end.

Definition round (s : state) (kw : Z * Z) : state :=
  let '(a, b, c, d, e, f, g, h) := s in
  let t1 := h + Sigma1 e + Ch e f g + fst kw + snd kw in
  let t2 := Sigma0 a + Maj a b c in
  (trunc (t1 + t2), a, b, c, trunc (d + t1), e, f, g).

Definition add_state (s t : state) : state :=
  let '(a, b, c, d, e, f, g, h) := s in
  let '(a', b', c', d', e', f', g', h') := t in
  (trunc (a + a'), trunc (b + b'), trunc (c + c'), trunc (d + d'),
   trunc (e + e'), trunc (f + f'), trunc (g + g'), trunc (h + h')).

Definition compress (s : state) (block : list byte) : state :=
  let w16 := words 16 block in
  let w := w16 ++ schedule (length K - 16) w16 in
  add_state s (fold_left round (combine K w) s).

Fixpoint blocks (n : nat) (s : state) (l : list byte) : state :=
  match n with
  | O => s
  | S n' => blocks n' (compress s (firstn blockSize l)) (skipn blockSize l)
  end.

Definition digest (s : state) : list byte :=
  let '(a, b, c, d, e, f, g, h) := s in
  be_bytes wbytes a ++ be_bytes wbytes b ++ be_bytes wbytes c ++
  be_bytes wbytes d ++ be_bytes wbytes e ++ be_bytes wbytes f ++
  be_bytes wbytes g ++ be_bytes wbytes h.

Definition hash (msg : list byte) : list byte :=
  let padded := msg ++ padding (length msg) in
  digest (blocks (length padded / blockSize) H0 padded).
End Family.
End sha2.

(** Package crypto/sha256. *)
Module sha256.
Definition Size : nat := 32.
Definition BlockSize : nat := 64.
Definition K : list Z :=
  [
   0x428A2F98; 0x71374491; 0xB5C0FBCF; 0xE9B5DBA5; 0x3956C25B; 0x59F111F1;
   0x923F82A4; 0xAB1C5ED5; 0xD807AA98; 0x12835B01; 0x243185BE; 0x550C7DC3;
   0x72BE5D74; 0x80DEB1FE; 0x9BDC06A7; 0xC19BF174; 0xE49B69C1; 0xEFBE4786;
   0x0FC19DC6; 0x240CA1CC; 0x2DE92C6F; 0x4A7484AA; 0x5CB0A9DC; 0x76F988DA;
   0x983E5152; 0xA831C66D; 0xB00327C8; 0xBF597FC7; 0xC6E00BF3; 0xD5A79147;
   0x06CA6351; 0x14292967; 0x27B70A85; 0x2E1B2138; 0x4D2C6DFC; 0x53380D13;
   0x650A7354; 0x766A0ABB; 0x81C2C92E; 0x92722C85; 0xA2BFE8A1; 0xA81A664B;
   0xC24B8B70; 0xC76C51A3; 0xD192E819; 0xD6990624; 0xF40E3585; 0x106AA070;
   0x19A4C116; 0x1E376C08; 0x2748774C; 0x34B0BCB5; 0x391C0CB3; 0x4ED8AA4A;
   0x5B9CCA4F; 0x682E6FF3; 0x748F82EE; 0x78A5636F; 0x84C87814; 0x8CC70208;
   0x90BEFFFA; 0xA4506CEB; 0xBEF9A3F7; 0xC67178F2
  ].
Definition H0 : sha2.state :=
  (0x6A09E667, 0xBB67AE85, 0x3C6EF372, 0xA54FF53A, 0x510E527F, 0x9B05688C, 0x1F83D9AB, 0x5BE0CD19).
Definition Sum256 : list byte -> list byte :=
  sha2.hash 32 0xFFFFFFFF 4 2 13 22 6 11 25 7 18 3 17 19 10 K H0.
End sha256.

(** Package crypto/sha512. *)
Module sha512.
Definition Size : nat := 64.
Definition BlockSize : nat := 128.
Definition K : list Z :=
  [
   0x428A2F98D728AE22; 0x7137449123EF65CD; 0xB5C0FBCFEC4D3B2F;
   0xE9B5DBA58189DBBC; 0x3956C25BF348B538; 0x59F111F1B605D019;
   0x923F82A4AF194F9B; 0xAB1C5ED5DA6D8118; 0xD807AA98A3030242;
   0x12835B0145706FBE; 0x243185BE4EE4B28C; 0x550C7DC3D5FFB4E2;
   0x72BE5D74F27B896F; 0x80DEB1FE3B1696B1; 0x9BDC06A725C71235;
   0xC19BF174CF692694; 0xE49B69C19EF14AD2; 0xEFBE4786384F25E3;
   0x0FC19DC68B8CD5B5; 0x240CA1CC77AC9C65; 0x2DE92C6F592B0275;
   0x4A7484AA6EA6E483; 0x5CB0A9DCBD41FBD4; 0x76F988DA831153B5;
   0x983E5152EE66DFAB; 0xA831C66D2DB43210; 0xB00327C898FB213F;
   0xBF597FC7BEEF0EE4; 0xC6E00BF33DA88FC2; 0xD5A79147930AA725;
   0x06CA6351E003826F; 0x142929670A0E6E70; 0x27B70A8546D22FFC;
   0x2E1B21385C26C926; 0x4D2C6DFC5AC42AED; 0x53380D139D95B3DF;
   0x650A73548BAF63DE; 0x766A0ABB3C77B2A8; 0x81C2C92E47EDAEE6;
   0x92722C851482353B; 0xA2BFE8A14CF10364; 0xA81A664BBC423001;
   0xC24B8B70D0F89791; 0xC76C51A30654BE30; 0xD192E819D6EF5218;
   0xD69906245565A910; 0xF40E35855771202A; 0x106AA07032BBD1B8;
   0x19A4C116B8D2D0C8; 0x1E376C085141AB53; 0x2748774CDF8EEB99;
   0x34B0BCB5E19B48A8; 0x391C0CB3C5C95A63; 0x4ED8AA4AE3418ACB;
   0x5B9CCA4F7763E373; 0x682E6FF3D6B2B8A3; 0x748F82EE5DEFB2FC;
   0x78A5636F43172F60; 0x84C87814A1F0AB72; 0x8CC702081A6439EC;
   0x90BEFFFA23631E28; 0xA4506CEBDE82BDE9; 0xBEF9A3F7B2C67915;
   0xC67178F2E372532B; 0xCA273ECEEA26619C; 0xD186B8C721C0C207;
   0xEADA7DD6CDE0EB1E; 0xF57D4F7FEE6ED178; 0x06F067AA72176FBA;
   0x0A637DC5A2C898A6; 0x113F9804BEF90DAE; 0x1B710B35131C471B;
   0x28DB77F523047D84; 0x32CAAB7B40C72493; 0x3C9EBE0A15C9BEBC;
   0x431D67C49C100D4C; 0x4CC5D4BECB3E42B6; 0x597F299CFC657E2A;
   0x5FCB6FAB3AD6FAEC; 0x6C44198C4A475817
  ].
Definition H0 : sha2.state :=
  (0x6A09E667F3BCC908,
   0xBB67AE8584CAA73B,
   0x3C6EF372FE94F82B,
   0xA54FF53A5F1D36F1,
   0x510E527FADE682D1,
   0x9B05688C2B3E6C1F,
   0x1F83D9ABFB41BD6B,
   0x5BE0CD19137E2179).
Definition Sum512 : list byte -> list byte :=
  sha2.hash 64 0xFFFFFFFFFFFFFFFF 8 28 34 39 14 18 41 1 8 7 19 61 6 K H0.
End sha512.

(** Package crypto/hmac (RFC 2104), over a hash function given by its
    block size and its digest function. *)
Module hmac.
Section Hmac.
Variable blockSize : nat.
Variable H : list byte -> list byte.

Definition prepare (key : list byte) : list byte :=
  let k := if (blockSize <? length key)%nat then H key else key in
  k ++ repeat x00 (blockSize - length k).

Definition Sum (key msg : list byte) : list byte :=
  let k := prepare key in
  let ipad := map (byte_xor x36) k in
  let opad := map (byte_xor x5c) k in
  H (opad ++ H (ipad ++ msg)).
End Hmac.
End hmac.

(** Package golang.org/x/crypto/pbkdf2 (RFC 8018, PBKDF2), over a
    pseudo-random function [prf password] with output size [hashLen]. *)
Module pbkdf2.
Section Pbkdf2.
Variable hashLen : nat.
Variable prf : list byte -> list byte -> list byte.

(** The inner loop, [n] from 2 to [iter]: U_n = PRF(password, U_(n-1)),
    accumulated into T by xor. *)
Fixpoint stretch (password : list byte) (n : nat) (U T : list byte) : list byte :=
  match n with
  | O => T
  | S n' => let U' := prf password U in
            stretch password n' U' (xor_bytes T U')
  end.

Definition block (password salt : list byte) (iter : nat) (i : nat) : list byte :=
  let U1 := prf password (salt ++ be_bytes 4 (Z.of_nat i)) in
  stretch password (iter - 1) U1 U1.

Definition Key (password salt : list byte) (iter keyLen : nat) : list byte :=
  let numBlocks := ((keyLen + hashLen - 1) / hashLen)%nat in
  let dk := flat_map (block password salt iter) (seq 1 numBlocks) in
  firstn keyLen dk.
End Pbkdf2.
End pbkdf2.


(** ** Package math/big: the operations the codec uses, on [Z] *)

Module big.
Definition SetBytes (buf : list byte) : Z := be_Z buf.
Definition Lsh (x : Z) (n : Z) : Z := Z.shiftl x n.
Definition Rsh (x : Z) (n : Z) : Z := Z.shiftr x n.
Definition Or (x y : Z) : Z := Z.lor x y.
Definition And (x y : Z) : Z := Z.land x y.
Definition Sub (x y : Z) : Z := x - y.
Definition Cmp (x y : Z) : Z :=
  match x ?= y with Lt => -1 | Eq => 0 | Gt => 1 end.

Definition is_zero (b : byte) : bool :=
  match b with x00 => true | _ => false end.

Fixpoint dropWhile {A} (p : A -> bool) (l : list A) : list A :=
  match l with
  | [] => []
  | x :: l' => if p x then dropWhile p l' else l
  end.

(** Number of 64-bit words of the absolute value. *)
Definition words (x : Z) : nat :=
  if x =? 0 then O else Z.to_nat (Z.log2 (Z.abs x) / 64 + 1).

(** [Bytes]: the absolute value as a big-endian byte slice; the words are
    written out in full and the leading zero bytes are skipped. *)
Definition Bytes (x : Z) : list byte :=
  dropWhile is_zero (be_bytes (8 * words x) (Z.abs x)).
End big.

(** ** Results: a value, a returned error, or a panic *)

Inductive error : Type :=
  | ErrInvalidEntropySize
  | ErrInvalidMnemonic
  | ErrInvalidChecksum.

Inductive result (A : Type) : Type :=
  | Ok (a : A)
  | Err (e : error)
  | Panic (msg : string).
Arguments Ok {A} a.
Arguments Err {A} e.
Arguments Panic {A} msg.

Definition bind {A B} (r : result A) (k : A -> result B) : result B :=
  match r with
  | Ok a => k a
  | Err e => Err e
  | Panic msg => Panic msg
  end.

Notation "x <- r ;; k" := (bind r (fun x => k))
  (at level 61, r at next level, right associativity).
Notation "r ;;; k" := (bind r (fun _ => k))
  (at level 61, right associativity).

(** ** Package wordlist: the interface of a word list *)

Module wordlist.
Definition IndexBits : Z := 11.
Definition Count : Z := 2048.

(** The two lookups of the [List] interface. *)
Record List : Type := {
  Word : Z -> string;
  Index : string -> Z
}.

(** Modelled from the spec: the word list tables and their lookups are not
    among the sources.  A list holds exactly 2048 words, each addressed by
    one 11-bit index, and the index and word mappings are inverse to each
    other; a word that is not in the list has no index in range. *)
Record WellFormed (l : List) : Prop := {
  index_word : forall i, 0 <= i < Count -> Index l (Word l i) = i;
  word_index : forall w, 0 <= Index l w < Count -> Word l (Index l w) = w
}.

Definition contains (l : List) (w : string) : bool :=
  (0 <=? Index l w) && (Index l w <? Count).

Fixpoint position (w : string) (ws : list string) (i : Z) : Z :=
  match ws with
  | [] => -1
  | x :: ws' => if String.eqb x w then i else position w ws' (i + 1)
  end.

(** A word list backed by a table of words. *)
Definition ofWords (ws : list string) : List :=
  {| Word := fun i => nth (Z.to_nat i) ws EmptyString;
     Index := fun w => position w ws 0 |}.
End wordlist.

(** ** Package bip39 *)

(** A mnemonic is a slice of words. *)
Definition Mnemonic : Type := list string.

Definition SeedSize : nat := 64.

Definition bytes_of_string (s : string) : list byte := list_byte_of_string s.

Definition hmac_sha512 : list byte -> list byte -> list byte :=
  hmac.Sum sha512.BlockSize sha512.Sum512.

(** Modelled from the spec: the constants of the package that are not among
    the sources.  The checksum has one bit per 32 bits of entropy; entropy
    sizes run from 128 to 512 bits; a word index has 11 bits. *)
Definition entropyMultiple : Z := 32.
Definition entropyMinBits : Z := 128.
Definition entropyMaxBits : Z := 512.
Definition bigOne : Z := 1.
Definition wordIndexMask : Z := wordlist.Count - 1.

(** Modelled from the spec: [Mnemonic.String] is not among the sources; the
    sentence is the words joined by single spaces. *)
Definition Mnemonic_String (ms : Mnemonic) : string := String.concat " " ms.

(** Modelled from the spec: [validateEntropy] is not among the sources;
    it fails with [ErrInvalidEntropySize] unless the entropy has 16 to 64
    bytes and a multiple of 4 bytes, that is 128 to 512 bits in multiples
    of 32. *)
Definition validateEntropy (entropy : list byte) : result unit :=
  let bits := Z.of_nat (length entropy) * 8 in
  if (bits mod entropyMultiple =? 0) && (entropyMinBits <=? bits) && (bits <=? entropyMaxBits)
  then Ok tt else Err ErrInvalidEntropySize.

(** Modelled from the spec: the two conversions are not among the sources;
    the spec fixes [entropyBits = 32 * wordCount / 3]. *)
Definition wordCountToEntropyBits (wordCount : Z) : Z := 32 * wordCount / 3.
Definition entropyBitsToWordCount (bitsEntropy : Z) : Z := 3 * bitsEntropy / 32.

(** Modelled from the spec: [padBytes] is not among the sources; it puts
    back the leading zero bytes that [Bytes] drops, up to [n] bytes. *)
Definition padBytes (b : list byte) (n : Z) : list byte :=
  repeat x00 (Z.to_nat n - length b) ++ b.

(** [words[i] = w] on a slice. *)
Fixpoint store {A} (i : nat) (w : A) (words : list A) : list A :=
  match words, i with
  | [], _ => []
  | _ :: words', O => w :: words'
  | x :: words', S i' => x :: store i' w words'
  end.

(** computeChecksum: the first [numBits] bits of the SHA-256 hash. *)
Definition computeChecksum (bytes : list byte) (numBits : Z) : result Z :=
  let bitsHash := Z.of_nat sha256.Size * 8 in
  if numBits >? bitsHash then Panic "invalid number of bits"
  else
    let hash := sha256.Sum256 bytes in
    let checksum := big.SetBytes hash in
    Ok (big.Rsh checksum (bitsHash - numBits)).

Section Codec.
(** The active word list, a package variable of the source. *)
Variable wordList : wordlist.List.
(** [norm.NFKD.String] of golang.org/x/text. *)
Variable NFKD : string -> string.

(** Modelled from the spec: [validateMnemonic] is not among the sources;
    it fails with [ErrInvalidMnemonic] when the word count is not one of
    12, 15, 18, 21 and 24, the only accepted set, or when a word is absent
    from the active list. *)
Definition validateMnemonic (mnemonic : Mnemonic) : result unit :=
  let wordCount := Z.of_nat (length mnemonic) in
  if existsb (Z.eqb wordCount) [12; 15; 18; 21; 24]
     && forallb (wordlist.contains wordList) mnemonic
  then Ok tt else Err ErrInvalidMnemonic.

(** The loop of EntropyToMnemonic, [i] running from [len(words) - 1] down
    to 0: each step stores the word of the low 11 bits and shifts them
    out. *)
Fixpoint encodeWords (i : nat) (words : Mnemonic) (bigEntropy : Z) : Mnemonic :=
  match i with
  | O => words
  | S i' =>
      let wordIndex := big.And bigEntropy wordIndexMask in
      let words := store i' (wordlist.Word wordList wordIndex) words in
      encodeWords i' words (big.Rsh bigEntropy wordlist.IndexBits)
  end.

Definition EntropyToMnemonic (entropy : list byte) : result Mnemonic :=
  validateEntropy entropy ;;;
  let bitsEntropy := Z.of_nat (length entropy) * 8 in
  let bitsChecksum := bitsEntropy / 32 in
  checksum <- computeChecksum entropy bitsChecksum ;;
  let bigEntropy := big.SetBytes entropy in
  let bigEntropy := big.Lsh bigEntropy bitsChecksum in
  let bigEntropy := big.Or bigEntropy checksum in
  let words := repeat EmptyString (Z.to_nat (entropyBitsToWordCount bitsEntropy)) in
  Ok (encodeWords (length words) words bigEntropy).

(** The loop of MnemonicToEntropy over the words of the sentence. *)
Fixpoint decodeWords (mnemonic : Mnemonic) (decoder : Z) : result Z :=
  match mnemonic with
  | [] => Ok decoder
  | word :: rest =>
      let wordIndex := wordlist.Index wordList word in
      if (wordIndex <? 0) || (wordIndex >=? wordlist.Count)
      then Panic "invalid word index"
      else
        let decoder := big.Lsh decoder wordlist.IndexBits in
        decodeWords rest (big.Or decoder wordIndex)
  end.

Definition MnemonicToEntropy (mnemonic : Mnemonic) : result (list byte) :=
  validateMnemonic mnemonic ;;;
  let bitsEntropy := wordCountToEntropyBits (Z.of_nat (length mnemonic)) in
  let bitsChecksum := bitsEntropy / entropyMultiple in
  decoder <- decodeWords mnemonic 0 ;;
  let checksumMask := big.Lsh bigOne bitsChecksum in
  let checksumMask := big.Sub checksumMask bigOne in
  let checksum := big.And decoder checksumMask in
  let entropy := big.Bytes (big.Rsh decoder bitsChecksum) in
  let entropy := padBytes entropy (bitsEntropy / 8) in
  computed <- computeChecksum entropy bitsChecksum ;;
  if big.Cmp checksum computed =? 0 then Ok entropy
  else Err ErrInvalidChecksum.

Definition MnemonicToSeed (mnemonic : Mnemonic) (passphrase : string)
  : result (list byte) :=
  MnemonicToEntropy mnemonic ;;;
  let passphrase := NFKD passphrase in
  let key := pbkdf2.Key sha512.Size hmac_sha512
               (bytes_of_string (Mnemonic_String mnemonic))
               (bytes_of_string ("mnemonic" ++ passphrase)%string)
               2048 SeedSize in
  Ok key.
End Codec.

(** ** A word list to run the codec on

    The first four words are those of the English list; the others are
    numbered. *)
Definition numbered (i : nat) : string :=
  ("w" ++ NilEmpty.string_of_uint (Nat.to_uint i))%string.

Definition testWords : list string :=
  ["abandon"; "ability"; "able"; "about"] ++ map numbered (seq 4 2044).

Definition testList : wordlist.List := wordlist.ofWords testWords.

(** ** Definitions used to state the properties *)

(** A byte string is canonical when it does not start with a zero byte. *)
Definition canonical (l : list byte) : Prop :=
  match l with
  | [] => True
  | b :: _ => big.is_zero b = false
  end.

(** The [n] low 11-bit groups of [B], most significant group first. *)
Fixpoint groups (n : nat) (B : Z) : list Z :=
  match n with
  | O => []
  | S n' => groups n' (Z.shiftr B 11) ++ [Z.land B 2047]
  end.

(** The value the decoding loop accumulates over a list of indices. *)
Definition joinIndices (idxs : list Z) (d : Z) : Z :=
  fold_left (fun d i => Z.lor (Z.shiftl d 11) i) idxs d.

Definition is_ok {A} (r : result A) : bool :=
  match r with Ok _ => true | _ => false end.

(** The leading [numBits] bits of the SHA-256 hash of [bytes]. *)
Definition leadingBits (bytes : list byte) (numBits : Z) : Z :=
  be_Z (sha256.Sum256 bytes) / 2 ^ (256 - numBits).

(** Checksum length, word count and bit buffer of an entropy, as integers:
    the buffer is the entropy followed by its checksum bits. *)
Definition checksumBits (entropy : list byte) : Z :=
  Z.of_nat (length entropy) * 8 / 32.

Definition wordCount (entropy : list byte) : nat :=
  Z.to_nat (entropyBitsToWordCount (Z.of_nat (length entropy) * 8)).

Definition bitBuffer (entropy : list byte) : Z :=
  be_Z entropy * 2 ^ checksumBits entropy
  + leadingBits entropy (checksumBits entropy).

(** The supported entropy sizes, in bytes. *)
Definition validSize (n : nat) : Prop :=
  (16 <= n <= 64)%nat /\ (n mod 4 = 0)%nat.

(** The accepted word counts. *)
Definition validCount (n : nat) : Prop :=
  In n [12; 15; 18; 21; 24]%nat.

(** What the decoder reads off a sentence, as integers: the joined indices,
    the checksum length, the trailing checksum bits and the entropy bytes
    in front of them. *)
Definition decoded (wordList : wordlist.List) (mnemonic : Mnemonic) : Z :=
  joinIndices (map (wordlist.Index wordList) mnemonic) 0.

Definition checksumLength (mnemonic : Mnemonic) : Z :=
  wordCountToEntropyBits (Z.of_nat (length mnemonic)) / 32.

Definition trailingBits (wordList : wordlist.List) (mnemonic : Mnemonic) : Z :=
  decoded wordList mnemonic mod 2 ^ checksumLength mnemonic.

Definition extractedEntropy (wordList : wordlist.List) (mnemonic : Mnemonic)
  : list byte :=
  padBytes
    (big.Bytes (decoded wordList mnemonic / 2 ^ checksumLength mnemonic))
    (wordCountToEntropyBits (Z.of_nat (length mnemonic)) / 8).

(** A word resolves when its index is in range. *)
Definition resolves (wordList : wordlist.List) (w : string) : Prop :=
  0 <= wordlist.Index wordList w < wordlist.Count.

(** A word is absent when no index of the list gives it. *)
Definition absent (wordList : wordlist.List) (w : string) : Prop :=
  forall i, 0 <= i < wordlist.Count -> wordlist.Word wordList i <> w.

(** PBKDF2 as RFC 8018, section 5.2, words it: for block [i],
    U_1 = PRF (P, S || INT (i)) and U_j = PRF (P, U_(j-1));
    F (P, S, c, i) = U_1 xor U_2 xor ... xor U_c; the derived key is the
    first dkLen bytes of T_1 || T_2 || ... || T_l with T_i = F (P, S, c, i). *)
Module rfc8018.
Section Spec.
Variable hLen : nat.
Variable PRF : list byte -> list byte -> list byte.

Fixpoint U (P salt : list byte) (i j : nat) : list byte :=
  match j with
  | O => salt ++ be_bytes 4 (Z.of_nat i)
  | S j' => PRF P (U P salt i j')
  end.

Definition F (P salt : list byte) (c i : nat) : list byte :=
  fold_left xor_bytes (map (U P salt i) (seq 2 (c - 1))) (U P salt i 1).

Definition PBKDF2 (P salt : list byte) (c dkLen : nat) : list byte :=
  let l := ((dkLen + hLen - 1) / hLen)%nat in
  firstn dkLen (concat (map (F P salt c) (seq 1 l))).
End Spec.
End rfc8018.

(** The seed the spec describes: PBKDF2 with HMAC-SHA-512, the sentence as
    password, "mnemonic" and the normalized passphrase as salt, 2048
    iterations, 64 bytes. *)
Definition seedOf (NFKD : string -> string) (mnemonic : Mnemonic)
  (passphrase : string) : list byte :=
  rfc8018.PBKDF2 64 hmac_sha512
    (bytes_of_string (Mnemonic_String mnemonic))
    (bytes_of_string ("mnemonic" ++ NFKD passphrase)%string)
    2048 64.

(** Sentences to run the codec on. *)
Definition sentence12 : Mnemonic := repeat "abandon" 11 ++ ["about"].

Definition sentence27 : Mnemonic := repeat "abandon" 26 ++ ["w219"].

(** ** The encoder as the spec words it, on bit strings *)

(** The bits of a byte string, most significant bit first. *)
Definition bits_of_byte (b : byte) : list bool :=
  map (Z.testbit (byte_to_Z b)) [7; 6; 5; 4; 3; 2; 1; 0].

Definition bits_of_bytes (l : list byte) : list bool :=
  flat_map bits_of_byte l.

(** The number a bit string denotes, most significant bit first. *)
Definition bits_to_Z (bs : list bool) : Z :=
  fold_left (fun acc b => 2 * acc + Z.b2z b) bs 0.

(** The first [n] consecutive groups of [k] bits. *)
Fixpoint chunks (k n : nat) (bs : list bool) : list (list bool) :=
  match n with
  | O => []
  | S n' => firstn k bs :: chunks k n' (skipn k bs)
  end.

(** Checksum of bitlen/32 leading bits of the SHA-256 hash, appended to the
    entropy bits; consecutive 11-bit groups, most significant first; the
    word of each group, in the order of the groups. *)
Definition entropyToMnemonic_spec (wordList : wordlist.List)
  (entropy : list byte) : Mnemonic :=
  let checksumBits := (length entropy * 8 / 32)%nat in
  let checksum := firstn checksumBits (bits_of_bytes (sha256.Sum256 entropy)) in
  let buffer := bits_of_bytes entropy ++ checksum in
  map (fun group => wordlist.Word wordList (bits_to_Z group))
      (chunks 11 (length buffer / 11) buffer).

(** ** SHA-512 on pairs of 32-bit limbs

    The same function as [sha512.Sum512], with each 64-bit word held as two
    machine integers of 32 bits, so that a seed of 2048 iterations can be
    evaluated; [fast_Sum512] below proves the two equal. *)

Module fast512.
Local Open Scope uint63_scope.
Definition word : Type := (int * int)%type.
Definition m32 : int := 0xFFFFFFFF.
Definition norm (hi lo : int) : word := ((hi + (lo >> 32)) land m32, lo land m32).
Definition add (a b : word) : word := norm (fst a + fst b) (snd a + snd b).
Definition xor (a b : word) : word := (fst a lxor fst b, snd a lxor snd b).
Definition and (a b : word) : word := (fst a land fst b, snd a land snd b).
Definition not (a : word) : word := (fst a lxor m32, snd a lxor m32).
Definition rotr_low (n : int) (a : word) : word :=
  let '(hi, lo) := a in
  (((hi >> n) lor (lo << (32 - n))) land m32,
   ((lo >> n) lor (hi << (32 - n))) land m32).
Definition rotr (n : int) (a : word) : word :=
  if n <? 32 then rotr_low n a else rotr_low (n - 32) (snd a, fst a).
Definition shr (n : int) (a : word) : word :=
  let '(hi, lo) := a in
  (hi >> n, ((lo >> n) lor (hi << (32 - n))) land m32).

Definition of_Z (z : Z) : word :=
  (Uint63.of_Z (Z.shiftr z 32), Uint63.of_Z (Z.land z 0xFFFFFFFF)).
Definition val (a : word) : Z :=
  Z.lor (Z.shiftl (Uint63.to_Z (fst a)) 32) (Uint63.to_Z (snd a)).

Definition K : list word := Eval vm_compute in map of_Z sha512.K.
Definition state : Type := (word * word * word * word * word * word * word * word)%type.
Definition H0 : state := Eval vm_compute in
  let '(a, b, c, d, e, f, g, h) := sha512.H0 in
  (of_Z a, of_Z b, of_Z c, of_Z d, of_Z e, of_Z f, of_Z g, of_Z h).

Definition Ch (x y z : word) : word := xor (and x y) (and (not x) z).
Definition Maj (x y z : word) : word := xor (xor (and x y) (and x z)) (and y z).
Definition Sigma0 (x : word) : word := xor (xor (rotr 28 x) (rotr 34 x)) (rotr 39 x).
Definition Sigma1 (x : word) : word := xor (xor (rotr 14 x) (rotr 18 x)) (rotr 41 x).
Definition sigma0 (x : word) : word := xor (xor (rotr 1 x) (rotr 8 x)) (shr 7 x).
Definition sigma1 (x : word) : word := xor (xor (rotr 19 x) (rotr 61 x)) (shr 6 x).

Definition int_of_byte (b : byte) : int := Uint63.of_Z (byte_to_Z b).
Definition limb (b0 b1 b2 b3 : byte) : int :=
  ((((((int_of_byte b0 << 8) lor int_of_byte b1) << 8) lor int_of_byte b2) << 8)
   lor int_of_byte b3).

Definition zero : word := (0, 0).
Fixpoint words (n : nat) (l : list byte) : list word :=
  match n with
  | O => []
  | S n' =>
      match l with
      | b0 :: b1 :: b2 :: b3 :: b4 :: b5 :: b6 :: b7 :: l' =>
          (limb b0 b1 b2 b3, limb b4 b5 b6 b7) :: words n' l'
      | _ => zero :: words n' []
      end
  end.

Definition next_word (w : list word) : word :=
  add (add (add (sigma1 (nth 14 w zero)) (nth 9 w zero)) (sigma0 (nth 1 w zero))) (nth 0 w zero).

Fixpoint schedule (n : nat) (w : list word) : list word :=
  match n with
  | O => []
  | S n' => let x := next_word w in x :: schedule n' (tl w ++ [x])
  end.

Definition round (s : state) (kw : word * word) : state :=
  let '(a, b, c, d, e, f, g, h) := s in
  let t1 := add (add (add (add h (Sigma1 e)) (Ch e f g)) (fst kw)) (snd kw) in
  let t2 := add (Sigma0 a) (Maj a b c) in
  (add t1 t2, a, b, c, add d t1, e, f, g).

Definition add_state (s t : state) : state :=
  let '(a, b, c, d, e, f, g, h) := s in
  let '(a', b', c', d', e', f', g', h') := t in
  (add a a', add b b', add c c', add d d', add e e', add f f', add g g', add h h').

Definition compress (s : state) (block : list byte) : state :=
  let w16 := words 16 block in
  let w := w16 ++ schedule 64 w16 in
  add_state s (fold_left round (combine K w) s).

Fixpoint blocks (n : nat) (s : state) (l : list byte) : state :=
  match n with
  | O => s
  | S n' => blocks n' (compress s (firstn 128 l)) (skipn 128 l)
  end.

Definition byte_of_int (x : int) : byte :=
  Byte.of_bits (bit x 0, (bit x 1, (bit x 2, (bit x 3, (bit x 4, (bit x 5, (bit x 6, bit x 7))))))).

Definition limb_bytes (x : int) (rest : list byte) : list byte :=
  byte_of_int (x >> 24) :: byte_of_int (x >> 16) :: byte_of_int (x >> 8) :: byte_of_int x :: rest.
Definition word_bytes (w : word) (rest : list byte) : list byte :=
  limb_bytes (fst w) (limb_bytes (snd w) rest).

Definition digest (s : state) : list byte :=
  let '(a, b, c, d, e, f, g, h) := s in
  word_bytes a (word_bytes b (word_bytes c (word_bytes d
    (word_bytes e (word_bytes f (word_bytes g (word_bytes h []))))))).

Definition Sum512 (msg : list byte) : list byte :=
  let padded := msg ++ sha2.padding 8 (length msg) in
  digest (blocks (length padded / 128)%nat H0 padded).
End fast512.

Definition hmac_fast : list byte -> list byte -> list byte :=
  hmac.Sum sha512.BlockSize fast512.Sum512.

(** A limb holds 32 bits; a word of two such limbs represents an integer. *)
Definition limb_ok (x : int) : Prop := Uint63.to_Z x < 2 ^ 32.

Definition word_ok (a : fast512.word) : Prop :=
  limb_ok (fst a) /\ limb_ok (snd a).

Definition rep (a : fast512.word) (z : Z) : Prop :=
  word_ok a /\ fast512.val a = z.

Definition rep_state (s : fast512.state) (t : sha2.state) : Prop :=
  let '(a, b, c, d, e, f, g, h) := s in
  let '(a', b', c', d', e', f', g', h') := t in
  rep a a' /\ rep b b' /\ rep c c' /\ rep d d'
  /\ rep e e' /\ rep f f' /\ rep g g' /\ rep h h'.

(** The seed of [sentence12] with the empty passphrase. *)
Definition seed12 : list byte :=
  [x5e; xb0; x0b; xbd; xdc; xf0; x69; x08;
   x48; x89; xa8; xab; x91; x55; x56; x81;
   x65; xf5; xc4; x53; xcc; xb8; x5e; x70;
   x81; x1a; xae; xd6; xf6; xda; x5f; xc1;
   x9a; x5a; xc4; x0b; x38; x9c; xd3; x70;
   xd0; x86; x20; x6d; xec; x8a; xa6; xc4;
   x3d; xae; xa6; x69; x0f; x20; xad; x3d;
   x8d; x48; xb2; xd2; xce; x9e; x38; xe4].

(** The state [(U, T)] of the inner loop of PBKDF2 after [n] more
    iterations; [pbkdf2.stretch] returns its second component. *)
Fixpoint stretch_state (prf : list byte -> list byte -> list byte)
  (password : list byte) (n : nat) (s : list byte * list byte)
  : list byte * list byte :=
  match n with
  | O => s
  | S n' =>
      let U' := prf password (fst s) in
      stretch_state prf password n' (U', xor_bytes (snd s) U')
  end.

(** ** The command

    Lines 64 to 79 of [run], in the branch that generates the entropy:
    [entropy] is what [generateEntropy(256 / 8)] read from the random
    source.  The error results of EntropyToMnemonic and MnemonicToSeed are
    dropped ([mnemonic, _ = ...] and [seed, _ := ...]), and with an error
    both functions return the nil slice. *)
Definition dropError {A : Type} (r : result (list A)) : result (list A) :=
  match r with
  | Ok v => Ok v
  | Err _ => Ok []
  | Panic msg => Panic msg
  end.

Definition run_generated (wordList : wordlist.List) (NFKD : string -> string)
  (entropy : list byte) (passphrase : string) : result (Mnemonic * list byte) :=
  mnemonic <- dropError (EntropyToMnemonic wordList entropy) ;;
  seed <- dropError (MnemonicToSeed wordList NFKD mnemonic passphrase) ;;
  Ok (mnemonic, seed).

(** ** The transform of transform_amd64.s

    The routine is embedded instruction by instruction: a machine of eleven
    registers and the four arrays of 729 words the caller passes, each
    register holding a 64-bit word or the address of one of the arrays.  An
    access outside an array, or through a register that holds no address, is
    a fault ([None]).  The four arrays are distinct: no two arguments point
    to the same words.  The instructions are written over a class of
    words, so that the same program also runs on symbolic words. *)

Module amd64.

Inductive reg : Type :=
  | AX | CX | DX | BX | BP | SI | DI | R8 | R9 | R10 | R11.

(** The arguments [lto], [hto], [lfrom], [hfrom], each a [*[729]uint]. *)
Inductive array : Type := lto | hto | lfrom | hfrom.

(** What the instructions of the file do with register contents. *)
Class Word (W : Type) : Type := {
  imm : Z -> W;
  wxor : W -> W -> W;
  wand : W -> W -> W;
  wor : W -> W -> W;
  wnot : W -> W;
  wadd : W -> Z -> W;
  wsub : W -> Z -> W;
  (** the unsigned value of the word, where it is determined *)
  known : W -> option Z
}.

(** 64-bit machine words. *)
#[export] Instance Word64 : Word Z := {
  imm z := z mod 2 ^ 64;
  wxor := Z.lxor;
  wand := Z.land;
  wor := Z.lor;
  wnot x := Z.lxor x (Z.ones 64);
  wadd x k := (x + k) mod 2 ^ 64;
  wsub x k := (x - k) mod 2 ^ 64;
  known x := Some x
}.

Section Machine.
Context {W : Type} {word : Word W}.

Inductive value : Type :=
  | Int (w : W)
  | Ptr (a : array).

Record regfile : Type := {
  rAX : value; rCX : value; rDX : value; rBX : value; rBP : value;
  rSI : value; rDI : value; rR8 : value; rR9 : value;
  rR10 : value; rR11 : value
}.

Record memory : Type := {
  m_lto : list W; m_hto : list W; m_lfrom : list W; m_hfrom : list W
}.

Record machine : Type := { regs : regfile; mem : memory }.

Definition get (r : reg) (f : regfile) : value :=
  match r with
  | AX => rAX f | CX => rCX f | DX => rDX f | BX => rBX f | BP => rBP f
  | SI => rSI f | DI => rDI f | R8 => rR8 f | R9 => rR9 f
  | R10 => rR10 f | R11 => rR11 f
  end.

Definition set (r : reg) (v : value) (f : regfile) : regfile :=
  match r with
  | AX => {| rAX := v; rCX := rCX f; rDX := rDX f; rBX := rBX f; rBP := rBP f;
             rSI := rSI f; rDI := rDI f; rR8 := rR8 f; rR9 := rR9 f;
             rR10 := rR10 f; rR11 := rR11 f |}
  | CX => {| rAX := rAX f; rCX := v; rDX := rDX f; rBX := rBX f; rBP := rBP f;
             rSI := rSI f; rDI := rDI f; rR8 := rR8 f; rR9 := rR9 f;
             rR10 := rR10 f; rR11 := rR11 f |}
  | DX => {| rAX := rAX f; rCX := rCX f; rDX := v; rBX := rBX f; rBP := rBP f;
             rSI := rSI f; rDI := rDI f; rR8 := rR8 f; rR9 := rR9 f;
             rR10 := rR10 f; rR11 := rR11 f |}
  | BX => {| rAX := rAX f; rCX := rCX f; rDX := rDX f; rBX := v; rBP := rBP f;
             rSI := rSI f; rDI := rDI f; rR8 := rR8 f; rR9 := rR9 f;
             rR10 := rR10 f; rR11 := rR11 f |}
  | BP => {| rAX := rAX f; rCX := rCX f; rDX := rDX f; rBX := rBX f; rBP := v;
             rSI := rSI f; rDI := rDI f; rR8 := rR8 f; rR9 := rR9 f;
             rR10 := rR10 f; rR11 := rR11 f |}
  | SI => {| rAX := rAX f; rCX := rCX f; rDX := rDX f; rBX := rBX f; rBP := rBP f;
             rSI := v; rDI := rDI f; rR8 := rR8 f; rR9 := rR9 f;
             rR10 := rR10 f; rR11 := rR11 f |}
  | DI => {| rAX := rAX f; rCX := rCX f; rDX := rDX f; rBX := rBX f; rBP := rBP f;
             rSI := rSI f; rDI := v; rR8 := rR8 f; rR9 := rR9 f;
             rR10 := rR10 f; rR11 := rR11 f |}
  | R8 => {| rAX := rAX f; rCX := rCX f; rDX := rDX f; rBX := rBX f; rBP := rBP f;
             rSI := rSI f; rDI := rDI f; rR8 := v; rR9 := rR9 f;
             rR10 := rR10 f; rR11 := rR11 f |}
  | R9 => {| rAX := rAX f; rCX := rCX f; rDX := rDX f; rBX := rBX f; rBP := rBP f;
             rSI := rSI f; rDI := rDI f; rR8 := rR8 f; rR9 := v;
             rR10 := rR10 f; rR11 := rR11 f |}
  | R10 => {| rAX := rAX f; rCX := rCX f; rDX := rDX f; rBX := rBX f; rBP := rBP f;
              rSI := rSI f; rDI := rDI f; rR8 := rR8 f; rR9 := rR9 f;
              rR10 := v; rR11 := rR11 f |}
  | R11 => {| rAX := rAX f; rCX := rCX f; rDX := rDX f; rBX := rBX f; rBP := rBP f;
              rSI := rSI f; rDI := rDI f; rR8 := rR8 f; rR9 := rR9 f;
              rR10 := rR10 f; rR11 := v |}
  end.

Definition cells (a : array) (m : memory) : list W :=
  match a with
  | lto => m_lto m | hto => m_hto m | lfrom => m_lfrom m | hfrom => m_hfrom m
  end.

Definition put (a : array) (l : list W) (m : memory) : memory :=
  match a with
  | lto => {| m_lto := l; m_hto := m_hto m; m_lfrom := m_lfrom m; m_hfrom := m_hfrom m |}
  | hto => {| m_lto := m_lto m; m_hto := l; m_lfrom := m_lfrom m; m_hfrom := m_hfrom m |}
  | lfrom => {| m_lto := m_lto m; m_hto := m_hto m; m_lfrom := l; m_hfrom := m_hfrom m |}
  | hfrom => {| m_lto := m_lto m; m_hto := m_hto m; m_lfrom := m_lfrom m; m_hfrom := l |}
  end.

(** The instructions of the file, operands in the order of the Go
    assembler: source first. *)
Inductive instr : Type :=
  | MOVQ_arg (a : array) (dst : reg)
  | MOVQ_imm (k : Z) (dst : reg)
  | MOVQ_load (disp : Z) (base : reg) (index : option reg) (dst : reg)
  | MOVQ_store (src : reg) (disp : Z) (base : reg) (index : option reg)
  | XORQ (src dst : reg)
  | ANDQ (src dst : reg)
  | ORQ (src dst : reg)
  | NOTQ (dst : reg)
  | SUBQ_imm (k : Z) (dst : reg)
  | ADDQ_imm (k : Z) (dst : reg)
  | DECQ (dst : reg)
  | XCHGQ (a b : reg).

(** The value of a register that holds a determined word. *)
Definition number (r : reg) (f : regfile) : option Z :=
  match get r f with
  | Int w => known w
  | Ptr _ => None
  end.

(** The cell that [disp(base)(index*8)] addresses: the array the base
    register points to and the position of the word in it; words have 8
    bytes. *)
Definition address (disp : Z) (base : reg) (index : option reg) (m : machine)
  : option (array * nat) :=
  match get base (regs m) with
  | Ptr a =>
      match (match index with
             | Some r => number r (regs m)
             | None => Some 0
             end) with
      | Some i =>
          let off := disp + i * 8 in
          if (0 <=? off) && (off mod 8 =? 0)
             && (off / 8 <? Z.of_nat (length (cells a (mem m))))
          then Some (a, Z.to_nat (off / 8))
          else None
      | None => None
      end
  | Int _ => None
  end.

Definition binop (f : W -> W -> W) (src dst : reg) (m : machine) : option machine :=
  match get src (regs m), get dst (regs m) with
  | Int x, Int y =>
      Some {| regs := set dst (Int (f y x)) (regs m); mem := mem m |}
  | _, _ => None
  end.

Definition unop (f : W -> W) (dst : reg) (m : machine) : option machine :=
  match get dst (regs m) with
  | Int y => Some {| regs := set dst (Int (f y)) (regs m); mem := mem m |}
  | Ptr _ => None
  end.

Definition exec (i : instr) (m : machine) : option machine :=
  match i with
  | MOVQ_arg a dst => Some {| regs := set dst (Ptr a) (regs m); mem := mem m |}
  | MOVQ_imm k dst => Some {| regs := set dst (Int (imm k)) (regs m); mem := mem m |}
  | MOVQ_load disp base index dst =>
      match address disp base index m with
      | Some (a, k) =>
          match nth_error (cells a (mem m)) k with
          | Some w => Some {| regs := set dst (Int w) (regs m); mem := mem m |}
          | None => None
          end
      | None => None
      end
  | MOVQ_store src disp base index =>
      match address disp base index m, get src (regs m) with
      | Some (a, k), Int w =>
          Some {| regs := regs m;
                  mem := put a (store k w (cells a (mem m))) (mem m) |}
      | _, _ => None
      end
  | XORQ src dst => binop wxor src dst m
  | ANDQ src dst => binop wand src dst m
  | ORQ src dst => binop wor src dst m
  | NOTQ dst => unop wnot dst m
  | SUBQ_imm k dst => unop (fun y => wsub y k) dst m
  | ADDQ_imm k dst => unop (fun y => wadd y k) dst m
  | DECQ dst => unop (fun y => wsub y 1) dst m
  | XCHGQ a b =>
      let va := get a (regs m) in
      let vb := get b (regs m) in
      Some {| regs := set b va (set a vb (regs m)); mem := mem m |}
  end.

Fixpoint run (p : list instr) (m : machine) : option machine :=
  match p with
  | [] => Some m
  | i :: p' =>
      match exec i m with
      | Some m' => run p' m'
      | None => None
      end
  end.

(** Lines 171 to 175. *)
Definition entry : list instr :=
  [ MOVQ_arg lto AX; MOVQ_arg hto CX; MOVQ_arg lfrom DX; MOVQ_arg hfrom BX;
    MOVQ_imm 0x51 BP ].

(** Lines 179 to 197, from the label RoundLoop. *)
Definition roundHead : list instr :=
  [ MOVQ_load 0 DX None SI; MOVQ_load 0 BX None DI;
    MOVQ_load 2912 DX None R8; MOVQ_load 2912 BX None R9;
    XORQ R8 DI; ANDQ SI DI; XORQ R9 SI; ORQ DI SI; NOTQ DI;
    MOVQ_store DI 0 AX None; MOVQ_store SI 0 CX None;
    MOVQ_imm 0x16C R10; MOVQ_imm 1 R11 ].

(** Lines 201 to 260, from the label StateLoop. *)
Definition stateBody : list instr :=
  [ MOVQ_load 2912 DX (Some R10) DI; MOVQ_load 2912 BX (Some R10) SI;
    XORQ DI R9; ANDQ R8 R9; XORQ SI R8; ORQ R9 R8; NOTQ R9;
    MOVQ_store R9 0 AX (Some R11); MOVQ_store R8 0 CX (Some R11);
    MOVQ_load (-8) DX (Some R10) R9; MOVQ_load (-8) BX (Some R10) R8;
    XORQ R9 SI; ANDQ DI SI; XORQ R8 DI; ORQ SI DI; NOTQ SI;
    MOVQ_store SI 8 AX (Some R11); MOVQ_store DI 8 CX (Some R11);
    MOVQ_load 2904 DX (Some R10) SI; MOVQ_load 2904 BX (Some R10) DI;
    XORQ SI R8; ANDQ R9 R8; XORQ DI R9; ORQ R8 R9; NOTQ R8;
    MOVQ_store R8 16 AX (Some R11); MOVQ_store R9 16 CX (Some R11);
    MOVQ_load (-16) DX (Some R10) R8; MOVQ_load (-16) BX (Some R10) R9;
    XORQ R8 DI; ANDQ SI DI; XORQ R9 SI; ORQ DI SI; NOTQ DI;
    MOVQ_store DI 24 AX (Some R11); MOVQ_store SI 24 CX (Some R11);
    SUBQ_imm 2 R10; ADDQ_imm 4 R11 ].

(** Lines 265 to 267. *)
Definition roundTail : list instr :=
  [ XCHGQ DX AX; XCHGQ BX CX; DECQ BP ].

(** A 64-bit word read as a signed integer. *)
Definition signed (z : Z) : Z := if z <? 2 ^ 63 then z else z - 2 ^ 64.

(** [CMPQ R11, $0x2d9; JL StateLoop]: the body is run again while R11 is
    below 729; [fuel] bounds the number of runs of the body. *)
Fixpoint StateLoop (fuel : nat) (m : machine) : option machine :=
  match fuel with
  | O => None
  | S fuel' =>
      match run stateBody m with
      | Some m' =>
          match number R11 (regs m') with
          | Some r11 =>
              if signed r11 <? 0x2D9 then StateLoop fuel' m' else Some m'
          | None => None
          end
      | None => None
      end
  end.

(** One round: lines 179 to 267. *)
Definition Round (fuel : nat) (m : machine) : option machine :=
  match run roundHead m with
  | Some m1 =>
      match StateLoop fuel m1 with
      | Some m2 => run roundTail m2
      | None => None
      end
  | None => None
  end.

(** [DECQ BP; JNZ RoundLoop]: another round while BP is not zero; [fuel]
    bounds the number of rounds and [inner] the runs of the body of
    StateLoop in each. *)
Fixpoint RoundLoop (fuel inner : nat) (m : machine) : option machine :=
  match fuel with
  | O => None
  | S fuel' =>
      match Round inner m with
      | Some m' =>
          match number BP (regs m') with
          | Some bp => if bp =? 0 then Some m' else RoundLoop fuel' inner m'
          | None => None
          end
      | None => None
      end
  end.

(** The routine, from its entry to RET. *)
Definition transform (fuel inner : nat) (m : machine) : option machine :=
  match run entry m with
  | Some m' => RoundLoop fuel inner m'
  | None => None
  end.

(** *** What a round computes

    The S-box on two pairs of a low and a high word, as lines 187 to 191
    compute it, and a round as the comments of the file give it: cell [j] of
    the new state is the S-box of the [j]-th and the next of the cells
    visited in the old one. *)
Definition sBox (a b : W * W) : W * W :=
  let x := wand (wxor (snd a) (fst b)) (fst a) in
  (wnot x, wor (wxor (fst a) (snd b)) x).

(** The cells a round visits: from 0, a step of 364 forward below 365 and
    of 365 back from there on: 0, 364, 728, 363, 727, 362, ... *)
Fixpoint walk (n p : nat) : list nat :=
  match n with
  | O => []
  | S n' => p :: walk n' (if (p <? 365)%nat then (p + 364)%nat else (p - 365)%nat)
  end.

Definition cell (s : list W * list W) (k : nat) : W * W :=
  (nth k (fst s) (imm 0), nth k (snd s) (imm 0)).

Definition roundSpec (s : list W * list W) : list W * list W :=
  let visited := walk 730 0 in
  let new := map (fun ab => sBox (cell s (fst ab)) (cell s (snd ab)))
                 (combine visited (tl visited)) in
  (map fst new, map snd new).
End Machine.

Arguments value W : clear implicits.
Arguments regfile W : clear implicits.
Arguments memory W : clear implicits.
Arguments machine W : clear implicits.

(** Symbolic words: the cells and registers on entry, and what the
    instructions build from them. *)
Inductive expr : Type :=
  | Const (z : Z)
  | Cell (a : array) (k : nat)
  | Init (r : reg)
  | Xor (x y : expr)
  | And (x y : expr)
  | Or (x y : expr)
  | Not (x : expr)
  | Add (x : expr) (k : Z)
  | Sub (x : expr) (k : Z).

#[export] Instance WordExpr : Word expr := {
  imm z := Const (z mod 2 ^ 64);
  wxor := Xor;
  wand := And;
  wor := Or;
  wnot := Not;
  wadd x k := match x with
              | Const z => Const ((z + k) mod 2 ^ 64)
              | _ => Add x k
              end;
  wsub x k := match x with
              | Const z => Const ((z - k) mod 2 ^ 64)
              | _ => Sub x k
              end;
  known x := match x with Const z => Some z | _ => None end
}.

(** *** From symbolic words to machine words *)

Section Map.
Context {W1 W2 : Type}.
Variable h : W1 -> W2.

Definition mapv (v : value W1) : value W2 :=
  match v with
  | Int w => Int (h w)
  | Ptr a => Ptr a
  end.

Definition mapf (f : regfile W1) : regfile W2 :=
  {| rAX := mapv (rAX f); rCX := mapv (rCX f); rDX := mapv (rDX f);
     rBX := mapv (rBX f); rBP := mapv (rBP f); rSI := mapv (rSI f);
     rDI := mapv (rDI f); rR8 := mapv (rR8 f); rR9 := mapv (rR9 f);
     rR10 := mapv (rR10 f); rR11 := mapv (rR11 f) |}.

Definition mapmem (m : memory W1) : memory W2 :=
  {| m_lto := map h (m_lto m); m_hto := map h (m_hto m);
     m_lfrom := map h (m_lfrom m); m_hfrom := map h (m_hfrom m) |}.

Definition mapm (m : machine W1) : machine W2 :=
  {| regs := mapf (regs m); mem := mapmem (mem m) |}.
End Map.

(** The value of a symbolic word on a machine: its cells and registers
    stand for their contents there. *)
Fixpoint eval (m : machine Z) (e : expr) : Z :=
  match e with
  | Const z => z
  | Cell a k => nth k (cells a (mem m)) 0
  | Init r => match get r (regs m) with Int z => z | Ptr _ => 0 end
  | Xor x y => Z.lxor (eval m x) (eval m y)
  | And x y => Z.land (eval m x) (eval m y)
  | Or x y => Z.lor (eval m x) (eval m y)
  | Not x => Z.lxor (eval m x) (Z.ones 64)
  | Add x k => (eval m x + k) mod 2 ^ 64
  | Sub x k => (eval m x - k) mod 2 ^ 64
  end.

(** The arrays a round reads and writes: the roles swap after each round
    ([XCHGQ]); [p] tells whether the caller's [from] is read. *)
Definition src_l (p : bool) : array := if p then lfrom else lto.
Definition src_h (p : bool) : array := if p then hfrom else hto.
Definition dst_l (p : bool) : array := if p then lto else lfrom.
Definition dst_h (p : bool) : array := if p then hto else hfrom.

(** The symbolic machine at the label RoundLoop. *)
Definition symbolic (p : bool) : machine expr :=
  {| regs := {| rAX := Ptr (dst_l p); rCX := Ptr (dst_h p);
                rDX := Ptr (src_l p); rBX := Ptr (src_h p);
                rBP := Int (Init BP); rSI := Int (Init SI); rDI := Int (Init DI);
                rR8 := Int (Init R8); rR9 := Int (Init R9);
                rR10 := Int (Init R10); rR11 := Int (Init R11) |};
     mem := {| m_lto := map (Cell lto) (seq 0 729);
               m_hto := map (Cell hto) (seq 0 729);
               m_lfrom := map (Cell lfrom) (seq 0 729);
               m_hfrom := map (Cell hfrom) (seq 0 729) |} |}.

(** The symbolic machine after the round. *)
Definition symbolic_after (p : bool) : machine expr :=
  let s := (map (Cell (src_l p)) (seq 0 729), map (Cell (src_h p)) (seq 0 729)) in
  let new := roundSpec s in
  let last := sBox (cell s 365) (cell s 0) in
  {| regs := {| rAX := Ptr (src_l p); rCX := Ptr (src_h p);
                rDX := Ptr (dst_l p); rBX := Ptr (dst_h p);
                rBP := Int (Sub (Init BP) 1);
                rSI := Int (snd last); rDI := Int (fst last);
                rR8 := Int (Cell (src_l p) 0); rR9 := Int (Cell (src_h p) 0);
                rR10 := Int (Const 0); rR11 := Int (Const 729) |};
     mem := put (dst_h p) (snd new) (put (dst_l p) (fst new) (mem (symbolic p))) |}.

(** A machine at the label RoundLoop: the four address registers point to
    the arrays, the other registers hold words, the arrays have 729 words. *)
Definition ready (p : bool) (m : machine Z) : Prop :=
  rAX (regs m) = Ptr (dst_l p) /\ rCX (regs m) = Ptr (dst_h p)
  /\ rDX (regs m) = Ptr (src_l p) /\ rBX (regs m) = Ptr (src_h p)
  /\ (forall r, In r [BP; SI; DI; R8; R9; R10; R11] ->
        exists z, get r (regs m) = Int z)
  /\ (forall a, length (cells a (mem m)) = 729%nat).

(** The state a round reads and the one it leaves for the next. *)
Definition source (p : bool) (m : machine Z) : list Z * list Z :=
  (cells (src_l p) (mem m), cells (src_h p) (mem m)).

(** A 64-bit word, and a pair of a low and a high word in which each of the
    64 lanes has a bit set in one of the two. *)
Definition word64 (z : Z) : Prop := 0 <= z < 2 ^ 64.

Definition filled (c : Z * Z) : Prop :=
  word64 (fst c) /\ word64 (snd c) /\ Z.lor (fst c) (snd c) = Z.ones 64.

(** A state of 729 pairs of 64-bit words. *)
Definition state64 (s : list Z * list Z) : Prop :=
  (length (fst s) = 729%nat /\ Forall word64 (fst s))
  /\ (length (snd s) = 729%nat /\ Forall word64 (snd s)).

(** A machine as a caller leaves it: the four arrays, and [scratch] in every
    register. *)
Definition called (to_l to_h from_l from_h : list Z) (scratch : Z) : machine Z :=
  {| regs := {| rAX := Int scratch; rCX := Int scratch; rDX := Int scratch;
                rBX := Int scratch; rBP := Int scratch; rSI := Int scratch;
                rDI := Int scratch; rR8 := Int scratch; rR9 := Int scratch;
                rR10 := Int scratch; rR11 := Int scratch |};
     mem := {| m_lto := to_l; m_hto := to_h;
               m_lfrom := from_l; m_hfrom := from_h |} |}.

(** The machine after lines 171 to 175. *)
Definition entered (m : machine Z) : machine Z :=
  {| regs := set BP (Int (imm 0x51))
               (set BX (Ptr hfrom)
                  (set DX (Ptr lfrom)
                     (set CX (Ptr hto) (set AX (Ptr lto) (regs m)))));
     mem := mem m |}.
End amd64.

(** * Properties *)

(** ** Bytes and big-endian integers *)

Lemma byte_to_Z_range (b : byte) : 0 <= byte_to_Z b < 256.
Proof.
  unfold byte_to_Z. pose proof (Byte.to_N_bounded b). lia.
Qed.

Lemma byte_of_to_Z (b : byte) : byte_of_Z (byte_to_Z b) = b.
Proof.
  unfold byte_of_Z. pose proof (byte_to_Z_range b) as Hr.
  change 255 with (Z.ones 8). rewrite Z.land_ones by lia.
  rewrite Z.mod_small by (simpl; lia).
  unfold byte_to_Z. rewrite N2Z.id, Byte.of_to_N. reflexivity.
Qed.

Lemma byte_to_of_Z (z : Z) : byte_to_Z (byte_of_Z z) = z mod 256.
Proof.
  unfold byte_of_Z. change 255 with (Z.ones 8). rewrite Z.land_ones by lia.
  change (2 ^ 8) with 256.
  pose proof (Z.mod_pos_bound z 256 ltac:(lia)) as Hr.
  destruct (Byte.of_N (Z.to_N (z mod 256))) as [b|] eqn:Hb.
  - apply Byte.to_of_N in Hb. unfold byte_to_Z. rewrite Hb. lia.
  - apply Byte.of_N_None_iff in Hb. lia.
Qed.

Lemma byte_to_Z_inj (a b : byte) : byte_to_Z a = byte_to_Z b -> a = b.
Proof.
  intros H. rewrite <- (byte_of_to_Z a), <- (byte_of_to_Z b), H. reflexivity.
Qed.

Lemma length_be_bytes (n : nat) (x : Z) : length (be_bytes n x) = n.
Proof. induction n; simpl; auto. Qed.

Lemma be_Z_fold (l : list byte) (acc : Z) :
  fold_left (fun a b => a * 256 + byte_to_Z b) l acc
  = acc * 256 ^ Z.of_nat (length l) + be_Z l.
Proof.
  unfold be_Z. revert acc. induction l as [|b l IH]; intros acc.
  - simpl. lia.
  - cbn [fold_left length]. rewrite IH, (IH (0 * 256 + byte_to_Z b)).
    rewrite Nat2Z.inj_succ, Z.pow_succ_r by lia. ring.
Qed.

Lemma be_Z_cons (b : byte) (l : list byte) :
  be_Z (b :: l) = byte_to_Z b * 256 ^ Z.of_nat (length l) + be_Z l.
Proof.
  unfold be_Z at 1. cbn [fold_left]. rewrite be_Z_fold. ring.
Qed.

Lemma be_Z_app (l1 l2 : list byte) :
  be_Z (l1 ++ l2) = be_Z l1 * 256 ^ Z.of_nat (length l2) + be_Z l2.
Proof.
  unfold be_Z at 1 2. rewrite fold_left_app, be_Z_fold. reflexivity.
Qed.

Lemma be_Z_range (l : list byte) : 0 <= be_Z l < 256 ^ Z.of_nat (length l).
Proof.
  induction l as [|b l IH].
  - cbn. lia.
  - rewrite be_Z_cons. cbn [length]. rewrite Nat2Z.inj_succ, Z.pow_succ_r by lia.
    pose proof (byte_to_Z_range b). nia.
Qed.

Lemma be_Z_inj (l1 l2 : list byte) :
  length l1 = length l2 -> be_Z l1 = be_Z l2 -> l1 = l2.
Proof.
  revert l2. induction l1 as [|a l1 IH]; intros [|b l2] Hlen Heq; try discriminate.
  - reflexivity.
  - injection Hlen as Hlen. rewrite !be_Z_cons, Hlen in Heq.
    pose proof (be_Z_range l1) as R1. pose proof (be_Z_range l2) as R2.
    rewrite Hlen in R1.
    pose proof (byte_to_Z_range a). pose proof (byte_to_Z_range b).
    assert (byte_to_Z a = byte_to_Z b) by nia.
    f_equal.
    + now apply byte_to_Z_inj.
    + apply IH; [assumption | nia].
Qed.

Lemma be_Z_zeros (n : nat) (l : list byte) : be_Z (repeat x00 n ++ l) = be_Z l.
Proof.
  induction n as [|n IH]; [reflexivity|].
  cbn [repeat app]. rewrite be_Z_cons, IH. reflexivity.
Qed.

Lemma be_Z_be_bytes (n : nat) (x : Z) :
  be_Z (be_bytes n x) = x mod 256 ^ Z.of_nat n.
Proof.
  induction n as [|n IH].
  - cbn. now rewrite Z.mod_1_r.
  - cbn [be_bytes]. rewrite be_Z_cons, length_be_bytes, IH, byte_to_of_Z.
    rewrite Z.shiftr_div_pow2 by lia.
    rewrite Nat2Z.inj_succ, Z.pow_succ_r by lia.
    replace (2 ^ (8 * Z.of_nat n)) with (256 ^ Z.of_nat n)
      by (change 256 with (2 ^ 8); rewrite <- Z.pow_mul_r by lia; reflexivity).
    set (p := 256 ^ Z.of_nat n).
    assert (0 < p) by (apply Z.pow_pos_nonneg; lia).
    rewrite (Z.mul_comm 256 p), Z.rem_mul_r by lia. lia.
Qed.

Lemma be_bytes_be_Z (l : list byte) : be_bytes (length l) (be_Z l) = l.
Proof.
  apply be_Z_inj.
  - apply length_be_bytes.
  - rewrite be_Z_be_bytes. apply Z.mod_small, be_Z_range.
Qed.

(** ** math/big: [Bytes] is the byte string without its leading zeros *)

Lemma is_zero_true (b : byte) : big.is_zero b = true -> b = x00.
Proof. destruct b; simpl; intros H; try discriminate; reflexivity. Qed.

Lemma is_zero_false (b : byte) : big.is_zero b = false -> 1 <= byte_to_Z b.
Proof.
  intros H. pose proof (byte_to_Z_range b).
  assert (byte_to_Z b <> 0); [|lia].
  intros E. assert (b = x00) by (apply byte_to_Z_inj; rewrite E; reflexivity).
  subst b. discriminate.
Qed.

Lemma dropWhile_canonical (l : list byte) : canonical (big.dropWhile big.is_zero l).
Proof.
  induction l as [|b l IH]; simpl; [exact I|].
  destruct (big.is_zero b) eqn:E; [exact IH | exact E].
Qed.

Lemma dropWhile_zeros (l : list byte) :
  l = repeat x00 (length l - length (big.dropWhile big.is_zero l))
      ++ big.dropWhile big.is_zero l.
Proof.
  induction l as [|b l IH]; [reflexivity|].
  cbn [big.dropWhile]. destruct (big.is_zero b) eqn:E.
  - apply is_zero_true in E. subst b.
    assert (length (big.dropWhile big.is_zero l) <= length l)%nat as Hle.
    { clear. induction l as [|c l IH]; simpl; [lia|].
      destruct (big.is_zero c); simpl; lia. }
    cbn [length]. rewrite Nat.sub_succ_l by exact Hle.
    cbn [repeat app]. f_equal. exact IH.
  - rewrite Nat.sub_diag. reflexivity.
Qed.

Lemma be_Z_dropWhile (l : list byte) : be_Z (big.dropWhile big.is_zero l) = be_Z l.
Proof.
  rewrite (dropWhile_zeros l) at 2. now rewrite be_Z_zeros.
Qed.

Lemma canonical_lower (l : list byte) :
  canonical l -> l <> [] -> 256 ^ (Z.of_nat (length l) - 1) <= be_Z l.
Proof.
  destruct l as [|b l]; [congruence|]. intros Hc _.
  apply is_zero_false in Hc. rewrite be_Z_cons.
  cbn [length]. rewrite Nat2Z.inj_succ.
  replace (Z.succ (Z.of_nat (length l)) - 1) with (Z.of_nat (length l)) by lia.
  pose proof (be_Z_range l). nia.
Qed.

Lemma canonical_length_le (l1 l2 : list byte) :
  canonical l1 -> be_Z l1 <= be_Z l2 -> (length l1 <= length l2)%nat.
Proof.
  intros Hc Hle. destruct l1 as [|b l1]; [simpl; lia|].
  pose proof (canonical_lower (b :: l1) Hc ltac:(discriminate)) as Hlow.
  pose proof (be_Z_range l2) as [_ Hup].
  destruct (le_lt_dec (length (b :: l1)) (length l2)) as [|Hlt]; [assumption|].
  exfalso.
  assert (256 ^ Z.of_nat (length l2) <= 256 ^ (Z.of_nat (length (b :: l1)) - 1))
    by (apply Z.pow_le_mono_r; lia).
  lia.
Qed.

Lemma canonical_unique (l1 l2 : list byte) :
  canonical l1 -> canonical l2 -> be_Z l1 = be_Z l2 -> l1 = l2.
Proof.
  intros H1 H2 E. apply be_Z_inj; [|exact E].
  apply Nat.le_antisymm; apply canonical_length_le; auto; lia.
Qed.

Lemma words_bound (x : Z) : 0 <= x -> x < 256 ^ Z.of_nat (8 * big.words x).
Proof.
  intros Hx. unfold big.words. destruct (x =? 0) eqn:E.
  - apply Z.eqb_eq in E. subst. cbn. lia.
  - apply Z.eqb_neq in E. rewrite Z.abs_eq by lia.
    pose proof (Z.log2_nonneg x).
    pose proof (Z.div_pos (Z.log2 x) 64 ltac:(lia) ltac:(lia)).
    rewrite Nat2Z.inj_mul, Z2Nat.id by lia.
    change 256 with (2 ^ 8). rewrite <- Z.pow_mul_r by lia.
    apply Z.log2_lt_pow2; [lia|].
    pose proof (Z.mod_pos_bound (Z.log2 x) 64 ltac:(lia)).
    pose proof (Z.div_mod (Z.log2 x) 64 ltac:(lia)).
    change (Z.of_nat 8) with 8. lia.
Qed.

Lemma be_Z_Bytes (x : Z) : 0 <= x -> be_Z (big.Bytes x) = x.
Proof.
  intros Hx. unfold big.Bytes.
  rewrite be_Z_dropWhile, be_Z_be_bytes, Z.abs_eq by lia.
  apply Z.mod_small. split; [lia | now apply words_bound].
Qed.

Lemma Bytes_be_Z (l : list byte) : big.Bytes (be_Z l) = big.dropWhile big.is_zero l.
Proof.
  apply canonical_unique.
  - apply dropWhile_canonical.
  - apply dropWhile_canonical.
  - rewrite be_Z_Bytes by apply be_Z_range. now rewrite be_Z_dropWhile.
Qed.

Lemma length_Bytes_le (x : Z) (n : nat) :
  0 <= x < 256 ^ Z.of_nat n -> (length (big.Bytes x) <= n)%nat.
Proof.
  intros [Hx Hlt].
  destruct (big.Bytes x) as [|b l] eqn:E; [simpl; lia|].
  assert (canonical (b :: l)) as Hc
    by (rewrite <- E; apply dropWhile_canonical).
  pose proof (canonical_lower _ Hc ltac:(discriminate)) as Hlow.
  rewrite <- E, be_Z_Bytes in Hlow by lia. rewrite E in Hlow.
  destruct (le_lt_dec (length (b :: l)) n) as [|Hgt]; [assumption|].
  exfalso.
  assert (256 ^ Z.of_nat n <= 256 ^ (Z.of_nat (length (b :: l)) - 1))
    by (apply Z.pow_le_mono_r; lia).
  lia.
Qed.

Lemma length_padBytes (b : list byte) (n : Z) :
  Z.of_nat (length b) <= n -> Z.of_nat (length (padBytes b n)) = n.
Proof.
  intros H. unfold padBytes. rewrite length_app, repeat_length. lia.
Qed.

Lemma padBytes_dropWhile (l : list byte) :
  padBytes (big.dropWhile big.is_zero l) (Z.of_nat (length l)) = l.
Proof.
  unfold padBytes. rewrite Nat2Z.id. symmetry. apply dropWhile_zeros.
Qed.

Lemma padBytes_Bytes (l : list byte) :
  padBytes (big.Bytes (be_Z l)) (Z.of_nat (length l)) = l.
Proof. rewrite Bytes_be_Z. apply padBytes_dropWhile. Qed.

(** ** Output sizes of the hash functions, HMAC and PBKDF2 *)

Lemma length_digest (wbytes : nat) (s : sha2.state) :
  length (sha2.digest wbytes s) = (8 * wbytes)%nat.
Proof.
  destruct s as [[[[[[[a b] c] d] e] f] g] h]. unfold sha2.digest.
  rewrite !length_app, !length_be_bytes. lia.
Qed.

Lemma length_Sum256 (msg : list byte) : length (sha256.Sum256 msg) = sha256.Size.
Proof. unfold sha256.Sum256, sha2.hash. now rewrite length_digest. Qed.

Lemma length_Sum512 (msg : list byte) : length (sha512.Sum512 msg) = sha512.Size.
Proof. unfold sha512.Sum512, sha2.hash. now rewrite length_digest. Qed.

Lemma length_hmac_sha512 (key msg : list byte) :
  length (hmac_sha512 key msg) = sha512.Size.
Proof. unfold hmac_sha512, hmac.Sum. apply length_Sum512. Qed.

Lemma length_xor_bytes (a b : list byte) :
  length a = length b -> length (xor_bytes a b) = length a.
Proof.
  revert b. induction a as [|x a IH]; intros [|y b] H; try discriminate; simpl; auto.
Qed.

Section Pbkdf2Length.
Variable hashLen : nat.
Variable prf : list byte -> list byte -> list byte.
Hypothesis prf_length : forall key msg, length (prf key msg) = hashLen.

Lemma length_stretch (password : list byte) (n : nat) (U T : list byte) :
  length T = hashLen -> length (pbkdf2.stretch prf password n U T) = hashLen.
Proof.
  revert U T. induction n as [|n IH]; intros U T HT; simpl; [assumption|].
  apply IH. rewrite length_xor_bytes; [assumption|]. now rewrite prf_length.
Qed.

Lemma length_block (password salt : list byte) (iter i : nat) :
  length (pbkdf2.block prf password salt iter i) = hashLen.
Proof. unfold pbkdf2.block. apply length_stretch, prf_length. Qed.

Lemma length_blocks (password salt : list byte) (iter : nat) (l : list nat) :
  length (flat_map (pbkdf2.block prf password salt iter) l) = (length l * hashLen)%nat.
Proof.
  induction l as [|i l IH]; simpl; [reflexivity|].
  rewrite length_app, length_block, IH. reflexivity.
Qed.

Lemma length_Key (password salt : list byte) (iter keyLen : nat) :
  (0 < hashLen)%nat ->
  length (pbkdf2.Key hashLen prf password salt iter keyLen) = keyLen.
Proof.
  intros Hpos. unfold pbkdf2.Key.
  rewrite length_firstn, length_blocks, length_seq.
  apply Nat.min_l.
  pose proof (Nat.div_mod_eq (keyLen + hashLen - 1) hashLen) as E.
  pose proof (Nat.mod_upper_bound (keyLen + hashLen - 1) hashLen ltac:(lia)).
  nia.
Qed.
End Pbkdf2Length.

Lemma length_seed (password salt : list byte) (iter : nat) :
  length (pbkdf2.Key sha512.Size hmac_sha512 password salt iter SeedSize) = SeedSize.
Proof.
  apply length_Key; [apply length_hmac_sha512 | unfold sha512.Size; lia].
Qed.

(** ** Bits: joining and splitting 11-bit groups *)

Lemma land_shiftl_low (v x k : Z) :
  0 <= k -> 0 <= x < 2 ^ k -> Z.land (Z.shiftl v k) x = 0.
Proof.
  intros Hk Hx. apply Z.bits_inj'. intros i Hi.
  rewrite Z.land_spec, Z.bits_0.
  destruct (Z.lt_ge_cases i k) as [Hlt|Hge].
  - now rewrite Z.shiftl_spec_low.
  - rewrite <- (Z.mod_small x (2 ^ k)) by lia.
    rewrite Z.mod_pow2_bits_high by lia. apply andb_false_r.
Qed.

Lemma lor_shiftl_add (v x k : Z) :
  0 <= k -> 0 <= x < 2 ^ k -> Z.lor (Z.shiftl v k) x = v * 2 ^ k + x.
Proof.
  intros Hk Hx.
  rewrite <- Z.lxor_lor by now apply land_shiftl_low.
  rewrite <- Z.add_nocarry_lxor by now apply land_shiftl_low.
  now rewrite Z.shiftl_mul_pow2.
Qed.

Lemma land_2047 (B : Z) : Z.land B 2047 = B mod 2048.
Proof. change 2047 with (Z.ones 11). now rewrite Z.land_ones. Qed.

Lemma length_groups (n : nat) (B : Z) : length (groups n B) = n.
Proof.
  revert B. induction n as [|n IH]; intros B; simpl; [reflexivity|].
  rewrite length_app, IH. simpl. lia.
Qed.

Lemma groups_range (n : nat) (B : Z) :
  Forall (fun i => 0 <= i < wordlist.Count) (groups n B).
Proof.
  revert B. induction n as [|n IH]; intros B; simpl; [constructor|].
  apply Forall_app. split; [apply IH|].
  constructor; [|constructor]. rewrite land_2047.
  apply Z.mod_pos_bound. reflexivity.
Qed.

Lemma joinIndices_app (l1 l2 : list Z) (d : Z) :
  joinIndices (l1 ++ l2) d = joinIndices l2 (joinIndices l1 d).
Proof. unfold joinIndices. apply fold_left_app. Qed.

Lemma joinIndices_bound (idxs : list Z) (d : Z) :
  Forall (fun i => 0 <= i < wordlist.Count) idxs -> 0 <= d ->
  0 <= joinIndices idxs d < (d + 1) * 2 ^ (11 * Z.of_nat (length idxs)).
Proof.
  intros H. revert d. induction H as [|i idxs Hi _ IH]; intros d Hd.
  - cbn. lia.
  - unfold wordlist.Count in Hi.
    change (joinIndices (i :: idxs) d) with (joinIndices idxs (Z.lor (Z.shiftl d 11) i)).
    rewrite lor_shiftl_add by (cbn; lia).
    specialize (IH (d * 2 ^ 11 + i) ltac:(lia)).
    cbn [length]. rewrite Nat2Z.inj_succ.
    replace (11 * Z.succ (Z.of_nat (length idxs)))
      with (11 + 11 * Z.of_nat (length idxs)) by lia.
    rewrite Z.pow_add_r by lia.
    assert (0 < 2 ^ (11 * Z.of_nat (length idxs))) by (apply Z.pow_pos_nonneg; lia).
    change (2 ^ 11) with 2048 in *. nia.
Qed.

Lemma joinIndices_groups (n : nat) (B d : Z) :
  0 <= d ->
  joinIndices (groups n B) d
  = d * 2 ^ (11 * Z.of_nat n) + B mod 2 ^ (11 * Z.of_nat n).
Proof.
  revert B. induction n as [|n IH]; intros B Hd.
  - cbn. rewrite Z.mod_1_r. lia.
  - cbn [groups]. rewrite joinIndices_app, IH by assumption.
    cbn [joinIndices fold_left].
    set (p := 2 ^ (11 * Z.of_nat n)).
    assert (0 < p) by (apply Z.pow_pos_nonneg; lia).
    rewrite land_2047.
    pose proof (Z.mod_pos_bound B 2048 ltac:(lia)).
    pose proof (Z.mod_pos_bound (Z.shiftr B 11) p ltac:(lia)).
    rewrite lor_shiftl_add by (cbn; lia).
    replace (2 ^ (11 * Z.of_nat (S n))) with (2048 * p).
    2:{ unfold p. rewrite Nat2Z.inj_succ.
        replace (11 * Z.succ (Z.of_nat n)) with (11 + 11 * Z.of_nat n) by lia.
        rewrite Z.pow_add_r by lia. reflexivity. }
    rewrite Z.rem_mul_r by lia.
    rewrite Z.shiftr_div_pow2 by lia.
    change (2 ^ 11) with 2048. ring.
Qed.

(** ** The two loops of the codec *)

Lemma length_store {A} (i : nat) (w : A) (ws : list A) :
  length (store i w ws) = length ws.
Proof.
  revert i. induction ws as [|x ws IH]; intros [|i]; simpl; auto.
Qed.

Lemma skipn_store {A} (i : nat) (w : A) (ws : list A) :
  (i < length ws)%nat -> skipn i (store i w ws) = w :: skipn (S i) ws.
Proof.
  revert i. induction ws as [|x ws IH]; intros i Hi; simpl in Hi; [lia|].
  destruct i as [|i]; [reflexivity|].
  cbn [store]. rewrite (skipn_cons i), (skipn_cons (S i)). apply IH. lia.
Qed.

Section Loops.
Variable wordList : wordlist.List.

Lemma encodeWords_groups (i : nat) (ws : Mnemonic) (B : Z) :
  (i <= length ws)%nat ->
  encodeWords wordList i ws B
  = map (wordlist.Word wordList) (groups i B) ++ skipn i ws.
Proof.
  revert ws B. induction i as [|i IH]; intros ws B Hi.
  - reflexivity.
  - cbn [encodeWords groups].
    rewrite IH by (rewrite length_store; lia).
    rewrite skipn_store by lia.
    rewrite map_app, <- app_assoc. reflexivity.
Qed.

Lemma decodeWords_contains (ws : Mnemonic) (d : Z) :
  forallb (wordlist.contains wordList) ws = true ->
  decodeWords wordList ws d
  = Ok (joinIndices (map (wordlist.Index wordList) ws) d).
Proof.
  revert d. induction ws as [|w ws IH]; intros d H; [reflexivity|].
  cbn [forallb] in H. apply andb_true_iff in H as [Hw H].
  unfold wordlist.contains in Hw. apply andb_true_iff in Hw as [H0 H1].
  cbn [decodeWords].
  replace (wordlist.Index wordList w <? 0) with false by lia.
  replace (wordlist.Index wordList w >=? wordlist.Count) with false by lia.
  cbn [orb]. rewrite IH by assumption. reflexivity.
Qed.

Lemma decodeWords_Ok (ws : Mnemonic) (d v : Z) :
  decodeWords wordList ws d = Ok v ->
  Forall (fun i => 0 <= i < wordlist.Count) (map (wordlist.Index wordList) ws)
  /\ v = joinIndices (map (wordlist.Index wordList) ws) d.
Proof.
  revert d. induction ws as [|w ws IH]; intros d H.
  - injection H as <-. split; [constructor | reflexivity].
  - cbn [decodeWords] in H.
    destruct ((wordlist.Index wordList w <? 0)
              || (wordlist.Index wordList w >=? wordlist.Count)) eqn:E;
      [discriminate|].
    apply orb_false_iff in E as [E0 E1].
    apply IH in H as [HF Hv]. split.
    + cbn [map]. constructor; [lia | assumption].
    + exact Hv.
Qed.
End Loops.

(** ** Validation and checksum *)

Lemma validSize_quarter (n : nat) :
  validSize n -> exists k, Z.of_nat n = 4 * k /\ 4 <= k <= 16.
Proof.
  intros [Hr Hm]. exists (Z.of_nat (n / 4)).
  pose proof (Nat.div_mod_eq n 4). lia.
Qed.

Lemma validCount_third (n : nat) :
  validCount n -> exists k, Z.of_nat n = 3 * k /\ 4 <= k <= 8.
Proof.
  intros H. exists (Z.of_nat (n / 3)). unfold validCount in H. cbn [In] in H.
  destruct H as [<-|[<-|[<-|[<-|[<-|[]]]]]]; cbn; lia.
Qed.

Lemma validateEntropy_Ok (entropy : list byte) :
  validSize (length entropy) -> validateEntropy entropy = Ok tt.
Proof.
  intros H. apply validSize_quarter in H as (k & Hk & Hr).
  unfold validateEntropy, entropyMultiple, entropyMinBits, entropyMaxBits.
  rewrite Hk. replace (4 * k * 8) with (k * 32) by lia.
  rewrite Z.mod_mul by lia.
  replace (128 <=? k * 32) with true by lia.
  replace (k * 32 <=? 512) with true by lia.
  reflexivity.
Qed.

Lemma validateEntropy_Err (entropy : list byte) :
  ~ validSize (length entropy) ->
  validateEntropy entropy = Err ErrInvalidEntropySize.
Proof.
  intros H. unfold validateEntropy, entropyMultiple, entropyMinBits, entropyMaxBits.
  destruct ((Z.of_nat (length entropy) * 8 mod 32 =? 0)
            && (128 <=? Z.of_nat (length entropy) * 8)
            && (Z.of_nat (length entropy) * 8 <=? 512)) eqn:E; [|reflexivity].
  exfalso. apply H.
  apply andb_true_iff in E as [E E3]. apply andb_true_iff in E as [E1 E2].
  apply Z.eqb_eq in E1.
  pose proof (Z.div_mod (Z.of_nat (length entropy) * 8) 32 ltac:(lia)) as D.
  rewrite E1 in D.
  split; [lia|].
  apply Nat2Z.inj. rewrite Nat2Z.inj_mod. change (Z.of_nat 4) with 4.
  change (Z.of_nat 0) with 0.
  replace (Z.of_nat (length entropy))
    with (Z.of_nat (length entropy) * 8 / 32 * 4) by lia.
  apply Z.mod_mul. lia.
Qed.

Lemma validateEntropy_inv (entropy : list byte) :
  validateEntropy entropy = Ok tt -> validSize (length entropy).
Proof.
  intros H.
  destruct (Nat.le_decidable 16 (length entropy)) as [H1|H1];
    [destruct (Nat.le_decidable (length entropy) 64) as [H2|H2];
     [destruct (Nat.eq_decidable (length entropy mod 4) 0) as [H3|H3]|]|].
  - split; [split|]; assumption.
  - rewrite validateEntropy_Err in H by (unfold validSize; tauto). discriminate.
  - rewrite validateEntropy_Err in H by (unfold validSize; lia). discriminate.
  - rewrite validateEntropy_Err in H by (unfold validSize; lia). discriminate.
Qed.

Lemma computeChecksum_Ok (bytes : list byte) (numBits : Z) :
  numBits <= 256 ->
  computeChecksum bytes numBits = Ok (leadingBits bytes numBits).
Proof.
  intros H. unfold computeChecksum, leadingBits, big.Rsh, big.SetBytes.
  change (Z.of_nat sha256.Size * 8) with 256.
  replace (numBits >? 256) with false by lia.
  rewrite Z.shiftr_div_pow2 by lia. reflexivity.
Qed.

Lemma computeChecksum_Panic (bytes : list byte) (numBits : Z) :
  256 < numBits ->
  computeChecksum bytes numBits = Panic "invalid number of bits".
Proof.
  intros H. unfold computeChecksum.
  change (Z.of_nat sha256.Size * 8) with 256.
  replace (numBits >? 256) with true by lia. reflexivity.
Qed.

Lemma leadingBits_range (bytes : list byte) (numBits : Z) :
  0 <= numBits <= 256 -> 0 <= leadingBits bytes numBits < 2 ^ numBits.
Proof.
  intros H. unfold leadingBits.
  pose proof (be_Z_range (sha256.Sum256 bytes)) as R.
  rewrite length_Sum256 in R.
  assert (0 < 2 ^ (256 - numBits)) by (apply Z.pow_pos_nonneg; lia).
  split; [apply Z.div_pos; lia|].
  apply Z.div_lt_upper_bound; [lia|].
  rewrite <- Z.pow_add_r by lia.
  replace (256 - numBits + numBits) with 256 by lia.
  change (256 ^ Z.of_nat sha256.Size) with (2 ^ 256) in R. lia.
Qed.

(** ** The encoder is the word of each group of the bit buffer *)

Lemma sizes_of_valid (entropy : list byte) :
  validSize (length entropy) ->
  exists k, 4 <= k <= 16
    /\ Z.of_nat (length entropy) = 4 * k
    /\ checksumBits entropy = k
    /\ wordCount entropy = Z.to_nat (3 * k).
Proof.
  intros H. apply validSize_quarter in H as (k & Hk & Hr).
  exists k. unfold checksumBits, wordCount, entropyBitsToWordCount.
  rewrite Hk. repeat split; try lia.
  - replace (4 * k * 8) with (k * 32) by lia. apply Z.div_mul. lia.
  - f_equal. replace (3 * (4 * k * 8)) with (3 * k * 32) by lia.
    apply Z.div_mul. lia.
Qed.

Lemma bitBuffer_range (entropy : list byte) :
  validSize (length entropy) ->
  0 <= bitBuffer entropy < 2 ^ (11 * Z.of_nat (wordCount entropy)).
Proof.
  intros H. destruct (sizes_of_valid entropy H) as (k & Hr & Hlen & Hcs & Hwc).
  unfold bitBuffer. rewrite Hcs, Hwc, Z2Nat.id by lia.
  pose proof (leadingBits_range entropy k ltac:(lia)) as Hc.
  pose proof (be_Z_range entropy) as He. rewrite Hlen in He.
  change 256 with (2 ^ 8) in He. rewrite <- Z.pow_mul_r in He by lia.
  replace (11 * (3 * k)) with (8 * (4 * k) + k) by lia.
  rewrite Z.pow_add_r by lia.
  assert (0 < 2 ^ k) by (apply Z.pow_pos_nonneg; lia).
  nia.
Qed.

Lemma EntropyToMnemonic_groups (wordList : wordlist.List) (entropy : list byte) :
  validSize (length entropy) ->
  EntropyToMnemonic wordList entropy
  = Ok (map (wordlist.Word wordList) (groups (wordCount entropy) (bitBuffer entropy))).
Proof.
  intros H. destruct (sizes_of_valid entropy H) as (k & Hr & Hlen & Hcs & Hwc).
  unfold EntropyToMnemonic. rewrite validateEntropy_Ok by assumption.
  cbn [bind]. fold (checksumBits entropy). rewrite Hcs.
  rewrite computeChecksum_Ok by lia. cbn [bind]. cbv zeta.
  rewrite repeat_length. fold (wordCount entropy).
  rewrite encodeWords_groups by (rewrite repeat_length; lia).
  rewrite skipn_all2 by (rewrite repeat_length; lia).
  rewrite app_nil_r. unfold big.Or, big.Lsh, big.SetBytes.
  rewrite lor_shiftl_add by (try apply leadingBits_range; lia).
  unfold bitBuffer. rewrite Hcs. reflexivity.
Qed.

(** ** Decoding what the encoder produced *)

Section Decode.
Variable wordList : wordlist.List.
Hypothesis wf : wordlist.WellFormed wordList.

Lemma contains_Word (i : Z) :
  0 <= i < wordlist.Count ->
  wordlist.contains wordList (wordlist.Word wordList i) = true.
Proof.
  intros Hi. unfold wordlist.contains.
  rewrite (wordlist.index_word _ wf) by assumption.
  apply andb_true_iff. split; lia.
Qed.

Lemma forallb_contains_Words (idxs : list Z) :
  Forall (fun i => 0 <= i < wordlist.Count) idxs ->
  forallb (wordlist.contains wordList) (map (wordlist.Word wordList) idxs) = true.
Proof.
  induction 1 as [|i idxs Hi _ IH]; [reflexivity|].
  cbn [map forallb]. now rewrite contains_Word, IH.
Qed.

Lemma map_Index_Word (idxs : list Z) :
  Forall (fun i => 0 <= i < wordlist.Count) idxs ->
  map (wordlist.Index wordList) (map (wordlist.Word wordList) idxs) = idxs.
Proof.
  induction 1 as [|i idxs Hi _ IH]; [reflexivity|].
  cbn [map]. now rewrite (wordlist.index_word _ wf), IH.
Qed.

Lemma validateMnemonic_Ok (mnemonic : Mnemonic) :
  validCount (length mnemonic) ->
  forallb (wordlist.contains wordList) mnemonic = true ->
  validateMnemonic wordList mnemonic = Ok tt.
Proof.
  intros Hc Hw. unfold validateMnemonic. cbv zeta. rewrite Hw.
  unfold validCount in Hc. cbn [In] in Hc.
  destruct Hc as [<-|[<-|[<-|[<-|[<-|[]]]]]]; reflexivity.
Qed.

Lemma MnemonicToEntropy_encoded (entropy : list byte) :
  validSize (length entropy) -> (length entropy <= 32)%nat ->
  MnemonicToEntropy wordList
    (map (wordlist.Word wordList) (groups (wordCount entropy) (bitBuffer entropy)))
  = Ok entropy.
Proof.
  intros H H32. destruct (sizes_of_valid entropy H) as (k & Hr & Hlen & Hcs & Hwc).
  pose proof (bitBuffer_range entropy H) as HB.
  pose proof (leadingBits_range entropy k ltac:(lia)) as Hc.
  assert (0 < 2 ^ k) as Hp by (apply Z.pow_pos_nonneg; lia).
  unfold MnemonicToEntropy.
  rewrite validateMnemonic_Ok.
  2:{ rewrite length_map, length_groups, Hwc. unfold validCount. cbn [In]. lia. }
  2:{ apply forallb_contains_Words, groups_range. }
  cbn [bind]. rewrite length_map, length_groups.
  rewrite decodeWords_contains by apply forallb_contains_Words, groups_range.
  rewrite map_Index_Word by apply groups_range.
  rewrite joinIndices_groups by lia. cbn [bind].
  rewrite Z.mul_0_l, Z.add_0_l, Z.mod_small by exact HB.
  assert (wordCountToEntropyBits (Z.of_nat (wordCount entropy)) = 32 * k) as Hbits.
  { unfold wordCountToEntropyBits. rewrite Hwc, Z2Nat.id by lia.
    replace (32 * (3 * k)) with (32 * k * 3) by lia. apply Z.div_mul. lia. }
  rewrite Hbits. unfold entropyMultiple, bigOne.
  replace (32 * k / 32) with k by (rewrite Z.mul_comm, Z.div_mul; lia).
  replace (32 * k / 8) with (Z.of_nat (length entropy))
    by (rewrite Hlen; replace (32 * k) with (4 * k * 8) by lia;
        now rewrite Z.div_mul by lia).
  cbv zeta. unfold big.Rsh, big.And, big.Sub, big.Lsh.
  assert (Z.shiftr (bitBuffer entropy) k = be_Z entropy) as Hhi.
  { rewrite Z.shiftr_div_pow2 by lia. unfold bitBuffer. rewrite Hcs.
    rewrite Z.div_add_l by lia. rewrite Z.div_small by lia. lia. }
  assert (Z.land (bitBuffer entropy) (Z.shiftl 1 k - 1) = leadingBits entropy k) as Hlo.
  { rewrite Z.shiftl_1_l.
    replace (2 ^ k - 1) with (Z.ones k) by (rewrite Z.ones_equiv; lia).
    rewrite Z.land_ones by lia.
    unfold bitBuffer. rewrite Hcs.
    rewrite Z.add_comm, Z.mod_add by lia. apply Z.mod_small. lia. }
  rewrite Hhi, Hlo, padBytes_Bytes.
  rewrite computeChecksum_Ok by lia. cbn [bind].
  unfold big.Cmp. rewrite Z.compare_refl. reflexivity.
Qed.
End Decode.

(** ** Word lists backed by a table *)

Lemma position_cases (w : string) (ws : list string) (k : Z) :
  wordlist.position w ws k = -1
  \/ (k <= wordlist.position w ws k < k + Z.of_nat (length ws)
      /\ nth (Z.to_nat (wordlist.position w ws k - k)) ws EmptyString = w).
Proof.
  revert k. induction ws as [|x ws IH]; intros k; [now left|].
  cbn [wordlist.position]. destruct (String.eqb x w) eqn:E.
  - right. apply String.eqb_eq in E. subst x.
    rewrite Z.sub_diag. cbn [length]. split; [lia | reflexivity].
  - destruct (IH (k + 1)) as [H|[Hr Hn]]; [now left|]. right.
    cbn [length]. split; [lia|].
    replace (Z.to_nat (wordlist.position w ws (k + 1) - k))
      with (S (Z.to_nat (wordlist.position w ws (k + 1) - (k + 1)))) by lia.
    exact Hn.
Qed.

Lemma position_NoDup (ws : list string) (i : nat) (k : Z) :
  NoDup ws -> (i < length ws)%nat ->
  wordlist.position (nth i ws EmptyString) ws k = k + Z.of_nat i.
Proof.
  intros Hnd. revert i k. induction Hnd as [|x ws Hx _ IH]; intros i k Hi.
  - simpl in Hi. lia.
  - cbn [wordlist.position]. destruct i as [|i].
    + cbn [nth]. rewrite String.eqb_refl. lia.
    + cbn [nth]. cbn [length] in Hi.
      destruct (String.eqb x (nth i ws EmptyString)) eqn:E.
      * apply String.eqb_eq in E. exfalso. apply Hx. rewrite E.
        apply nth_In. lia.
      * rewrite IH by lia. lia.
Qed.

Lemma ofWords_wf (ws : list string) :
  Z.of_nat (length ws) = wordlist.Count -> NoDup ws ->
  wordlist.WellFormed (wordlist.ofWords ws).
Proof.
  intros Hlen Hnd. constructor; cbn [wordlist.Word wordlist.Index wordlist.ofWords].
  - intros i Hi. rewrite position_NoDup by (assumption || lia). lia.
  - intros w Hw. destruct (position_cases w ws 0) as [H|[_ Hn]]; [lia|].
    now rewrite Z.sub_0_r in Hn.
Qed.

Lemma numbered_inj (i j : nat) : numbered i = numbered j -> i = j.
Proof.
  unfold numbered. cbn [String.append]. intros H. injection H as H.
  apply DecimalNat.Unsigned.to_uint_inj.
  apply (f_equal NilEmpty.uint_of_string) in H.
  rewrite !NilEmpty.usu in H. now injection H.
Qed.

Lemma testWords_NoDup : NoDup testWords.
Proof.
  unfold testWords. apply NoDup_app.
  - repeat constructor; cbn [In]; intros H;
      repeat (destruct H as [H|H]; [discriminate|]); exact H.
  - apply Finite.Injective_map_NoDup; [|apply seq_NoDup].
    intros i j. apply numbered_inj.
  - intros a Ha Hin. apply in_map_iff in Hin as (i & Hi & _).
    unfold numbered in Hi. cbn [String.append] in Hi.
    cbn [In] in Ha.
    repeat (destruct Ha as [Ha|Ha]; [rewrite <- Ha in Hi; discriminate|]).
    exact Ha.
Qed.

Lemma testList_wf : wordlist.WellFormed testList.
Proof.
  apply ofWords_wf; [|apply testWords_NoDup].
  unfold testWords. rewrite length_app, length_map, length_seq. reflexivity.
Qed.

(** ** The decoder, case by case *)

Section Decoder.
Variable wordList : wordlist.List.

Lemma contains_resolves (w : string) :
  wordlist.contains wordList w = true <-> resolves wordList w.
Proof.
  unfold wordlist.contains, resolves. rewrite andb_true_iff. lia.
Qed.

Lemma forallb_contains (mnemonic : Mnemonic) :
  forallb (wordlist.contains wordList) mnemonic = true
  <-> Forall (resolves wordList) mnemonic.
Proof.
  rewrite forallb_forall, Forall_forall.
  split; intros H w Hw; apply contains_resolves, H, Hw.
Qed.

Lemma validateMnemonic_inv (mnemonic : Mnemonic) :
  validateMnemonic wordList mnemonic = Ok tt ->
  validCount (length mnemonic) /\ Forall (resolves wordList) mnemonic.
Proof.
  unfold validateMnemonic. cbv zeta.
  destruct (existsb _ _) eqn:E1; [|discriminate].
  destruct (forallb _ _) eqn:E2; [intros _|discriminate].
  split; [|now apply forallb_contains].
  apply existsb_exists in E1 as (x & Hx & E). apply Z.eqb_eq in E.
  unfold validCount. cbn [In] in *. lia.
Qed.

Lemma validateMnemonic_Err (mnemonic : Mnemonic) :
  ~ (validCount (length mnemonic) /\ Forall (resolves wordList) mnemonic) ->
  validateMnemonic wordList mnemonic = Err ErrInvalidMnemonic.
Proof.
  intros H. destruct (validateMnemonic wordList mnemonic) as [[]|e|msg] eqn:E.
  - exfalso. apply H. now apply validateMnemonic_inv.
  - revert E. unfold validateMnemonic.
    destruct (_ && _); [discriminate | now intros [= <-]].
  - revert E. unfold validateMnemonic. destruct (_ && _); discriminate.
Qed.

Lemma validateMnemonic_resolves (mnemonic : Mnemonic) :
  validCount (length mnemonic) -> Forall (resolves wordList) mnemonic ->
  validateMnemonic wordList mnemonic = Ok tt.
Proof.
  intros Hc Hw. apply validateMnemonic_Ok; [exact Hc | now apply forallb_contains].
Qed.

Lemma sizes_of_count (mnemonic : Mnemonic) :
  validCount (length mnemonic) ->
  exists k, 4 <= k <= 8
    /\ Z.of_nat (length mnemonic) = 3 * k
    /\ wordCountToEntropyBits (Z.of_nat (length mnemonic)) = 32 * k
    /\ checksumLength mnemonic = k.
Proof.
  intros H. apply validCount_third in H as (k & Hk & Hr). exists k.
  assert (wordCountToEntropyBits (Z.of_nat (length mnemonic)) = 32 * k) as Hb.
  { unfold wordCountToEntropyBits. rewrite Hk.
    replace (32 * (3 * k)) with (32 * k * 3) by lia. apply Z.div_mul. lia. }
  repeat split; try lia; try assumption.
  unfold checksumLength. rewrite Hb, Z.mul_comm. apply Z.div_mul. lia.
Qed.

Lemma decoded_range (mnemonic : Mnemonic) :
  Forall (resolves wordList) mnemonic ->
  0 <= decoded wordList mnemonic < 2 ^ (11 * Z.of_nat (length mnemonic)).
Proof.
  intros H. unfold decoded.
  pose proof (joinIndices_bound (map (wordlist.Index wordList) mnemonic) 0) as B.
  rewrite length_map in B. rewrite Z.add_0_l, Z.mul_1_l in B.
  apply B; [|lia]. apply Forall_map. exact H.
Qed.

Lemma MnemonicToEntropy_valid (mnemonic : Mnemonic) :
  validCount (length mnemonic) -> Forall (resolves wordList) mnemonic ->
  MnemonicToEntropy wordList mnemonic
  = if leadingBits (extractedEntropy wordList mnemonic) (checksumLength mnemonic)
       =? trailingBits wordList mnemonic
    then Ok (extractedEntropy wordList mnemonic)
    else Err ErrInvalidChecksum.
Proof.
  intros Hc Hw. destruct (sizes_of_count mnemonic Hc) as (k & Hr & Hn & Hb & Hk).
  unfold MnemonicToEntropy.
  rewrite validateMnemonic_resolves by assumption. cbn [bind].
  rewrite decodeWords_contains by now apply forallb_contains.
  cbn [bind]. fold (decoded wordList mnemonic).
  unfold entropyMultiple, bigOne. fold (checksumLength mnemonic). cbv zeta.
  unfold big.Rsh, big.And, big.Sub, big.Lsh.
  rewrite Z.shiftr_div_pow2 by lia. fold (extractedEntropy wordList mnemonic).
  rewrite computeChecksum_Ok by lia. cbn [bind].
  rewrite Z.shiftl_1_l.
  replace (2 ^ checksumLength mnemonic - 1) with (Z.ones (checksumLength mnemonic))
    by (rewrite Z.ones_equiv; lia).
  rewrite Z.land_ones by lia. fold (trailingBits wordList mnemonic).
  unfold big.Cmp.
  destruct (Z.compare_spec (trailingBits wordList mnemonic)
              (leadingBits (extractedEntropy wordList mnemonic) (checksumLength mnemonic)))
    as [E|E|E].
  - rewrite E, !Z.eqb_refl. reflexivity.
  - replace (_ =? trailingBits wordList mnemonic) with false by lia. reflexivity.
  - replace (_ =? trailingBits wordList mnemonic) with false by lia. reflexivity.
Qed.

Lemma MnemonicToEntropy_invalid (mnemonic : Mnemonic) :
  ~ (validCount (length mnemonic) /\ Forall (resolves wordList) mnemonic) ->
  MnemonicToEntropy wordList mnemonic = Err ErrInvalidMnemonic.
Proof.
  intros H. unfold MnemonicToEntropy.
  now rewrite validateMnemonic_Err.
Qed.

Lemma MnemonicToEntropy_Ok_inv (mnemonic : Mnemonic) (entropy : list byte) :
  MnemonicToEntropy wordList mnemonic = Ok entropy ->
  validCount (length mnemonic) /\ Forall (resolves wordList) mnemonic
  /\ entropy = extractedEntropy wordList mnemonic.
Proof.
  intros H.
  destruct (validateMnemonic wordList mnemonic) as [[]|e|msg] eqn:E.
  - apply validateMnemonic_inv in E as [Hc Hw].
    rewrite MnemonicToEntropy_valid in H by assumption.
    destruct (_ =? _); [|discriminate]. injection H as <-. auto.
  - unfold MnemonicToEntropy in H. rewrite E in H. discriminate.
  - unfold MnemonicToEntropy in H. rewrite E in H. discriminate.
Qed.

Lemma length_extractedEntropy (mnemonic : Mnemonic) :
  validCount (length mnemonic) -> Forall (resolves wordList) mnemonic ->
  Z.of_nat (length (extractedEntropy wordList mnemonic))
  = 4 * Z.of_nat (length mnemonic) / 3.
Proof.
  intros Hc Hw. destruct (sizes_of_count mnemonic Hc) as (k & Hr & Hn & Hb & Hk).
  pose proof (decoded_range mnemonic Hw) as Hd. rewrite Hn in Hd.
  unfold extractedEntropy. rewrite Hb, Hk.
  replace (32 * k / 8) with (4 * k)
    by (replace (32 * k) with (4 * k * 8) by lia; now rewrite Z.div_mul by lia).
  replace (4 * Z.of_nat (length mnemonic) / 3) with (4 * k)
    by (rewrite Hn; replace (4 * (3 * k)) with (4 * k * 3) by lia;
        now rewrite Z.div_mul by lia).
  apply length_padBytes.
  assert (0 < 2 ^ k) by (apply Z.pow_pos_nonneg; lia).
  pose proof (length_Bytes_le (decoded wordList mnemonic / 2 ^ k) (Z.to_nat (4 * k))) as L.
  rewrite Z2Nat.id in L by lia.
  assert (length (big.Bytes (decoded wordList mnemonic / 2 ^ k)) <= Z.to_nat (4 * k))%nat;
    [|lia].
  apply L. split; [apply Z.div_pos; lia|].
  apply Z.div_lt_upper_bound; [lia|].
  change 256 with (2 ^ 8). rewrite <- Z.pow_mul_r, <- Z.pow_add_r by lia.
  replace (k + 8 * (4 * k)) with (11 * (3 * k)) by lia. lia.
Qed.
End Decoder.

(** ** PBKDF2: the loop of the package computes the key of RFC 8018 *)

Section Pbkdf2Spec.
Variable hashLen : nat.
Variable prf : list byte -> list byte -> list byte.

Lemma stretch_fold (password salt : list byte) (i n j : nat) (T : list byte) :
  pbkdf2.stretch prf password n (rfc8018.U prf password salt i (S j)) T
  = fold_left xor_bytes
      (map (rfc8018.U prf password salt i) (seq (S (S j)) n)) T.
Proof.
  revert j T. induction n as [|n IH]; intros j T; [reflexivity|].
  cbn [pbkdf2.stretch seq map fold_left].
  change (prf password (rfc8018.U prf password salt i (S j)))
    with (rfc8018.U prf password salt i (S (S j))).
  apply IH.
Qed.

Lemma block_F (password salt : list byte) (iter i : nat) :
  pbkdf2.block prf password salt iter i = rfc8018.F prf password salt iter i.
Proof.
  unfold pbkdf2.block, rfc8018.F.
  change (prf password (salt ++ be_bytes 4 (Z.of_nat i)))
    with (rfc8018.U prf password salt i 1).
  apply stretch_fold.
Qed.

Lemma Key_PBKDF2 (password salt : list byte) (iter keyLen : nat) :
  pbkdf2.Key hashLen prf password salt iter keyLen
  = rfc8018.PBKDF2 hashLen prf password salt iter keyLen.
Proof.
  unfold pbkdf2.Key, rfc8018.PBKDF2. cbv zeta.
  rewrite flat_map_concat_map. f_equal. f_equal.
  apply map_ext. intros i. apply block_F.
Qed.
End Pbkdf2Spec.

Lemma MnemonicToSeed_Ok (wordList : wordlist.List) (NFKD : string -> string)
  (mnemonic : Mnemonic) (passphrase : string) (entropy : list byte) :
  MnemonicToEntropy wordList mnemonic = Ok entropy ->
  MnemonicToSeed wordList NFKD mnemonic passphrase
  = Ok (seedOf NFKD mnemonic passphrase).
Proof.
  intros H. unfold MnemonicToSeed, seedOf. rewrite H. cbn [bind]. cbv zeta.
  now rewrite Key_PBKDF2.
Qed.

Lemma length_seedOf (NFKD : string -> string) (mnemonic : Mnemonic)
  (passphrase : string) :
  length (seedOf NFKD mnemonic passphrase) = 64%nat.
Proof.
  unfold seedOf. rewrite <- Key_PBKDF2. apply length_seed.
Qed.

(** * The claims *)




Lemma sentence12_resolves : Forall (resolves testList) sentence12.
Proof.
  repeat constructor; vm_compute; intuition discriminate.
Qed.

Lemma sentence12_entropy :
  MnemonicToEntropy testList sentence12 = Ok (repeat x00 16).
Proof. vm_compute. reflexivity. Qed.

(** C3: MnemonicToSeed first validates the sentence with MnemonicToEntropy
    and hands back its error; on success the seed is exactly the 64 bytes of
    PBKDF2 with HMAC-SHA-512 and 2048 iterations, the sentence as password
    and "mnemonic" followed by the NFKD-normalized passphrase as salt. *)
Theorem C3_seed_is_pbkdf2 (wordList : wordlist.List) (NFKD : string -> string)
  (mnemonic : Mnemonic) (passphrase : string) :
  MnemonicToSeed wordList NFKD mnemonic passphrase
  = match MnemonicToEntropy wordList mnemonic with
    | Ok _ =>
        Ok (rfc8018.PBKDF2 64 hmac_sha512
              (bytes_of_string (String.concat " " mnemonic))
              (bytes_of_string ("mnemonic" ++ NFKD passphrase)%string)
              2048 64)
    | Err e => Err e
    | Panic msg => Panic msg
    end
  /\ length (rfc8018.PBKDF2 64 hmac_sha512
               (bytes_of_string (String.concat " " mnemonic))
               (bytes_of_string ("mnemonic" ++ NFKD passphrase)%string)
               2048 64) = 64%nat.
Proof.
  split.
  - destruct (MnemonicToEntropy wordList mnemonic) as [entropy|e|msg] eqn:E.
    + exact (MnemonicToSeed_Ok wordList NFKD mnemonic passphrase entropy E).
    + unfold MnemonicToSeed. now rewrite E.
    + unfold MnemonicToSeed. now rewrite E.
  - exact (length_seedOf NFKD mnemonic passphrase).
Qed.

(** C5: for a sentence with an accepted word count whose words all resolve,
    the trailing entropyBits/32 bits are the checksum; MnemonicToEntropy
    recomputes the checksum over the extracted entropy and returns
    ErrInvalidChecksum exactly when the two differ, and the extracted
    entropy when they agree; no entropy comes with the error. *)
Theorem C5_checksum_mismatch (wordList : wordlist.List) (mnemonic : Mnemonic) :
  (12 <= length mnemonic <= 24)%nat ->
  (length mnemonic mod 3 = 0)%nat ->
  Forall (fun w => 0 <= wordlist.Index wordList w < wordlist.Count) mnemonic ->
  let bitsEntropy := 32 * Z.of_nat (length mnemonic) / 3 in
  let bitsChecksum := bitsEntropy / 32 in
  let buffer := decoded wordList mnemonic in
  let trailing := buffer mod 2 ^ bitsChecksum in
  let entropy := padBytes (big.Bytes (buffer / 2 ^ bitsChecksum)) (bitsEntropy / 8) in
  let recomputed := be_Z (sha256.Sum256 entropy) / 2 ^ (256 - bitsChecksum) in
  (MnemonicToEntropy wordList mnemonic = Err ErrInvalidChecksum
   <-> recomputed <> trailing)
  /\ (MnemonicToEntropy wordList mnemonic = Ok entropy
      <-> recomputed = trailing).
Proof.
  intros Hr Hm Hw. cbv zeta.
  assert (validCount (length mnemonic)) as Hc
    by (unfold validCount; cbn [In]; pose proof (Nat.div_mod_eq (length mnemonic) 3); lia).
  rewrite (MnemonicToEntropy_valid wordList mnemonic Hc Hw).
  unfold trailingBits, extractedEntropy, leadingBits, checksumLength,
    wordCountToEntropyBits.
  destruct (Z.eqb_spec
    (be_Z (sha256.Sum256
       (padBytes
          (big.Bytes (decoded wordList mnemonic
                      / 2 ^ (32 * Z.of_nat (length mnemonic) / 3 / 32)))
          (32 * Z.of_nat (length mnemonic) / 3 / 8)))
     / 2 ^ (256 - 32 * Z.of_nat (length mnemonic) / 3 / 32))
    (decoded wordList mnemonic mod 2 ^ (32 * Z.of_nat (length mnemonic) / 3 / 32)))
    as [E|E].
  - split; split; intros H; try discriminate; try reflexivity; try assumption.
    contradiction.
  - split; split; intros H; try discriminate; try reflexivity; try assumption.
    contradiction.
Qed.

Lemma C5_checksum_mismatch_witness :
  let mnemonic := repeat "abandon" 12 in
  (12 <= length mnemonic <= 24)%nat
  /\ (length mnemonic mod 3 = 0)%nat
  /\ Forall (fun w => 0 <= wordlist.Index testList w < wordlist.Count) mnemonic
  /\ MnemonicToEntropy testList mnemonic = Err ErrInvalidChecksum.
Proof.
  intros mnemonic.
  assert (12 <= length mnemonic <= 24)%nat as Hr by (simpl; lia).
  assert (length mnemonic mod 3 = 0)%nat as Hm by reflexivity.
  assert (Forall (fun w => 0 <= wordlist.Index testList w < wordlist.Count) mnemonic)
    as Hw by (repeat constructor; vm_compute; intuition discriminate).
  split; [exact Hr|]. split; [exact Hm|]. split; [exact Hw|].
  apply (C5_checksum_mismatch testList mnemonic Hr Hm Hw).
  vm_compute. discriminate.
Defined.

(** C6: a sentence whose word count is not one of 12, 15, 18, 21 and 24, or
    that holds a word absent from the active list, makes MnemonicToEntropy
    return ErrInvalidMnemonic, an error result; the panic on a word index
    out of range is never reached. *)
Theorem C6_invalid_mnemonic (wordList : wordlist.List) (mnemonic : Mnemonic) :
  wordlist.WellFormed wordList ->
  ~ In (length mnemonic) [12; 15; 18; 21; 24]%nat
  \/ (exists w, In w mnemonic
        /\ forall i, 0 <= i < wordlist.Count -> wordlist.Word wordList i <> w) ->
  MnemonicToEntropy wordList mnemonic = Err ErrInvalidMnemonic.
Proof.
  intros wf H. apply MnemonicToEntropy_invalid. intros [Hc Hw].
  destruct H as [H|(w & Hin & Habs)].
  - apply H. exact Hc.
  - rewrite Forall_forall in Hw. specialize (Hw w Hin).
    apply (Habs (wordlist.Index wordList w) Hw).
    now apply (wordlist.word_index _ wf).
Qed.

Lemma C6_invalid_mnemonic_witness :
  wordlist.WellFormed testList
  /\ ~ In (length sentence27) [12; 15; 18; 21; 24]%nat
  /\ MnemonicToEntropy testList sentence27 = Err ErrInvalidMnemonic.
Proof.
  assert (~ In (length sentence27) [12; 15; 18; 21; 24]%nat) as Hn
    by (simpl; lia).
  split; [exact testList_wf|]. split; [exact Hn|].
  exact (C6_invalid_mnemonic testList sentence27 testList_wf (or_introl Hn)).
Defined.

(** C7: EntropyToMnemonic returns ErrInvalidEntropySize exactly when the
    entropy does not have 16 to 64 bytes in a multiple of 4; an entropy of a
    supported size gets a sentence. *)
Theorem C7_entropy_size (wordList : wordlist.List) (entropy : list byte) :
  (EntropyToMnemonic wordList entropy = Err ErrInvalidEntropySize
   <-> ~ ((16 <= length entropy <= 64)%nat /\ (length entropy mod 4 = 0)%nat))
  /\ (is_ok (EntropyToMnemonic wordList entropy) = true
      <-> (16 <= length entropy <= 64)%nat /\ (length entropy mod 4 = 0)%nat).
Proof.
  assert (validSize (length entropy)
          -> is_ok (EntropyToMnemonic wordList entropy) = true) as Hv
    by (intros H; now rewrite EntropyToMnemonic_groups).
  assert (~ validSize (length entropy)
          -> EntropyToMnemonic wordList entropy = Err ErrInvalidEntropySize) as Hi
    by (intros H; unfold EntropyToMnemonic; now rewrite validateEntropy_Err).
  fold (validSize (length entropy)).
  destruct (validateEntropy entropy) as [[]|e|msg] eqn:E.
  - apply validateEntropy_inv in E. specialize (Hv E).
    split; split; intros H; try tauto.
    rewrite H in Hv. discriminate.
  - assert (~ validSize (length entropy)) as Hn
      by (intros H; rewrite validateEntropy_Ok in E by exact H; discriminate).
    specialize (Hi Hn). split; split; intros H; try tauto.
    rewrite Hi in H. discriminate.
  - assert (~ validSize (length entropy)) as Hn
      by (intros H; rewrite validateEntropy_Ok in E by exact H; discriminate).
    specialize (Hi Hn). split; split; intros H; try tauto.
    rewrite Hi in H. discriminate.
Qed.

(** C8: when MnemonicToEntropy accepts a sentence, MnemonicToSeed succeeds on
    it for every passphrase and returns 64 bytes: validation is its only
    error path. *)
Theorem C8_seed_after_decode (wordList : wordlist.List) (NFKD : string -> string)
  (mnemonic : Mnemonic) (entropy : list byte) (passphrase : string) :
  MnemonicToEntropy wordList mnemonic = Ok entropy ->
  exists seed,
    MnemonicToSeed wordList NFKD mnemonic passphrase = Ok seed
    /\ length seed = 64%nat.
Proof.
  intros H. exists (seedOf NFKD mnemonic passphrase). split.
  - exact (MnemonicToSeed_Ok wordList NFKD mnemonic passphrase entropy H).
  - apply length_seedOf.
Qed.

Lemma C8_seed_after_decode_witness :
  MnemonicToEntropy testList sentence12 = Ok (repeat x00 16)
  /\ exists seed,
       MnemonicToSeed testList (fun s => s) sentence12 "TREZOR" = Ok seed
       /\ length seed = 64%nat.
Proof.
  split; [exact sentence12_entropy|].
  exact (C8_seed_after_decode testList (fun s => s) sentence12 (repeat x00 16)
           "TREZOR" sentence12_entropy).
Defined.

(** C9: the entropy MnemonicToEntropy returns has exactly 4 * wordCount / 3
    bytes, whatever its value: the zero bytes that [Bytes] drops in front
    are put back by padBytes. *)
Theorem C9_entropy_length (wordList : wordlist.List) (mnemonic : Mnemonic)
  (entropy : list byte) :
  MnemonicToEntropy wordList mnemonic = Ok entropy ->
  Z.of_nat (length entropy) = 4 * Z.of_nat (length mnemonic) / 3.
Proof.
  intros H. apply MnemonicToEntropy_Ok_inv in H as (Hc & Hw & ->).
  now apply length_extractedEntropy.
Qed.

Lemma C9_entropy_length_witness :
  MnemonicToEntropy testList sentence12 = Ok (repeat x00 16)
  /\ Z.of_nat (length (repeat x00 16)) = 4 * Z.of_nat (length sentence12) / 3.
Proof.
  split; [exact sentence12_entropy|].
  exact (C9_entropy_length testList sentence12 (repeat x00 16) sentence12_entropy).
Defined.

(** C10: with an entropy of a supported size the checksum has at most 16
    bits, so computeChecksum, which panics only above 256 bits, returns its
    value in EntropyToMnemonic and in MnemonicToEntropy; neither function
    panics on any input. *)
Theorem C10_checksum_total (wordList : wordlist.List) (entropy bytes : list byte)
  (mnemonic : Mnemonic) (msg : string) :
  (validateEntropy entropy = Ok tt ->
     Z.of_nat (length entropy) * 8 / 32 <= 16
     /\ computeChecksum entropy (Z.of_nat (length entropy) * 8 / 32)
        = Ok (leadingBits entropy (Z.of_nat (length entropy) * 8 / 32)))
  /\ (validateMnemonic wordList mnemonic = Ok tt ->
     wordCountToEntropyBits (Z.of_nat (length mnemonic)) / entropyMultiple <= 16
     /\ computeChecksum bytes
          (wordCountToEntropyBits (Z.of_nat (length mnemonic)) / entropyMultiple)
        = Ok (leadingBits bytes
                (wordCountToEntropyBits (Z.of_nat (length mnemonic)) / entropyMultiple)))
  /\ EntropyToMnemonic wordList entropy <> Panic msg
  /\ MnemonicToEntropy wordList mnemonic <> Panic msg.
Proof.
  split; [|split; [|split]].
  - intros H. apply validateEntropy_inv in H.
    destruct (sizes_of_valid entropy H) as (k & Hr & _ & Hcs & _).
    unfold checksumBits in Hcs. rewrite Hcs.
    split; [lia | apply computeChecksum_Ok; lia].
  - intros H. apply validateMnemonic_inv in H as [Hc _].
    destruct (sizes_of_count mnemonic Hc) as (k & Hr & _ & _ & Hk).
    unfold checksumLength in Hk. unfold entropyMultiple. rewrite Hk.
    split; [lia | apply computeChecksum_Ok; lia].
  - destruct (validateEntropy entropy) as [[]|e|m] eqn:E.
    + apply validateEntropy_inv in E.
      rewrite EntropyToMnemonic_groups by exact E. discriminate.
    + unfold EntropyToMnemonic. rewrite E. discriminate.
    + unfold validateEntropy in E. destruct (_ && _); discriminate.
  - destruct (validateMnemonic wordList mnemonic) as [[]|e|m] eqn:E.
    + apply validateMnemonic_inv in E as [Hc Hw].
      rewrite MnemonicToEntropy_valid by assumption.
      destruct (_ =? _); discriminate.
    + unfold MnemonicToEntropy. rewrite E. discriminate.
    + unfold validateMnemonic in E. destruct (_ && _); discriminate.
Qed.

(** ** Bit strings *)

Lemma bits_to_Z_fold (bs : list bool) (acc : Z) :
  fold_left (fun a b => 2 * a + Z.b2z b) bs acc
  = acc * 2 ^ Z.of_nat (length bs) + bits_to_Z bs.
Proof.
  unfold bits_to_Z. revert acc. induction bs as [|b bs IH]; intros acc.
  - cbn. lia.
  - cbn [fold_left length]. rewrite IH, (IH (2 * 0 + Z.b2z b)).
    rewrite Nat2Z.inj_succ, Z.pow_succ_r by lia. ring.
Qed.

Lemma bits_to_Z_app (a b : list bool) :
  bits_to_Z (a ++ b) = bits_to_Z a * 2 ^ Z.of_nat (length b) + bits_to_Z b.
Proof.
  unfold bits_to_Z at 1 2. now rewrite fold_left_app, bits_to_Z_fold.
Qed.

Lemma bits_to_Z_range (bs : list bool) : 0 <= bits_to_Z bs < 2 ^ Z.of_nat (length bs).
Proof.
  induction bs as [|b bs IH] using rev_ind.
  - cbn. lia.
  - rewrite bits_to_Z_app, length_app. cbn [length].
    rewrite Nat2Z.inj_add, Z.pow_add_r by lia.
    change (bits_to_Z [b]) with (2 * 0 + Z.b2z b).
    change (2 ^ Z.of_nat 1) with 2.
    destruct b; cbn [Z.b2z]; lia.
Qed.

Lemma bits_to_Z_firstn (k : nat) (bs : list bool) :
  (k <= length bs)%nat ->
  bits_to_Z (firstn k bs) = bits_to_Z bs / 2 ^ (Z.of_nat (length bs) - Z.of_nat k).
Proof.
  intros Hk. rewrite <- (firstn_skipn k bs) at 2.
  rewrite bits_to_Z_app, length_skipn.
  replace (Z.of_nat (length bs) - Z.of_nat k) with (Z.of_nat (length bs - k)) by lia.
  pose proof (bits_to_Z_range (skipn k bs)) as R. rewrite length_skipn in R.
  assert (0 < 2 ^ Z.of_nat (length bs - k)) by (apply Z.pow_pos_nonneg; lia).
  rewrite Z.div_add_l, Z.div_small by lia. lia.
Qed.

Lemma bits_of_byte_value (b : byte) : bits_to_Z (bits_of_byte b) = byte_to_Z b.
Proof. destruct b; reflexivity. Qed.

Lemma length_bits_of_bytes (l : list byte) :
  length (bits_of_bytes l) = (8 * length l)%nat.
Proof.
  induction l as [|b l IH]; [reflexivity|].
  cbn [bits_of_bytes flat_map]. rewrite length_app. fold (bits_of_bytes l).
  rewrite IH. cbn [length bits_of_byte map]. lia.
Qed.

Lemma bits_of_bytes_value (l : list byte) : bits_to_Z (bits_of_bytes l) = be_Z l.
Proof.
  induction l as [|b l IH]; [reflexivity|].
  cbn [bits_of_bytes flat_map]. fold (bits_of_bytes l).
  rewrite bits_to_Z_app, IH, bits_of_byte_value, length_bits_of_bytes, be_Z_cons.
  rewrite Nat2Z.inj_mul. change (Z.of_nat 8) with 8.
  rewrite Z.pow_mul_r by lia. reflexivity.
Qed.

Lemma groups_high (n : nat) (a r : Z) :
  0 <= a < 2048 -> 0 <= r < 2 ^ (11 * Z.of_nat n) ->
  groups (S n) (a * 2 ^ (11 * Z.of_nat n) + r) = a :: groups n r.
Proof.
  intros Ha. revert r. induction n as [|n IH]; intros r Hr.
  - cbn in Hr. assert (r = 0) by lia. subst r.
    cbn [groups app Z.of_nat]. rewrite Z.mul_0_r, Z.pow_0_r, Z.mul_1_r, Z.add_0_r.
    rewrite land_2047, Z.mod_small by lia. reflexivity.
  - remember (S n) as m eqn:Em. cbn [groups]. subst m.
    assert (2 ^ (11 * Z.of_nat (S n)) = 2 ^ (11 * Z.of_nat n) * 2048) as Hp.
    { rewrite Nat2Z.inj_succ.
      replace (11 * Z.succ (Z.of_nat n)) with (11 * Z.of_nat n + 11) by lia.
      rewrite Z.pow_add_r by lia. reflexivity. }
    set (p := 2 ^ (11 * Z.of_nat n)) in *.
    assert (0 < p) by (apply Z.pow_pos_nonneg; lia).
    rewrite Hp in *.
    assert (Z.shiftr (a * (p * 2048) + r) 11 = a * p + r / 2048) as Hs.
    { rewrite Z.shiftr_div_pow2 by lia. change (2 ^ 11) with 2048.
      replace (a * (p * 2048) + r) with (r + a * p * 2048) by lia.
      rewrite Z.div_add by lia. lia. }
    assert (Z.land (a * (p * 2048) + r) 2047 = r mod 2048) as Hl.
    { rewrite land_2047.
      replace (a * (p * 2048) + r) with (r + a * p * 2048) by lia.
      now rewrite Z.mod_add by lia. }
    rewrite Hs, Hl. unfold p at 1.
    rewrite IH.
    2:{ fold p. split; [apply Z.div_pos; lia|].
        apply Z.div_lt_upper_bound; lia. }
    cbn [groups app]. rewrite Z.shiftr_div_pow2 by lia. change (2 ^ 11) with 2048.
    rewrite land_2047. reflexivity.
Qed.

Lemma groups_chunks (n : nat) (bs : list bool) :
  length bs = (11 * n)%nat ->
  groups n (bits_to_Z bs) = map bits_to_Z (chunks 11 n bs).
Proof.
  revert bs. induction n as [|n IH]; intros bs Hlen; [reflexivity|].
  cbn [chunks map].
  assert (length (skipn 11 bs) = (11 * n)%nat) as Hs
    by (rewrite length_skipn; lia).
  assert (length (firstn 11 bs) = 11%nat) as Hf
    by (rewrite length_firstn; lia).
  rewrite <- IH by exact Hs.
  rewrite <- (firstn_skipn 11 bs) at 1.
  rewrite bits_to_Z_app, Hs.
  pose proof (bits_to_Z_range (firstn 11 bs)) as Ra. rewrite Hf in Ra.
  pose proof (bits_to_Z_range (skipn 11 bs)) as Rr. rewrite Hs in Rr.
  rewrite Nat2Z.inj_mul in *. change (Z.of_nat 11) with 11 in *.
  apply groups_high; [exact Ra | exact Rr].
Qed.

(** C2: for an entropy of a supported size, EntropyToMnemonic takes
    bitlen/32 leading bits of the SHA-256 hash as checksum, appends them to
    the entropy bits, cuts the buffer into consecutive 11-bit groups from the
    most significant end, and returns the word of each group in that order,
    so that the first word is the word of the 11 most significant bits. *)
Theorem C2_encoder_algorithm (wordList : wordlist.List) (entropy : list byte) :
  (16 <= length entropy <= 64)%nat ->
  (length entropy mod 4 = 0)%nat ->
  EntropyToMnemonic wordList entropy
  = Ok (entropyToMnemonic_spec wordList entropy).
Proof.
  intros Hr Hm.
  assert (validSize (length entropy)) as H by (split; assumption).
  destruct (sizes_of_valid entropy H) as (k & Hk & Hlen & Hcs & Hwc).
  rewrite EntropyToMnemonic_groups by exact H.
  unfold entropyToMnemonic_spec. cbv zeta. f_equal.
  assert ((length entropy * 8 / 32)%nat = Z.to_nat k) as Hq.
  { apply Nat2Z.inj. rewrite Nat2Z.inj_div, Nat2Z.inj_mul, Z2Nat.id by lia.
    exact Hcs. }
  rewrite Hq.
  set (checksum := firstn (Z.to_nat k) (bits_of_bytes (sha256.Sum256 entropy))).
  assert (length checksum = Z.to_nat k) as Hlc.
  { unfold checksum. rewrite length_firstn, length_bits_of_bytes, length_Sum256.
    unfold sha256.Size. lia. }
  assert (length (bits_of_bytes entropy ++ checksum) = (11 * wordCount entropy)%nat)
    as Hlb.
  { rewrite length_app, length_bits_of_bytes, Hlc, Hwc. lia. }
  rewrite Hlb, Nat.mul_comm, Nat.div_mul by lia.
  rewrite <- (map_map bits_to_Z (wordlist.Word wordList)).
  rewrite <- groups_chunks by exact Hlb.
  f_equal. f_equal.
  rewrite bits_to_Z_app, bits_of_bytes_value, Hlc, Z2Nat.id by lia.
  unfold bitBuffer. rewrite Hcs. f_equal.
  unfold checksum. rewrite bits_to_Z_firstn
    by (rewrite length_bits_of_bytes, length_Sum256; unfold sha256.Size; lia).
  rewrite bits_of_bytes_value, length_bits_of_bytes, length_Sum256.
  unfold leadingBits, sha256.Size. rewrite Z2Nat.id by lia. reflexivity.
Qed.

Lemma C2_encoder_algorithm_witness :
  let entropy := repeat x7f 16 in
  (16 <= length entropy <= 64)%nat
  /\ (length entropy mod 4 = 0)%nat
  /\ EntropyToMnemonic testList entropy = Ok (entropyToMnemonic_spec testList entropy).
Proof.
  intros entropy.
  assert (16 <= length entropy <= 64)%nat as Hr by (simpl; lia).
  assert (length entropy mod 4 = 0)%nat as Hm by reflexivity.
  split; [exact Hr|]. split; [exact Hm|].
  exact (C2_encoder_algorithm testList entropy Hr Hm).
Defined.

(** * SHA-512 on limbs computes SHA-512

    ** The limb arithmetic of [fast512] against [Z] *)

Ltac blast_bits :=
  eapply Z.bits_inj'; intros ?i ?Hi;
  repeat progress Z.rewrite_bitwise;
  Z.discover_equal_testbit_indices;
  Z.destruct_ltbs;
  try (exfalso; lia);
  try btauto.


Lemma limb_ok_land (x : int) : limb_ok x -> Uint63.to_Z x = Z.land (Uint63.to_Z x) (Z.ones 32).
Proof.
  intros H. pose proof (Uint63.to_Z_bounded x).
  rewrite Z.land_ones, Z.mod_small by (unfold limb_ok in H; lia). reflexivity.
Qed.

Lemma land_m32 (x : int) :
  Uint63.to_Z (Uint63.land x fast512.m32) = Z.land (Uint63.to_Z x) (Z.ones 32).
Proof. rewrite Uint63.land_spec'. reflexivity. Qed.

Lemma limb_ok_m32 (x : int) : limb_ok (Uint63.land x fast512.m32).
Proof.
  unfold limb_ok. rewrite land_m32, Z.land_ones by lia.
  apply Z.mod_pos_bound. lia.
Qed.

Lemma to_Z_lsr (x n : int) :
  Uint63.to_Z (Uint63.lsr x n) = Z.shiftr (Uint63.to_Z x) (Uint63.to_Z n).
Proof.
  pose proof (Uint63.to_Z_bounded n).
  rewrite Uint63.lsr_spec, Z.shiftr_div_pow2 by lia. reflexivity.
Qed.

Lemma to_Z_lsl (x n : int) :
  limb_ok x -> Uint63.to_Z n <= 31 ->
  Uint63.to_Z (Uint63.lsl x n) = Z.shiftl (Uint63.to_Z x) (Uint63.to_Z n).
Proof.
  intros Hx Hn. pose proof (Uint63.to_Z_bounded n). pose proof (Uint63.to_Z_bounded x).
  rewrite Uint63.lsl_spec, Z.shiftl_mul_pow2 by lia.
  apply Z.mod_small. split; [apply Z.mul_nonneg_nonneg; [lia | apply Z.pow_nonneg; lia]|].
  unfold limb_ok in Hx.
  assert (2 ^ Uint63.to_Z n <= 2 ^ 31) by (apply Z.pow_le_mono_r; lia).
  assert (0 < 2 ^ Uint63.to_Z n) by (apply Z.pow_pos_nonneg; lia).
  change wB with (2 ^ 32 * 2 ^ 31). nia.
Qed.

Lemma to_Z_sub32 (n : int) :
  0 < Uint63.to_Z n < 32 ->
  Uint63.to_Z (Uint63.sub 32 n) = 32 - Uint63.to_Z n.
Proof.
  intros H. rewrite Uint63.sub_spec. change (Uint63.to_Z 32) with 32.
  apply Z.mod_small. change wB with 9223372036854775808. lia.
Qed.

Lemma val_arith (a : fast512.word) :
  word_ok a ->
  fast512.val a = Uint63.to_Z (fst a) * 2 ^ 32 + Uint63.to_Z (snd a).
Proof.
  intros [_ Hl]. unfold fast512.val. pose proof (Uint63.to_Z_bounded (snd a)).
  apply lor_shiftl_add; [lia | unfold limb_ok in Hl; lia].
Qed.

Lemma val_range (a : fast512.word) : word_ok a -> 0 <= fast512.val a < 2 ^ 64.
Proof.
  intros H. rewrite val_arith by exact H. destruct H as [Hh Hl].
  unfold limb_ok in *.
  pose proof (Uint63.to_Z_bounded (fst a)). pose proof (Uint63.to_Z_bounded (snd a)).
  lia.
Qed.

Lemma fast_norm_spec (hi lo : int) :
  Uint63.to_Z hi < 2 ^ 40 -> Uint63.to_Z lo < 2 ^ 40 ->
  word_ok (fast512.norm hi lo)
  /\ fast512.val (fast512.norm hi lo)
     = (Uint63.to_Z hi * 2 ^ 32 + Uint63.to_Z lo) mod 2 ^ 64.
Proof.
  intros Hh Hl.
  assert (word_ok (fast512.norm hi lo)) as Hok
    by (split; apply limb_ok_m32).
  split; [exact Hok|]. rewrite val_arith by exact Hok.
  unfold fast512.norm. cbn [fst snd]. rewrite !land_m32, !Z.land_ones by lia.
  pose proof (Uint63.to_Z_bounded hi). pose proof (Uint63.to_Z_bounded lo).
  rewrite Uint63.add_spec, Uint63.lsr_spec. change (Uint63.to_Z 32) with 32.
  assert (0 <= Uint63.to_Z lo / 2 ^ 32 < 2 ^ 8) as Hq.
  { split; [apply Z.div_pos; lia|]. apply Z.div_lt_upper_bound; lia. }
  rewrite (Z.mod_small _ wB) by (change wB with 9223372036854775808; lia).
  change (2 ^ 64) with (2 ^ 32 * 2 ^ 32).
  rewrite (Z.rem_mul_r _ (2 ^ 32) (2 ^ 32)) by lia.
  rewrite (Z.add_comm (Uint63.to_Z hi * 2 ^ 32)), Z.mod_add, Z.div_add by lia.
  rewrite (Z.add_comm (Uint63.to_Z lo / 2 ^ 32)). lia.
Qed.

Lemma fast_add_spec (a b : fast512.word) :
  word_ok a -> word_ok b ->
  word_ok (fast512.add a b)
  /\ fast512.val (fast512.add a b) = (fast512.val a + fast512.val b) mod 2 ^ 64.
Proof.
  intros Ha Hb. rewrite (val_arith a Ha), (val_arith b Hb).
  destruct Ha as [Hah Hal], Hb as [Hbh Hbl]. unfold limb_ok in *.
  pose proof (Uint63.to_Z_bounded (fst a)). pose proof (Uint63.to_Z_bounded (snd a)).
  pose proof (Uint63.to_Z_bounded (fst b)). pose proof (Uint63.to_Z_bounded (snd b)).
  assert (Uint63.to_Z (fst a + fst b) = Uint63.to_Z (fst a) + Uint63.to_Z (fst b)) as Eh
    by (rewrite Uint63.add_spec; apply Z.mod_small;
        change wB with 9223372036854775808; lia).
  assert (Uint63.to_Z (snd a + snd b) = Uint63.to_Z (snd a) + Uint63.to_Z (snd b)) as El
    by (rewrite Uint63.add_spec; apply Z.mod_small;
        change wB with 9223372036854775808; lia).
  unfold fast512.add.
  destruct (fast_norm_spec (fst a + fst b) (snd a + snd b)) as [Hok Hv];
    [lia | lia |].
  split; [exact Hok|]. rewrite Hv, Eh, El. f_equal. lia.
Qed.

Lemma limb_ok_of_land (x : int) :
  Uint63.to_Z x = Z.land (Uint63.to_Z x) (Z.ones 32) -> limb_ok x.
Proof.
  intros H. unfold limb_ok. rewrite H, Z.land_ones by lia.
  apply Z.mod_pos_bound. lia.
Qed.

Lemma fast_xor_spec (a b : fast512.word) :
  word_ok a -> word_ok b ->
  word_ok (fast512.xor a b)
  /\ fast512.val (fast512.xor a b) = Z.lxor (fast512.val a) (fast512.val b).
Proof.
  intros [Hah Hal] [Hbh Hbl].
  apply limb_ok_land in Hah, Hal, Hbh, Hbl.
  unfold fast512.xor, fast512.val, word_ok. cbn [fst snd].
  rewrite !Uint63.lxor_spec'.
  repeat split.
  - apply limb_ok_of_land. rewrite Uint63.lxor_spec', Hah, Hbh. blast_bits.
  - apply limb_ok_of_land. rewrite Uint63.lxor_spec', Hal, Hbl. blast_bits.
  - rewrite Hah, Hal, Hbh, Hbl. blast_bits.
Qed.

Lemma fast_and_spec (a b : fast512.word) :
  word_ok a -> word_ok b ->
  word_ok (fast512.and a b)
  /\ fast512.val (fast512.and a b) = Z.land (fast512.val a) (fast512.val b).
Proof.
  intros [Hah Hal] [Hbh Hbl].
  apply limb_ok_land in Hah, Hal, Hbh, Hbl.
  unfold fast512.and, fast512.val, word_ok. cbn [fst snd].
  rewrite !Uint63.land_spec'.
  repeat split.
  - apply limb_ok_of_land. rewrite Uint63.land_spec', Hah, Hbh. blast_bits.
  - apply limb_ok_of_land. rewrite Uint63.land_spec', Hal, Hbl. blast_bits.
  - rewrite Hah, Hal, Hbh, Hbl. blast_bits.
Qed.

Lemma fast_not_spec (a : fast512.word) :
  word_ok a ->
  word_ok (fast512.not a)
  /\ fast512.val (fast512.not a) = Z.lxor (fast512.val a) (Z.ones 64).
Proof.
  intros [Hah Hal].
  apply limb_ok_land in Hah, Hal.
  unfold fast512.not, fast512.val, word_ok. cbn [fst snd].
  rewrite !Uint63.lxor_spec'. change (Uint63.to_Z fast512.m32) with (Z.ones 32).
  repeat split.
  - apply limb_ok_of_land. rewrite Uint63.lxor_spec', Hah.
    change (Uint63.to_Z fast512.m32) with (Z.ones 32). blast_bits.
  - apply limb_ok_of_land. rewrite Uint63.lxor_spec', Hal.
    change (Uint63.to_Z fast512.m32) with (Z.ones 32). blast_bits.
  - rewrite Hah, Hal. blast_bits.
Qed.

Lemma Z_rotr_low (H L n : Z) :
  0 < n < 32 ->
  let h := Z.land H (Z.ones 32) in
  let l := Z.land L (Z.ones 32) in
  Z.lor
    (Z.shiftl (Z.land (Z.lor (Z.shiftr h n) (Z.shiftl l (32 - n))) (Z.ones 32)) 32)
    (Z.land (Z.lor (Z.shiftr l n) (Z.shiftl h (32 - n))) (Z.ones 32))
  = Z.lor (Z.shiftr (Z.lor (Z.shiftl h 32) l) n)
      (Z.land (Z.shiftl (Z.lor (Z.shiftl h 32) l) (64 - n)) (Z.ones 64)).
Proof.
  intros Hn h l. unfold h, l. blast_bits.
Qed.

Lemma Z_rotr_high (H L n : Z) :
  0 < n < 32 ->
  let h := Z.land H (Z.ones 32) in
  let l := Z.land L (Z.ones 32) in
  Z.lor
    (Z.shiftl (Z.land (Z.lor (Z.shiftr l n) (Z.shiftl h (32 - n))) (Z.ones 32)) 32)
    (Z.land (Z.lor (Z.shiftr h n) (Z.shiftl l (32 - n))) (Z.ones 32))
  = Z.lor (Z.shiftr (Z.lor (Z.shiftl h 32) l) (n + 32))
      (Z.land (Z.shiftl (Z.lor (Z.shiftl h 32) l) (64 - (n + 32))) (Z.ones 64)).
Proof.
  intros Hn h l. unfold h, l. blast_bits.
Qed.

Lemma Z_shr (H L n : Z) :
  0 < n < 32 ->
  let h := Z.land H (Z.ones 32) in
  let l := Z.land L (Z.ones 32) in
  Z.lor (Z.shiftl (Z.shiftr h n) 32)
    (Z.land (Z.lor (Z.shiftr l n) (Z.shiftl h (32 - n))) (Z.ones 32))
  = Z.shiftr (Z.lor (Z.shiftl h 32) l) n.
Proof.
  intros Hn h l. unfold h, l. blast_bits.
Qed.

Lemma fast_rotr_low_spec (n : int) (a : fast512.word) :
  0 < Uint63.to_Z n < 32 -> word_ok a ->
  word_ok (fast512.rotr_low n a)
  /\ fast512.val (fast512.rotr_low n a)
     = sha2.rotr 64 (Z.ones 64) (Uint63.to_Z n) (fast512.val a).
Proof.
  intros Hn [Hh Hl]. destruct a as [hi lo]. cbn [fst snd] in *.
  unfold fast512.rotr_low. split; [split; apply limb_ok_m32|].
  unfold fast512.val, sha2.rotr, sha2.trunc. cbn [fst snd].
  rewrite !land_m32, !Uint63.lor_spec', !to_Z_lsr.
  rewrite !to_Z_lsl by (rewrite ?to_Z_sub32; (assumption || lia)).
  rewrite to_Z_sub32 by lia.
  apply limb_ok_land in Hh, Hl. rewrite Hh, Hl.
  apply Z_rotr_low. exact Hn.
Qed.

Lemma fast_rotr_spec (n : int) (a : fast512.word) :
  0 < Uint63.to_Z n < 64 -> Uint63.to_Z n <> 32 -> word_ok a ->
  word_ok (fast512.rotr n a)
  /\ fast512.val (fast512.rotr n a)
     = sha2.rotr 64 (Z.ones 64) (Uint63.to_Z n) (fast512.val a).
Proof.
  intros Hn Hne Ha. unfold fast512.rotr.
  destruct (Uint63.ltbP n 32) as [Hlt|Hge]; change (Uint63.to_Z 32) with 32 in *.
  - apply fast_rotr_low_spec; [lia | exact Ha].
  - assert (Uint63.to_Z (n - 32) = Uint63.to_Z n - 32) as Hs.
    { rewrite Uint63.sub_spec. change (Uint63.to_Z 32) with 32.
      apply Z.mod_small. change wB with 9223372036854775808. lia. }
    destruct Ha as [Hh Hl]. destruct a as [hi lo]. cbn [fst snd] in *.
    unfold fast512.rotr_low. split; [split; apply limb_ok_m32|].
    unfold fast512.val, sha2.rotr, sha2.trunc. cbn [fst snd].
    rewrite !land_m32, !Uint63.lor_spec', !to_Z_lsr.
    rewrite !to_Z_lsl by (rewrite ?to_Z_sub32; (assumption || lia)).
    rewrite to_Z_sub32 by lia. rewrite Hs.
    apply limb_ok_land in Hh, Hl. rewrite Hh, Hl.
    replace (Uint63.to_Z n) with (Uint63.to_Z n - 32 + 32) at 5 6 by lia.
    apply Z_rotr_high. lia.
Qed.

Lemma fast_shr_spec (n : int) (a : fast512.word) :
  0 < Uint63.to_Z n < 32 -> word_ok a ->
  word_ok (fast512.shr n a)
  /\ fast512.val (fast512.shr n a) = Z.shiftr (fast512.val a) (Uint63.to_Z n).
Proof.
  intros Hn [Hh Hl]. destruct a as [hi lo]. cbn [fst snd] in *.
  unfold fast512.shr. split.
  - split; cbn [fst snd]; [|apply limb_ok_m32].
    unfold limb_ok in *. rewrite to_Z_lsr, Z.shiftr_div_pow2 by lia.
    pose proof (Uint63.to_Z_bounded hi).
    assert (Uint63.to_Z hi / 2 ^ Uint63.to_Z n <= Uint63.to_Z hi); [|lia].
    apply Z.div_le_upper_bound; [apply Z.pow_pos_nonneg; lia|].
    pose proof (Z.pow_pos_nonneg 2 (Uint63.to_Z n) ltac:(lia) ltac:(lia)). nia.
  - unfold fast512.val. cbn [fst snd].
    rewrite !land_m32, !Uint63.lor_spec', !to_Z_lsr.
    rewrite !to_Z_lsl by (rewrite ?to_Z_sub32; (assumption || lia)).
    rewrite to_Z_sub32 by lia.
    apply limb_ok_land in Hh, Hl. rewrite Hh, Hl.
    apply Z_shr. exact Hn.
Qed.

(** ** Representation of words, states and lists of words *)


Lemma rep_add (a b : fast512.word) (x y : Z) :
  rep a x -> rep b y -> rep (fast512.add a b) (sha2.trunc (Z.ones 64) (x + y)).
Proof.
  intros [Ha <-] [Hb <-]. destruct (fast_add_spec a b Ha Hb) as [Hok Hv].
  split; [exact Hok|]. unfold sha2.trunc. now rewrite Z.land_ones by lia.
Qed.

Lemma rep_xor (a b : fast512.word) (x y : Z) :
  rep a x -> rep b y -> rep (fast512.xor a b) (Z.lxor x y).
Proof. intros [Ha <-] [Hb <-]. exact (fast_xor_spec a b Ha Hb). Qed.

Lemma rep_and (a b : fast512.word) (x y : Z) :
  rep a x -> rep b y -> rep (fast512.and a b) (Z.land x y).
Proof. intros [Ha <-] [Hb <-]. exact (fast_and_spec a b Ha Hb). Qed.

Lemma rep_not (a : fast512.word) (x : Z) :
  rep a x -> rep (fast512.not a) (Z.lxor x (Z.ones 64)).
Proof. intros [Ha <-]. exact (fast_not_spec a Ha). Qed.

Lemma rep_rotr (n : int) (a : fast512.word) (x : Z) :
  0 < Uint63.to_Z n < 64 -> Uint63.to_Z n <> 32 ->
  rep a x -> rep (fast512.rotr n a) (sha2.rotr 64 (Z.ones 64) (Uint63.to_Z n) x).
Proof. intros Hn Hne [Ha <-]. exact (fast_rotr_spec n a Hn Hne Ha). Qed.

Lemma rep_shr (n : int) (a : fast512.word) (x : Z) :
  0 < Uint63.to_Z n < 32 ->
  rep a x -> rep (fast512.shr n a) (Z.shiftr x (Uint63.to_Z n)).
Proof. intros Hn [Ha <-]. exact (fast_shr_spec n a Hn Ha). Qed.

Lemma rep_zero : rep fast512.zero 0.
Proof. split; [split; vm_compute; reflexivity | reflexivity]. Qed.

Lemma trunc_add_l (x y : Z) :
  sha2.trunc (Z.ones 64) (sha2.trunc (Z.ones 64) x + y) = sha2.trunc (Z.ones 64) (x + y).
Proof.
  unfold sha2.trunc. rewrite !Z.land_ones by lia. apply Zplus_mod_idemp_l.
Qed.

Lemma trunc_add_r (x y : Z) :
  sha2.trunc (Z.ones 64) (x + sha2.trunc (Z.ones 64) y) = sha2.trunc (Z.ones 64) (x + y).
Proof.
  unfold sha2.trunc. rewrite !Z.land_ones by lia. apply Zplus_mod_idemp_r.
Qed.

Ltac rep_step :=
  first
    [ eassumption
    | apply rep_xor | apply rep_and | apply rep_not | apply rep_add
    | apply rep_rotr; [vm_compute; intuition discriminate
                      | vm_compute; discriminate |]
    | apply rep_shr; [vm_compute; intuition discriminate |] ].

Lemma rep_Ch (x y z : fast512.word) (X Y Z0 : Z) :
  rep x X -> rep y Y -> rep z Z0 ->
  rep (fast512.Ch x y z) (sha2.Ch (Z.ones 64) X Y Z0).
Proof. intros. unfold fast512.Ch, sha2.Ch. repeat rep_step. Qed.

Lemma rep_Maj (x y z : fast512.word) (X Y Z0 : Z) :
  rep x X -> rep y Y -> rep z Z0 ->
  rep (fast512.Maj x y z) (sha2.Maj X Y Z0).
Proof. intros. unfold fast512.Maj, sha2.Maj. repeat rep_step. Qed.

Lemma rep_Sigma0 (x : fast512.word) (X : Z) :
  rep x X -> rep (fast512.Sigma0 x) (sha2.Sigma0 64 (Z.ones 64) 28 34 39 X).
Proof.
  intros. unfold fast512.Sigma0, sha2.Sigma0.
  change 28 with (Uint63.to_Z 28). change 34 with (Uint63.to_Z 34).
  change 39 with (Uint63.to_Z 39). repeat rep_step.
Qed.

Lemma rep_Sigma1 (x : fast512.word) (X : Z) :
  rep x X -> rep (fast512.Sigma1 x) (sha2.Sigma1 64 (Z.ones 64) 14 18 41 X).
Proof.
  intros. unfold fast512.Sigma1, sha2.Sigma1.
  change 14 with (Uint63.to_Z 14). change 18 with (Uint63.to_Z 18).
  change 41 with (Uint63.to_Z 41). repeat rep_step.
Qed.

Lemma rep_sigma0 (x : fast512.word) (X : Z) :
  rep x X -> rep (fast512.sigma0 x) (sha2.sigma0 64 (Z.ones 64) 1 8 7 X).
Proof.
  intros. unfold fast512.sigma0, sha2.sigma0.
  change 1 with (Uint63.to_Z 1). change 8 with (Uint63.to_Z 8).
  change 7 with (Uint63.to_Z 7). repeat rep_step.
Qed.

Lemma rep_sigma1 (x : fast512.word) (X : Z) :
  rep x X -> rep (fast512.sigma1 x) (sha2.sigma1 64 (Z.ones 64) 19 61 6 X).
Proof.
  intros. unfold fast512.sigma1, sha2.sigma1.
  change 19 with (Uint63.to_Z 19). change 61 with (Uint63.to_Z 61).
  change 6 with (Uint63.to_Z 6). repeat rep_step.
Qed.

Lemma rep_nth (i : nat) (w : list fast512.word) (W : list Z) :
  Forall2 rep w W -> rep (nth i w fast512.zero) (nth i W 0).
Proof.
  intros H. revert i. induction H as [|a x w W Ha _ IH]; intros [|i]; cbn [nth];
    auto using rep_zero.
Qed.

Lemma rep_next_word (w : list fast512.word) (W : list Z) :
  Forall2 rep w W ->
  rep (fast512.next_word w) (sha2.next_word 64 (Z.ones 64) 1 8 7 19 61 6 W).
Proof.
  intros H. unfold fast512.next_word, sha2.next_word.
  rewrite <- (trunc_add_l (_ + _)), <- (trunc_add_l (_ + _)).
  repeat (apply rep_add); auto using rep_nth, rep_sigma0, rep_sigma1.
Qed.

Lemma rep_schedule (n : nat) (w : list fast512.word) (W : list Z) :
  Forall2 rep w W ->
  Forall2 rep (fast512.schedule n w)
    (sha2.schedule 64 (Z.ones 64) 1 8 7 19 61 6 n W).
Proof.
  revert w W. induction n as [|n IH]; intros w W H; [constructor|].
  cbn [fast512.schedule sha2.schedule]. constructor.
  - now apply rep_next_word.
  - apply IH. apply Forall2_app.
    + destruct H; [constructor | assumption].
    + constructor; [now apply rep_next_word | constructor].
Qed.

Lemma rep_eq (a : fast512.word) (x y : Z) : rep a x -> x = y -> rep a y.
Proof. now intros H <-. Qed.

Lemma rep_round (s : fast512.state) (S : sha2.state) (k w : fast512.word) (K W : Z) :
  rep_state s S -> rep k K -> rep w W ->
  rep_state (fast512.round s (k, w))
    (sha2.round 64 (Z.ones 64) 28 34 39 14 18 41 S (K, W)).
Proof.
  destruct s as [[[[[[[a b] c] d] e] f] g] h].
  destruct S as [[[[[[[a' b'] c'] d'] e'] f'] g'] h'].
  intros (Ha & Hb & Hc & Hd & He & Hf & Hg & Hh) Hk Hw.
  unfold fast512.round, sha2.round. cbv zeta. cbn [fst snd].
  set (T1 := h' + sha2.Sigma1 64 (Z.ones 64) 14 18 41 e'
             + sha2.Ch (Z.ones 64) e' f' g' + K + W).
  set (T2 := sha2.Sigma0 64 (Z.ones 64) 28 34 39 a' + sha2.Maj a' b' c').
  assert (rep (fast512.add (fast512.add (fast512.add (fast512.add h (fast512.Sigma1 e))
                 (fast512.Ch e f g)) k) w)
            (sha2.trunc (Z.ones 64) T1)) as Ht1.
  { unfold T1.
    rewrite <- (trunc_add_l (_ + _)), <- (trunc_add_l (_ + _)), <- (trunc_add_l (_ + _)).
    repeat (apply rep_add); auto using rep_Sigma1, rep_Ch. }
  assert (rep (fast512.add (fast512.Sigma0 a) (fast512.Maj a b c))
            (sha2.trunc (Z.ones 64) T2)) as Ht2.
  { unfold T2. apply rep_add; auto using rep_Sigma0, rep_Maj. }
  unfold rep_state.
  refine (conj _ (conj Ha (conj Hb (conj Hc (conj _ (conj He (conj Hf Hg))))))).
  - apply (rep_eq _ _ _ (rep_add _ _ _ _ Ht1 Ht2)).
    now rewrite trunc_add_l, trunc_add_r.
  - apply (rep_eq _ _ _ (rep_add _ _ _ _ Hd Ht1)).
    now rewrite trunc_add_r.
Qed.

Lemma rep_fold (ks : list fast512.word) (Ks : list Z) :
  Forall2 rep ks Ks ->
  forall (ws : list fast512.word) (Ws : list Z) (s : fast512.state) (S : sha2.state),
    Forall2 rep ws Ws -> rep_state s S ->
    rep_state (fold_left fast512.round (combine ks ws) s)
      (fold_left (sha2.round 64 (Z.ones 64) 28 34 39 14 18 41) (combine Ks Ws) S).
Proof.
  induction 1 as [|k K ks Ks Hk _ IH]; intros ws Ws s S Hw Hs; [exact Hs|].
  destruct Hw as [|w W ws Ws Hw Hws]; [exact Hs|].
  cbn [combine fold_left]. apply IH; [exact Hws|]. now apply rep_round.
Qed.

Lemma rep_add_state (s t : fast512.state) (S T : sha2.state) :
  rep_state s S -> rep_state t T ->
  rep_state (fast512.add_state s t) (sha2.add_state (Z.ones 64) S T).
Proof.
  destruct s as [[[[[[[a b] c] d] e] f] g] h].
  destruct S as [[[[[[[a' b'] c'] d'] e'] f'] g'] h'].
  destruct t as [[[[[[[a1 b1] c1] d1] e1] f1] g1] h1].
  destruct T as [[[[[[[a1' b1'] c1'] d1'] e1'] f1'] g1'] h1'].
  intros (Ha & Hb & Hc & Hd & He & Hf & Hg & Hh)
         (Ia & Ib & Ic & Id & Ie & If' & Ig & Ih).
  unfold fast512.add_state, sha2.add_state, rep_state.
  refine (conj _ (conj _ (conj _ (conj _ (conj _ (conj _ (conj _ _)))))));
    apply rep_add; assumption.
Qed.

Lemma rep_K : Forall2 rep fast512.K sha512.K.
Proof.
  unfold fast512.K, sha512.K.
  repeat (constructor;
          [split; [split; vm_compute; reflexivity | vm_compute; reflexivity]|]).
  constructor.
Qed.

Lemma rep_H0 : rep_state fast512.H0 sha512.H0.
Proof.
  unfold fast512.H0, sha512.H0, rep_state.
  refine (conj _ (conj _ (conj _ (conj _ (conj _ (conj _ (conj _ _)))))));
    (split; [split; vm_compute; reflexivity | vm_compute; reflexivity]).
Qed.

(** ** Bytes and limbs *)

Lemma to_Z_int_of_byte (b : byte) :
  Uint63.to_Z (fast512.int_of_byte b) = byte_to_Z b.
Proof.
  unfold fast512.int_of_byte. rewrite Uint63.of_Z_spec.
  pose proof (byte_to_Z_range b). apply Z.mod_small.
  change wB with 9223372036854775808. lia.
Qed.

Lemma limb_step (x : int) (b : byte) :
  Uint63.to_Z x < 2 ^ 24 ->
  Uint63.to_Z (Uint63.lor (Uint63.lsl x 8) (fast512.int_of_byte b))
  = Uint63.to_Z x * 256 + byte_to_Z b.
Proof.
  intros Hx. pose proof (Uint63.to_Z_bounded x). pose proof (byte_to_Z_range b).
  rewrite Uint63.lor_spec', Uint63.lsl_spec, to_Z_int_of_byte.
  change (Uint63.to_Z 8) with 8.
  rewrite Z.mod_small by (change wB with 9223372036854775808; lia).
  rewrite <- Z.shiftl_mul_pow2 by lia.
  rewrite lor_shiftl_add by lia. reflexivity.
Qed.

Lemma fast_limb_spec (b0 b1 b2 b3 : byte) :
  Uint63.to_Z (fast512.limb b0 b1 b2 b3) = be_Z [b0; b1; b2; b3].
Proof.
  unfold fast512.limb.
  pose proof (byte_to_Z_range b0). pose proof (byte_to_Z_range b1).
  pose proof (byte_to_Z_range b2). pose proof (byte_to_Z_range b3).
  assert (Uint63.to_Z (Uint63.lor (Uint63.lsl (fast512.int_of_byte b0) 8)
                         (fast512.int_of_byte b1))
          = byte_to_Z b0 * 256 + byte_to_Z b1) as E1
    by (rewrite limb_step, to_Z_int_of_byte; [reflexivity|];
        rewrite to_Z_int_of_byte; lia).
  rewrite limb_step; rewrite limb_step; rewrite ?E1; try lia.
  unfold be_Z. cbn [fold_left]. lia.
Qed.

Lemma rep_limbs (b0 b1 b2 b3 b4 b5 b6 b7 : byte) :
  rep (fast512.limb b0 b1 b2 b3, fast512.limb b4 b5 b6 b7)
      (be_Z [b0; b1; b2; b3; b4; b5; b6; b7]).
Proof.
  assert (word_ok (fast512.limb b0 b1 b2 b3, fast512.limb b4 b5 b6 b7)) as Hok.
  { split; unfold limb_ok; cbn [fst snd]; rewrite fast_limb_spec;
      match goal with |- be_Z ?l < _ => pose proof (be_Z_range l) as R end;
      cbn [length] in R; change (256 ^ Z.of_nat 4) with (2 ^ 32) in R; lia. }
  split; [exact Hok|]. rewrite val_arith by exact Hok. cbn [fst snd].
  rewrite !fast_limb_spec. unfold be_Z. cbn [fold_left]. lia.
Qed.

Lemma rep_words (n : nat) (l : list byte) :
  (8 * n <= length l)%nat ->
  Forall2 rep (fast512.words n l) (sha2.words 8 n l).
Proof.
  revert l. induction n as [|n IH]; intros l Hl; [constructor|].
  do 8 (destruct l as [|? l]; [cbn [length] in Hl; lia|]).
  cbn [fast512.words sha2.words firstn skipn]. constructor.
  - apply rep_limbs.
  - apply IH. cbn [length] in Hl. lia.
Qed.

Lemma rep_compress (s : fast512.state) (S : sha2.state) (block : list byte) :
  rep_state s S -> (128 <= length block)%nat ->
  rep_state (fast512.compress s block)
    (sha2.compress 64 (Z.ones 64) 8 28 34 39 14 18 41 1 8 7 19 61 6 sha512.K S block).
Proof.
  intros Hs Hb. unfold fast512.compress, sha2.compress. cbv zeta.
  change (length sha512.K - 16)%nat with 64%nat.
  assert (Forall2 rep (fast512.words 16 block) (sha2.words 8 16 block)) as Hw
    by (apply rep_words; lia).
  apply rep_add_state; [exact Hs|].
  apply rep_fold; [exact rep_K | | exact Hs].
  apply Forall2_app; [exact Hw | now apply rep_schedule].
Qed.

Lemma rep_blocks (n : nat) (s : fast512.state) (S : sha2.state) (l : list byte) :
  rep_state s S -> (128 * n <= length l)%nat ->
  rep_state (fast512.blocks n s l)
    (sha2.blocks 64 (Z.ones 64) 8 28 34 39 14 18 41 1 8 7 19 61 6 sha512.K n S l).
Proof.
  revert s S l. induction n as [|n IH]; intros s S l Hs Hl; [exact Hs|].
  cbn [fast512.blocks sha2.blocks]. change (sha2.blockSize 8) with 128%nat.
  apply IH.
  - apply rep_compress; [exact Hs|]. rewrite length_firstn. lia.
  - rewrite length_skipn. lia.
Qed.

(** ** Digest bytes *)

Lemma of_bits_testbit (b : byte) :
  Byte.of_bits
    (Z.testbit (byte_to_Z b) 0, (Z.testbit (byte_to_Z b) 1,
    (Z.testbit (byte_to_Z b) 2, (Z.testbit (byte_to_Z b) 3,
    (Z.testbit (byte_to_Z b) 4, (Z.testbit (byte_to_Z b) 5,
    (Z.testbit (byte_to_Z b) 6, Z.testbit (byte_to_Z b) 7))))))) = b.
Proof. destruct b; reflexivity. Qed.

Lemma testbit_byte_of_Z (z i : Z) :
  0 <= i < 8 -> Z.testbit (byte_to_Z (byte_of_Z z)) i = Z.testbit z i.
Proof.
  intros Hi. rewrite byte_to_of_Z. change 256 with (2 ^ 8).
  apply Z.mod_pow2_bits_low. lia.
Qed.

Lemma fast_byte_of_int_spec (x : int) :
  fast512.byte_of_int x = byte_of_Z (Uint63.to_Z x).
Proof.
  unfold fast512.byte_of_int. rewrite !Uint63.bitE.
  change (Uint63.to_Z 0) with 0. change (Uint63.to_Z 1) with 1.
  change (Uint63.to_Z 2) with 2. change (Uint63.to_Z 3) with 3.
  change (Uint63.to_Z 4) with 4. change (Uint63.to_Z 5) with 5.
  change (Uint63.to_Z 6) with 6. change (Uint63.to_Z 7) with 7.
  rewrite <- (of_bits_testbit (byte_of_Z (Uint63.to_Z x))).
  rewrite !testbit_byte_of_Z by lia. reflexivity.
Qed.

Lemma byte_of_Z_low (z z' : Z) :
  Z.land z (Z.ones 8) = Z.land z' (Z.ones 8) -> byte_of_Z z = byte_of_Z z'.
Proof.
  intros H. unfold byte_of_Z. change 255 with (Z.ones 8). now rewrite H.
Qed.

Lemma fast_word_bytes_spec (w : fast512.word) (rest : list byte) :
  word_ok w -> fast512.word_bytes w rest = be_bytes 8 (fast512.val w) ++ rest.
Proof.
  intros [Hh Hl]. destruct w as [hi lo]. cbn [fst snd] in *.
  unfold fast512.word_bytes, fast512.limb_bytes, fast512.val. cbn [fst snd].
  rewrite !fast_byte_of_int_spec, !to_Z_lsr.
  change (Uint63.to_Z 24) with 24. change (Uint63.to_Z 16) with 16.
  change (Uint63.to_Z 8) with 8.
  apply limb_ok_land in Hh, Hl. rewrite Hh, Hl.
  set (h := Z.land (Uint63.to_Z hi) (Z.ones 32)).
  set (l := Z.land (Uint63.to_Z lo) (Z.ones 32)).
  cbn [be_bytes app Z.of_nat Pos.of_succ_nat Pos.succ Z.mul Pos.mul Pos.add].
  repeat (f_equal; [apply byte_of_Z_low; unfold h, l; blast_bits|]).
  f_equal. apply byte_of_Z_low. unfold h, l. blast_bits.
Qed.

Lemma fast_digest_spec (s : fast512.state) (S : sha2.state) :
  rep_state s S -> fast512.digest s = sha2.digest 8 S.
Proof.
  destruct s as [[[[[[[a b] c] d] e] f] g] h].
  destruct S as [[[[[[[a' b'] c'] d'] e'] f'] g'] h'].
  intros ([Ha <-] & [Hb <-] & [Hc <-] & [Hd <-]
          & [He <-] & [Hf <-] & [Hg <-] & [Hh <-]).
  unfold fast512.digest, sha2.digest.
  rewrite !fast_word_bytes_spec by assumption. now rewrite app_nil_r.
Qed.

(** The limb implementation computes SHA-512. *)
Lemma fast_Sum512 (msg : list byte) : fast512.Sum512 msg = sha512.Sum512 msg.
Proof.
  unfold fast512.Sum512, sha512.Sum512, sha2.hash. cbv zeta.
  change (sha2.blockSize 8) with 128%nat.
  apply fast_digest_spec.
  apply (rep_blocks _ _ _ _ rep_H0).
  apply Nat.Div0.mul_div_le.
Qed.

(** ** HMAC and PBKDF2 do not depend on how the hash is computed *)

Lemma hmac_ext (blockSize : nat) (H1 H2 : list byte -> list byte)
  (key msg : list byte) :
  (forall m, H1 m = H2 m) ->
  hmac.Sum blockSize H1 key msg = hmac.Sum blockSize H2 key msg.
Proof.
  intros E. unfold hmac.Sum, hmac.prepare. now rewrite !E.
Qed.

Lemma stretch_ext (prf1 prf2 : list byte -> list byte -> list byte)
  (password : list byte) (n : nat) (U T : list byte) :
  (forall k m, prf1 k m = prf2 k m) ->
  pbkdf2.stretch prf1 password n U T = pbkdf2.stretch prf2 password n U T.
Proof.
  intros E. revert U T. induction n as [|n IH]; intros U T; [reflexivity|].
  cbn [pbkdf2.stretch]. now rewrite E, IH.
Qed.

Lemma Key_ext (hashLen : nat) (prf1 prf2 : list byte -> list byte -> list byte)
  (password salt : list byte) (iter keyLen : nat) :
  (forall k m, prf1 k m = prf2 k m) ->
  pbkdf2.Key hashLen prf1 password salt iter keyLen
  = pbkdf2.Key hashLen prf2 password salt iter keyLen.
Proof.
  intros E. unfold pbkdf2.Key. cbv zeta. f_equal.
  rewrite !flat_map_concat_map. f_equal. apply map_ext. intros i.
  unfold pbkdf2.block. now rewrite E, (stretch_ext prf1 prf2 _ _ _ _ E).
Qed.


Lemma Key_fast (password salt : list byte) (iter keyLen : nat) :
  pbkdf2.Key sha512.Size hmac_sha512 password salt iter keyLen
  = pbkdf2.Key sha512.Size hmac_fast password salt iter keyLen.
Proof.
  apply Key_ext. intros k m. unfold hmac_sha512, hmac_fast.
  apply hmac_ext. intros x. symmetry. apply fast_Sum512.
Qed.

(** ** The known vector

    The 2048 iterations are evaluated in eight runs of the loop, from one
    loop state to the next. *)

Lemma stretch_state_snd (prf : list byte -> list byte -> list byte)
  (password : list byte) (n : nat) (U T : list byte) :
  pbkdf2.stretch prf password n U T = snd (stretch_state prf password n (U, T)).
Proof.
  revert U T. induction n as [|n IH]; intros U T; [reflexivity|].
  cbn [pbkdf2.stretch stretch_state fst snd]. apply IH.
Qed.

Lemma stretch_state_add (prf : list byte -> list byte -> list byte)
  (password : list byte) (n m : nat) (s : list byte * list byte) :
  stretch_state prf password (n + m) s
  = stretch_state prf password m (stretch_state prf password n s).
Proof.
  revert s. induction n as [|n IH]; intros s; [reflexivity|].
  cbn [Nat.add stretch_state]. apply IH.
Qed.

Lemma seed12_first :
  hmac_fast (bytes_of_string (Mnemonic_String sentence12))
    (bytes_of_string "mnemonic" ++ be_bytes 4 (Z.of_nat 1))
  = [x64; xd8; x27; x9a; x38; x94; xfe; xd8; xd8; x84; x7f; x5c; x3c; x9a; x42; x67;
      x8d; xc8; x46; x25; x3f; xcd; xa3; x31; x57; xdf; x5c; x14; x8a; xb9; xdf; x4a;
      xc3; xc9; x07; x9d; x36; x4e; x2a; x6f; x9d; x24; xb2; x4c; x3a; xe8; x58; xcd;
      xb0; xcf; xb5; x46; xe0; x19; x86; xce; xe1; x09; x67; xf2; x47; x3a; x2b; x37].
Proof. vm_compute. reflexivity. Qed.

Lemma seed12_run1 :
  stretch_state hmac_fast (bytes_of_string (Mnemonic_String sentence12)) 256
    ([x64; xd8; x27; x9a; x38; x94; xfe; xd8; xd8; x84; x7f; x5c; x3c; x9a; x42; x67;
      x8d; xc8; x46; x25; x3f; xcd; xa3; x31; x57; xdf; x5c; x14; x8a; xb9; xdf; x4a;
      xc3; xc9; x07; x9d; x36; x4e; x2a; x6f; x9d; x24; xb2; x4c; x3a; xe8; x58; xcd;
      xb0; xcf; xb5; x46; xe0; x19; x86; xce; xe1; x09; x67; xf2; x47; x3a; x2b; x37],
     [x64; xd8; x27; x9a; x38; x94; xfe; xd8; xd8; x84; x7f; x5c; x3c; x9a; x42; x67;
      x8d; xc8; x46; x25; x3f; xcd; xa3; x31; x57; xdf; x5c; x14; x8a; xb9; xdf; x4a;
      xc3; xc9; x07; x9d; x36; x4e; x2a; x6f; x9d; x24; xb2; x4c; x3a; xe8; x58; xcd;
      xb0; xcf; xb5; x46; xe0; x19; x86; xce; xe1; x09; x67; xf2; x47; x3a; x2b; x37])
  = ([xe5; xee; x0e; x82; xfa; x5a; x82; xe7; x6f; xeb; x5b; xf7; x55; xfe; x05; x00;
      x0e; xaf; xbe; xc9; xf2; xdd; x46; x23; x87; xa4; xa0; xd9; x0b; x52; x19; xa3;
      x56; x78; x4e; x32; x51; x76; x88; x08; x9a; xe3; xd0; x95; xe3; xe3; x07; xf0;
      xa9; xf5; xfd; xc8; x3e; xb6; xa6; xb0; xbc; xb9; x8a; x1b; xa5; x7b; x09; x32],
     [x95; x07; x15; xb0; xaa; x6b; x9f; xef; x2a; x5c; x32; xbe; xe9; xdd; x27; x99;
      x2a; x1b; x23; x3f; x3d; x93; xe3; x9e; xc8; xf7; x81; x1b; x2a; x96; x27; x6f;
      x69; xcf; x04; xf6; x6b; x80; xf4; x9b; x51; x7a; xdf; xa8; xac; x00; xea; x48;
      x5b; x46; x45; x16; xb8; x17; xbd; x33; x23; x92; x46; xdf; x69; x38; xf2; xff]).
Proof. vm_compute. reflexivity. Qed.

Lemma seed12_run2 :
  stretch_state hmac_fast (bytes_of_string (Mnemonic_String sentence12)) 256
    ([xe5; xee; x0e; x82; xfa; x5a; x82; xe7; x6f; xeb; x5b; xf7; x55; xfe; x05; x00;
      x0e; xaf; xbe; xc9; xf2; xdd; x46; x23; x87; xa4; xa0; xd9; x0b; x52; x19; xa3;
      x56; x78; x4e; x32; x51; x76; x88; x08; x9a; xe3; xd0; x95; xe3; xe3; x07; xf0;
      xa9; xf5; xfd; xc8; x3e; xb6; xa6; xb0; xbc; xb9; x8a; x1b; xa5; x7b; x09; x32],
     [x95; x07; x15; xb0; xaa; x6b; x9f; xef; x2a; x5c; x32; xbe; xe9; xdd; x27; x99;
      x2a; x1b; x23; x3f; x3d; x93; xe3; x9e; xc8; xf7; x81; x1b; x2a; x96; x27; x6f;
      x69; xcf; x04; xf6; x6b; x80; xf4; x9b; x51; x7a; xdf; xa8; xac; x00; xea; x48;
      x5b; x46; x45; x16; xb8; x17; xbd; x33; x23; x92; x46; xdf; x69; x38; xf2; xff])
  = ([xb7; x79; xd2; x8b; x87; xb3; x29; x36; x36; x84; x73; x81; x85; x8b; xf0; x8f;
      x7e; x44; xe5; x09; xd3; x4e; xeb; xaa; x75; xfd; x48; x47; x5c; x07; xb2; xde;
      xb2; x33; x7c; x49; xb1; xb9; x73; xc1; x38; x03; x28; xaf; x7e; x67; x20; x0e;
      xd8; xb4; x3b; x7f; x6d; xbb; x5f; x61; x73; x01; x39; x1d; xec; xe5; x77; x35],
     [x50; x9a; x8b; xd0; xb4; x28; xd8; xdf; x77; x93; x2a; xf2; xfb; x3c; xf3; x5b;
      xc4; xcd; x5b; xd3; xc8; x17; x90; xc7; xc1; xe4; x0b; x82; x26; x3b; xfd; x37;
      xef; x7d; x1f; x8e; xe1; x01; xf2; xeb; xe5; xaf; x33; x67; x71; x16; xa5; xf9;
      x2f; x4c; xb2; x8a; xb1; xb7; xa3; xc1; xff; xb6; x53; xf6; xc8; x18; x74; x5e]).
Proof. vm_compute. reflexivity. Qed.

Lemma seed12_run3 :
  stretch_state hmac_fast (bytes_of_string (Mnemonic_String sentence12)) 256
    ([xb7; x79; xd2; x8b; x87; xb3; x29; x36; x36; x84; x73; x81; x85; x8b; xf0; x8f;
      x7e; x44; xe5; x09; xd3; x4e; xeb; xaa; x75; xfd; x48; x47; x5c; x07; xb2; xde;
      xb2; x33; x7c; x49; xb1; xb9; x73; xc1; x38; x03; x28; xaf; x7e; x67; x20; x0e;
      xd8; xb4; x3b; x7f; x6d; xbb; x5f; x61; x73; x01; x39; x1d; xec; xe5; x77; x35],
     [x50; x9a; x8b; xd0; xb4; x28; xd8; xdf; x77; x93; x2a; xf2; xfb; x3c; xf3; x5b;
      xc4; xcd; x5b; xd3; xc8; x17; x90; xc7; xc1; xe4; x0b; x82; x26; x3b; xfd; x37;
      xef; x7d; x1f; x8e; xe1; x01; xf2; xeb; xe5; xaf; x33; x67; x71; x16; xa5; xf9;
      x2f; x4c; xb2; x8a; xb1; xb7; xa3; xc1; xff; xb6; x53; xf6; xc8; x18; x74; x5e])
  = ([xf7; x5e; x93; x2d; xed; xb8; xab; x88; x32; xe8; x74; xf1; x18; xba; x5e; x85;
      xa4; xa0; x22; x76; xc3; xa0; x1c; xf5; xf1; x9c; x74; x94; xbe; x52; x0f; x6f;
      xa7; x40; x85; xc5; x51; xb6; x76; xc4; x7e; xcc; xe0; xb9; x66; xc5; x14; x65;
      x57; x68; x94; x7a; x7b; xfa; x4a; xe1; xd9; xbf; x5e; xc1; x1e; x2d; x08; x6c],
     [x7b; xe6; xd5; x8e; x08; x10; x71; xe6; x80; x02; x06; x4b; x7c; xf0; x5f; xe2;
      x66; xba; x94; xd3; xc0; xea; x37; x5e; x90; x32; xe8; x2c; x5e; xbe; xd1; x73;
      x8c; xb5; xdc; x3e; x3c; x19; x99; xaf; xa6; x8e; x37; x38; x43; xd3; x1d; x93;
      x50; x25; xc2; xbc; xea; x7f; x87; xd1; x31; xfe; x51; xe7; xc2; xc5; xd8; xe2]).
Proof. vm_compute. reflexivity. Qed.

Lemma seed12_run4 :
  stretch_state hmac_fast (bytes_of_string (Mnemonic_String sentence12)) 256
    ([xf7; x5e; x93; x2d; xed; xb8; xab; x88; x32; xe8; x74; xf1; x18; xba; x5e; x85;
      xa4; xa0; x22; x76; xc3; xa0; x1c; xf5; xf1; x9c; x74; x94; xbe; x52; x0f; x6f;
      xa7; x40; x85; xc5; x51; xb6; x76; xc4; x7e; xcc; xe0; xb9; x66; xc5; x14; x65;
      x57; x68; x94; x7a; x7b; xfa; x4a; xe1; xd9; xbf; x5e; xc1; x1e; x2d; x08; x6c],
     [x7b; xe6; xd5; x8e; x08; x10; x71; xe6; x80; x02; x06; x4b; x7c; xf0; x5f; xe2;
      x66; xba; x94; xd3; xc0; xea; x37; x5e; x90; x32; xe8; x2c; x5e; xbe; xd1; x73;
      x8c; xb5; xdc; x3e; x3c; x19; x99; xaf; xa6; x8e; x37; x38; x43; xd3; x1d; x93;
      x50; x25; xc2; xbc; xea; x7f; x87; xd1; x31; xfe; x51; xe7; xc2; xc5; xd8; xe2])
  = ([xce; x29; x3a; x54; x49; x07; x0e; x1c; x89; xa7; x73; xb3; x5f; x5d; xd1; xcb;
      x02; x4b; x55; x7d; xc2; x01; x97; xaa; x5f; xcf; x1a; xf5; x55; xf6; xba; xf8;
      xe4; x70; xd2; xc7; x27; xc2; xb4; x18; x6d; x86; x52; xc3; x84; xdc; x6c; xa5;
      x1d; x8e; x70; xad; x02; x31; x6b; x10; x25; x98; x6d; x82; xb2; x6b; x97; x19],
     [xeb; x48; x2d; xc5; xb4; x48; x53; xf8; x5f; x2a; xae; x1d; xf2; xc0; x6e; xce;
      x0f; x2f; x49; x3a; x85; x26; x95; xee; x30; x6d; x06; xc3; x25; xfa; x80; x62;
      x44; xa4; xbc; x27; xd8; xa0; x33; x56; x04; x2a; x9c; xb5; xd9; x6d; x02; xf2;
      xef; x52; xbc; x0e; x06; xe1; xb5; xb3; x94; xd2; x79; x7b; x0c; xb7; x8b; xc1]).
Proof. vm_compute. reflexivity. Qed.

Lemma seed12_run5 :
  stretch_state hmac_fast (bytes_of_string (Mnemonic_String sentence12)) 256
    ([xce; x29; x3a; x54; x49; x07; x0e; x1c; x89; xa7; x73; xb3; x5f; x5d; xd1; xcb;
      x02; x4b; x55; x7d; xc2; x01; x97; xaa; x5f; xcf; x1a; xf5; x55; xf6; xba; xf8;
      xe4; x70; xd2; xc7; x27; xc2; xb4; x18; x6d; x86; x52; xc3; x84; xdc; x6c; xa5;
      x1d; x8e; x70; xad; x02; x31; x6b; x10; x25; x98; x6d; x82; xb2; x6b; x97; x19],
     [xeb; x48; x2d; xc5; xb4; x48; x53; xf8; x5f; x2a; xae; x1d; xf2; xc0; x6e; xce;
      x0f; x2f; x49; x3a; x85; x26; x95; xee; x30; x6d; x06; xc3; x25; xfa; x80; x62;
      x44; xa4; xbc; x27; xd8; xa0; x33; x56; x04; x2a; x9c; xb5; xd9; x6d; x02; xf2;
      xef; x52; xbc; x0e; x06; xe1; xb5; xb3; x94; xd2; x79; x7b; x0c; xb7; x8b; xc1])
  = ([x30; xf2; xeb; x51; x07; xdd; x4e; xa1; x8b; xe3; x73; xe9; x88; x5f; xb4; xbc;
      x79; x6d; xf7; xbc; xf4; x75; x8d; x85; xd9; x8c; xaf; x04; xc1; x56; x12; x0d;
      x4b; xc9; x99; x5e; x8e; x3e; x9f; x71; x03; xce; x22; xcd; xf9; x2c; x4e; x51;
      x42; x76; xea; x04; xca; xb0; x16; x87; xa1; xf7; x3d; xf2; xf5; x57; x16; xad],
     [xb3; x26; x57; xde; x43; xb6; x78; xc5; x8a; xab; xa1; x8e; x4a; xdc; xb8; x20;
      x13; xa1; x1f; xfb; x46; xe3; xad; xe5; xd8; x38; x6a; xd9; xe8; xe5; x61; xe3;
      x1f; xcb; x8d; x3c; x99; x98; x25; x77; x55; x1a; x46; xf4; x98; x6c; x95; x4c;
      xbd; x83; xab; xee; xcc; xa5; x75; x1f; xce; x94; xd6; x0c; xcf; x61; xc8; x25]).
Proof. vm_compute. reflexivity. Qed.

Lemma seed12_run6 :
  stretch_state hmac_fast (bytes_of_string (Mnemonic_String sentence12)) 256
    ([x30; xf2; xeb; x51; x07; xdd; x4e; xa1; x8b; xe3; x73; xe9; x88; x5f; xb4; xbc;
      x79; x6d; xf7; xbc; xf4; x75; x8d; x85; xd9; x8c; xaf; x04; xc1; x56; x12; x0d;
      x4b; xc9; x99; x5e; x8e; x3e; x9f; x71; x03; xce; x22; xcd; xf9; x2c; x4e; x51;
      x42; x76; xea; x04; xca; xb0; x16; x87; xa1; xf7; x3d; xf2; xf5; x57; x16; xad],
     [xb3; x26; x57; xde; x43; xb6; x78; xc5; x8a; xab; xa1; x8e; x4a; xdc; xb8; x20;
      x13; xa1; x1f; xfb; x46; xe3; xad; xe5; xd8; x38; x6a; xd9; xe8; xe5; x61; xe3;
      x1f; xcb; x8d; x3c; x99; x98; x25; x77; x55; x1a; x46; xf4; x98; x6c; x95; x4c;
      xbd; x83; xab; xee; xcc; xa5; x75; x1f; xce; x94; xd6; x0c; xcf; x61; xc8; x25])
  = ([x72; x9c; x0b; x08; xd5; xaa; xd2; xbb; x01; x20; x78; xc8; x13; xb4; xb3; x17;
      x2e; x68; x0c; xa1; x9d; x0b; x41; x83; x62; x7e; xfc; x0f; xff; x2f; xa3; xec;
      xa2; xcb; xa7; x1a; x3d; xe2; x15; x65; x09; xbd; x32; xfb; x2d; xd1; x1f; xaa;
      x3a; x9c; x95; x4b; x8d; x06; x52; x9e; x96; xda; x77; xcc; xb5; xdf; xc7; x64],
     [xa3; xb8; xc9; x9a; xab; xc4; x5a; x8d; x89; x6b; x02; x2d; x51; xfc; xa2; x75;
      xeb; xe3; x56; x09; x81; x73; x35; xc8; xb1; x9e; x5d; x2e; xa4; x3b; x1a; xc6;
      x18; x3c; xb0; x9a; x4b; xf4; xc6; x90; xd4; x2c; x08; x49; x80; x47; xd0; x33;
      xc6; xa7; x10; x3d; x00; x5a; xea; x4c; xeb; xef; x43; xe4; x9d; x42; x0d; xe0]).
Proof. vm_compute. reflexivity. Qed.

Lemma seed12_run7 :
  stretch_state hmac_fast (bytes_of_string (Mnemonic_String sentence12)) 256
    ([x72; x9c; x0b; x08; xd5; xaa; xd2; xbb; x01; x20; x78; xc8; x13; xb4; xb3; x17;
      x2e; x68; x0c; xa1; x9d; x0b; x41; x83; x62; x7e; xfc; x0f; xff; x2f; xa3; xec;
      xa2; xcb; xa7; x1a; x3d; xe2; x15; x65; x09; xbd; x32; xfb; x2d; xd1; x1f; xaa;
      x3a; x9c; x95; x4b; x8d; x06; x52; x9e; x96; xda; x77; xcc; xb5; xdf; xc7; x64],
     [xa3; xb8; xc9; x9a; xab; xc4; x5a; x8d; x89; x6b; x02; x2d; x51; xfc; xa2; x75;
      xeb; xe3; x56; x09; x81; x73; x35; xc8; xb1; x9e; x5d; x2e; xa4; x3b; x1a; xc6;
      x18; x3c; xb0; x9a; x4b; xf4; xc6; x90; xd4; x2c; x08; x49; x80; x47; xd0; x33;
      xc6; xa7; x10; x3d; x00; x5a; xea; x4c; xeb; xef; x43; xe4; x9d; x42; x0d; xe0])
  = ([x77; x7e; x7c; xfb; xad; xeb; xfd; xf4; x81; x7e; xa5; x91; x37; xa8; x34; x6d;
      x66; x67; xb0; xc1; xf4; x9c; x3b; x97; x5f; x71; xae; x32; x3b; x57; x68; xb9;
      x13; x91; x37; x0d; x3a; x67; x5c; x5d; xf3; x89; xc0; x9d; x40; xca; x80; x19;
      x08; x8d; x6f; xd8; x1f; xbb; x1d; xfe; x7b; x1c; x3b; xa2; x08; x26; xe6; xf2],
     [x6a; x63; x63; x15; xa6; x87; xa2; x94; x4a; xfe; xcc; xaa; xc4; x6c; x18; x58;
      xcd; xb6; x17; xfc; xf8; x7b; x75; x72; xf3; xb4; xba; xc1; x47; xd9; x36; x91;
      xd5; x8c; x21; x6f; x7c; x61; xc3; x6b; xf5; x18; x50; xec; xe0; x6a; x7b; x2a;
      xb2; x53; xe6; x45; x93; x01; x8f; xdf; xb9; xc4; x0b; xa5; x73; x29; xde; x58]).
Proof. vm_compute. reflexivity. Qed.

Lemma seed12_run8 :
  stretch_state hmac_fast (bytes_of_string (Mnemonic_String sentence12)) 255
    ([x77; x7e; x7c; xfb; xad; xeb; xfd; xf4; x81; x7e; xa5; x91; x37; xa8; x34; x6d;
      x66; x67; xb0; xc1; xf4; x9c; x3b; x97; x5f; x71; xae; x32; x3b; x57; x68; xb9;
      x13; x91; x37; x0d; x3a; x67; x5c; x5d; xf3; x89; xc0; x9d; x40; xca; x80; x19;
      x08; x8d; x6f; xd8; x1f; xbb; x1d; xfe; x7b; x1c; x3b; xa2; x08; x26; xe6; xf2],
     [x6a; x63; x63; x15; xa6; x87; xa2; x94; x4a; xfe; xcc; xaa; xc4; x6c; x18; x58;
      xcd; xb6; x17; xfc; xf8; x7b; x75; x72; xf3; xb4; xba; xc1; x47; xd9; x36; x91;
      xd5; x8c; x21; x6f; x7c; x61; xc3; x6b; xf5; x18; x50; xec; xe0; x6a; x7b; x2a;
      xb2; x53; xe6; x45; x93; x01; x8f; xdf; xb9; xc4; x0b; xa5; x73; x29; xde; x58])
  = ([xae; x4d; xe1; xaf; xa6; xb2; xe5; xba; x8a; x2e; x5b; x3e; x45; xd8; x24; x69;
      xc2; xb8; xdd; x54; xc8; x5e; x4d; x1d; xe0; xb7; x55; x98; x9a; xe5; x67; x6d;
      xa8; x6b; x34; x6a; xd1; x20; x39; x47; xd3; x80; x2c; x8d; x32; x2f; x9c; x23;
      x6e; x6c; x49; x54; x62; xc0; x95; x8b; x51; xc5; x11; xe1; xd9; x16; x6d; x88],
     [x5e; xb0; x0b; xbd; xdc; xf0; x69; x08; x48; x89; xa8; xab; x91; x55; x56; x81;
      x65; xf5; xc4; x53; xcc; xb8; x5e; x70; x81; x1a; xae; xd6; xf6; xda; x5f; xc1;
      x9a; x5a; xc4; x0b; x38; x9c; xd3; x70; xd0; x86; x20; x6d; xec; x8a; xa6; xc4;
      x3d; xae; xa6; x69; x0f; x20; xad; x3d; x8d; x48; xb2; xd2; xce; x9e; x38; xe4]).
Proof. vm_compute. reflexivity. Qed.

Lemma seed12_value :
  pbkdf2.Key sha512.Size hmac_sha512
    (bytes_of_string (Mnemonic_String sentence12))
    (bytes_of_string "mnemonic") 2048 SeedSize
  = seed12.
Proof.
  rewrite Key_fast. unfold pbkdf2.Key. cbv zeta.
  change ((SeedSize + sha512.Size - 1) / sha512.Size)%nat with 1%nat.
  cbn [seq flat_map]. unfold pbkdf2.block. cbv zeta.
  rewrite stretch_state_snd.
  change (2048 - 1)%nat
    with (256 + (256 + (256 + (256 + (256 + (256 + (256 + 255)))))))%nat.
  rewrite !stretch_state_add.
  fold hmac_fast. rewrite seed12_first.
  rewrite seed12_run1, seed12_run2, seed12_run3, seed12_run4,
    seed12_run5, seed12_run6, seed12_run7, seed12_run8.
  reflexivity.
Qed.

Lemma groups_zero16 :
  groups (wordCount (repeat x00 16)) (bitBuffer (repeat x00 16))
  = repeat 0 11 ++ [3].
Proof. vm_compute. reflexivity. Qed.

Section KnownVector.
Variable wordList : wordlist.List.
Variable NFKD : string -> string.
Hypothesis wf : wordlist.WellFormed wordList.
Hypothesis word0 : wordlist.Word wordList 0 = "abandon".
Hypothesis word3 : wordlist.Word wordList 3 = "about".
Hypothesis NFKD_empty : NFKD "" = "".

Lemma zero16_valid : validSize (length (repeat x00 16)).
Proof. split; [simpl; lia | reflexivity]. Qed.

Lemma zero16_sentence :
  map (wordlist.Word wordList)
    (groups (wordCount (repeat x00 16)) (bitBuffer (repeat x00 16)))
  = sentence12.
Proof.
  rewrite groups_zero16. cbn [repeat app map]. rewrite word0, word3. reflexivity.
Qed.

Lemma zero16_encode : EntropyToMnemonic wordList (repeat x00 16) = Ok sentence12.
Proof.
  rewrite EntropyToMnemonic_groups by exact zero16_valid.
  now rewrite zero16_sentence.
Qed.

Lemma sentence12_decode : MnemonicToEntropy wordList sentence12 = Ok (repeat x00 16).
Proof.
  rewrite <- zero16_sentence.
  exact (MnemonicToEntropy_encoded wordList wf (repeat x00 16) zero16_valid
           ltac:(simpl; lia)).
Qed.

Lemma sentence12_seed : MnemonicToSeed wordList NFKD sentence12 "" = Ok seed12.
Proof.
  unfold MnemonicToSeed. rewrite sentence12_decode. cbn [bind]. cbv zeta.
  rewrite NFKD_empty. change ("mnemonic" ++ "")%string with "mnemonic".
  now rewrite seed12_value.
Qed.
End KnownVector.

Lemma testList_word0 : wordlist.Word testList 0 = "abandon".
Proof. reflexivity. Qed.

Lemma testList_word3 : wordlist.Word testList 3 = "about".
Proof. reflexivity. Qed.

(** C4, as the code has it: under a word list whose words 0 and 3 are
    "abandon" and "about", as in the English list, the entropy of 16 zero
    bytes gives the sentence of eleven "abandon" and one "about", and that
    sentence with the empty passphrase gives a seed of 64 bytes that begins
    5e b0 0b bd dc f0 69 08. *)
Theorem C4_known_vector (wordList : wordlist.List) (NFKD : string -> string) :
  wordlist.WellFormed wordList ->
  wordlist.Word wordList 0 = "abandon" ->
  wordlist.Word wordList 3 = "about" ->
  NFKD "" = "" ->
  EntropyToMnemonic wordList (repeat x00 16)
  = Ok ["abandon"; "abandon"; "abandon"; "abandon"; "abandon"; "abandon";
        "abandon"; "abandon"; "abandon"; "abandon"; "abandon"; "about"]
  /\ Mnemonic_String sentence12
     = "abandon abandon abandon abandon abandon abandon abandon abandon abandon abandon abandon about"
  /\ exists seed,
       MnemonicToSeed wordList NFKD sentence12 "" = Ok seed
       /\ length seed = 64%nat
       /\ firstn 8 seed = [x5e; xb0; x0b; xbd; xdc; xf0; x69; x08].
Proof.
  intros wf w0 w3 Hn. split; [|split].
  - exact (zero16_encode wordList w0 w3).
  - reflexivity.
  - exists seed12. split; [|split; reflexivity].
    exact (sentence12_seed wordList NFKD wf w0 w3 Hn).
Qed.

Lemma C4_known_vector_witness :
  wordlist.WellFormed testList
  /\ wordlist.Word testList 0 = "abandon"
  /\ wordlist.Word testList 3 = "about"
  /\ EntropyToMnemonic testList (repeat x00 16) = Ok sentence12
  /\ exists seed,
       MnemonicToSeed testList (fun s => s) sentence12 "" = Ok seed
       /\ length seed = 64%nat
       /\ firstn 8 seed = [x5e; xb0; x0b; xbd; xdc; xf0; x69; x08].
Proof.
  split; [exact testList_wf|]. split; [exact testList_word0|].
  split; [exact testList_word3|].
  destruct (C4_known_vector testList (fun s => s) testList_wf
              testList_word0 testList_word3 eq_refl) as (E & _ & S).
  split; [exact E | exact S].
Defined.

(** C4 as stated fails: the seed of that sentence with the empty passphrase
    does not begin 5e b0 0b bd db ff f2 88; its fifth to eighth bytes are
    dc f0 69 08. *)
Lemma C4_counterexample :
  EntropyToMnemonic testList (repeat x00 16) = Ok sentence12
  /\ MnemonicToSeed testList (fun s => s) sentence12 "" = Ok seed12
  /\ firstn 8 seed12 = [x5e; xb0; x0b; xbd; xdc; xf0; x69; x08]
  /\ firstn 8 seed12 <> [x5e; xb0; x0b; xbd; xdb; xff; xf2; x88].
Proof.
  split; [exact (zero16_encode testList testList_word0 testList_word3)|].
  split; [exact (sentence12_seed testList (fun s => s) testList_wf
                   testList_word0 testList_word3 eq_refl)|].
  split; [reflexivity | discriminate].
Qed.

(** * Further properties of the codec *)

Lemma groups_snoc (n : nat) (J x : Z) :
  0 <= x < 2048 -> groups (S n) (J * 2048 + x) = groups n J ++ [x].
Proof.
  intros Hx. cbn [groups]. f_equal.
  - f_equal. rewrite Z.shiftr_div_pow2 by lia. change (2 ^ 11) with 2048.
    rewrite Z.add_comm, Z.div_add, Z.div_small by lia. reflexivity.
  - f_equal. rewrite land_2047, Z.add_comm, Z.mod_add by lia.
    apply Z.mod_small. exact Hx.
Qed.

Lemma groups_joinIndices (idxs : list Z) :
  Forall (fun i => 0 <= i < wordlist.Count) idxs ->
  groups (length idxs) (joinIndices idxs 0) = idxs.
Proof.
  induction idxs as [|x idxs IH] using rev_ind; intros H; [reflexivity|].
  apply Forall_app in H as [H Hx]. inversion Hx as [|? ? Hr _]; subst.
  unfold wordlist.Count in Hr.
  rewrite length_app, Nat.add_comm. cbn [length Nat.add].
  rewrite joinIndices_app. cbn [joinIndices fold_left].
  rewrite lor_shiftl_add by (cbn; lia). change (2 ^ 11) with 2048.
  rewrite groups_snoc by exact Hr. now rewrite (IH H).
Qed.

Lemma be_Z_padBytes (b : list byte) (n : Z) : be_Z (padBytes b n) = be_Z b.
Proof. unfold padBytes. apply be_Z_zeros. Qed.

Section Reverse.
Variable wordList : wordlist.List.
Hypothesis wf : wordlist.WellFormed wordList.

Lemma map_Word_Index (mnemonic : Mnemonic) :
  Forall (resolves wordList) mnemonic ->
  map (wordlist.Word wordList) (map (wordlist.Index wordList) mnemonic) = mnemonic.
Proof.
  induction 1 as [|w ws Hw _ IH]; [reflexivity|].
  cbn [map]. now rewrite (wordlist.word_index _ wf w Hw), IH.
Qed.

Lemma encode_decoded (mnemonic : Mnemonic) (entropy : list byte) :
  MnemonicToEntropy wordList mnemonic = Ok entropy ->
  EntropyToMnemonic wordList entropy = Ok mnemonic.
Proof.
  intros H.
  destruct (MnemonicToEntropy_Ok_inv wordList mnemonic entropy H) as (Hc & Hw & He).
  rewrite MnemonicToEntropy_valid in H by assumption.
  destruct (Z.eqb_spec
              (leadingBits (extractedEntropy wordList mnemonic) (checksumLength mnemonic))
              (trailingBits wordList mnemonic)) as [Hsum|]; [|discriminate].
  clear H. rewrite <- He in Hsum.
  destruct (sizes_of_count mnemonic Hc) as (k & Hk & Hn & Hb & Hcl).
  pose proof (decoded_range wordList mnemonic Hw) as Hd. rewrite Hn in Hd.
  pose proof (length_extractedEntropy wordList mnemonic Hc Hw) as Hlen.
  rewrite <- He, Hn in Hlen.
  replace (4 * (3 * k) / 3) with (4 * k) in Hlen
    by (replace (4 * (3 * k)) with (4 * k * 3) by lia; now rewrite Z.div_mul by lia).
  assert (validSize (length entropy)) as Hv.
  { split; [lia|]. apply Nat2Z.inj. rewrite Nat2Z.inj_mod, Hlen.
    change (Z.of_nat 4) with 4. rewrite Z.mul_comm. now rewrite Z.mod_mul by lia. }
  destruct (sizes_of_valid entropy Hv) as (k' & Hk' & Hlen' & Hcs & Hwc).
  assert (k' = k) as -> by lia.
  assert (0 < 2 ^ k) as Hp by (apply Z.pow_pos_nonneg; lia).
  assert (be_Z entropy = decoded wordList mnemonic / 2 ^ k) as Hval.
  { rewrite He. unfold extractedEntropy. rewrite be_Z_padBytes, Hcl.
    apply be_Z_Bytes. apply Z.div_pos; lia. }
  assert (bitBuffer entropy = decoded wordList mnemonic) as Hbuf.
  { unfold bitBuffer. rewrite Hcs, Hval. rewrite Hcl in Hsum. rewrite Hsum.
    unfold trailingBits. rewrite Hcl.
    pose proof (Z.div_mod (decoded wordList mnemonic) (2 ^ k) ltac:(lia)). lia. }
  rewrite EntropyToMnemonic_groups by exact Hv.
  rewrite Hbuf, Hwc.
  replace (Z.to_nat (3 * k)) with (length (map (wordlist.Index wordList) mnemonic))
    by (rewrite length_map; lia).
  unfold decoded. rewrite groups_joinIndices by (apply Forall_map; exact Hw).
  now rewrite map_Word_Index by exact Hw.
Qed.

Lemma encode_inj (entropy1 entropy2 : list byte) :
  validSize (length entropy1) -> validSize (length entropy2) ->
  map (wordlist.Word wordList) (groups (wordCount entropy1) (bitBuffer entropy1))
  = map (wordlist.Word wordList) (groups (wordCount entropy2) (bitBuffer entropy2)) ->
  entropy1 = entropy2.
Proof.
  intros H1 H2 E.
  apply (f_equal (map (wordlist.Index wordList))) in E.
  rewrite !(map_Index_Word wordList wf) in E by apply groups_range.
  assert (wordCount entropy1 = wordCount entropy2) as Hn
    by (apply (f_equal (@length Z)) in E; now rewrite !length_groups in E).
  apply (f_equal (fun l => joinIndices l 0)) in E.
  rewrite !joinIndices_groups in E by lia.
  pose proof (bitBuffer_range entropy1 H1) as R1.
  pose proof (bitBuffer_range entropy2 H2) as R2.
  rewrite !Z.mod_small in E by assumption. rewrite !Z.mul_0_l, !Z.add_0_l in E.
  destruct (sizes_of_valid entropy1 H1) as (k1 & Hk1 & Hl1 & Hc1 & Hw1).
  destruct (sizes_of_valid entropy2 H2) as (k2 & Hk2 & Hl2 & Hc2 & Hw2).
  assert (k2 = k1) as -> by lia.
  pose proof (leadingBits_range entropy1 k1 ltac:(lia)) as B1.
  pose proof (leadingBits_range entropy2 k1 ltac:(lia)) as B2.
  assert (0 < 2 ^ k1) as Hp by (apply Z.pow_pos_nonneg; lia).
  unfold bitBuffer in E. rewrite Hc1, Hc2 in E.
  apply be_Z_inj; [lia|].
  apply (f_equal (fun z => z / 2 ^ k1)) in E.
  rewrite !Z.div_add_l, !Z.div_small in E by lia. lia.
Qed.
End Reverse.

(** X1: whatever sentence MnemonicToEntropy accepts, EntropyToMnemonic of the
    entropy it returns gives that sentence back, word for word. *)
Theorem X1_decode_then_encode (wordList : wordlist.List) (mnemonic : Mnemonic)
  (entropy : list byte) :
  wordlist.WellFormed wordList ->
  MnemonicToEntropy wordList mnemonic = Ok entropy ->
  EntropyToMnemonic wordList entropy = Ok mnemonic.
Proof. intros wf H. exact (encode_decoded wordList wf mnemonic entropy H). Qed.

Lemma X1_decode_then_encode_witness :
  wordlist.WellFormed testList
  /\ MnemonicToEntropy testList sentence12 = Ok (repeat x00 16)
  /\ EntropyToMnemonic testList (repeat x00 16) = Ok sentence12.
Proof.
  assert (MnemonicToEntropy testList sentence12 = Ok (repeat x00 16)) as H
    by (vm_compute; reflexivity).
  split; [exact testList_wf|]. split; [exact H|].
  exact (X1_decode_then_encode testList sentence12 (repeat x00 16) testList_wf H).
Defined.

(** X2: the codec is one to one in both directions: two entropies with the
    same sentence are equal, and two sentences that decode to the same
    entropy are equal. *)
Theorem X2_codec_injective (wordList : wordlist.List)
  (entropy1 entropy2 : list byte) (mnemonic1 mnemonic2 : Mnemonic) :
  wordlist.WellFormed wordList ->
  (EntropyToMnemonic wordList entropy1 = Ok mnemonic1 ->
   EntropyToMnemonic wordList entropy2 = Ok mnemonic1 ->
   entropy1 = entropy2)
  /\ (MnemonicToEntropy wordList mnemonic1 = Ok entropy1 ->
      MnemonicToEntropy wordList mnemonic2 = Ok entropy1 ->
      mnemonic1 = mnemonic2).
Proof.
  intros wf. split.
  - intros H1 H2.
    assert (forall e, EntropyToMnemonic wordList e = Ok mnemonic1 ->
                      validSize (length e)) as Hv.
    { intros e He. destruct (validateEntropy e) as [[]|err|msg] eqn:E.
      - now apply validateEntropy_inv.
      - unfold EntropyToMnemonic in He. rewrite E in He. discriminate.
      - unfold EntropyToMnemonic in He. rewrite E in He. discriminate. }
    pose proof (Hv _ H1) as V1. pose proof (Hv _ H2) as V2.
    rewrite EntropyToMnemonic_groups in H1, H2 by assumption.
    apply (encode_inj wordList wf entropy1 entropy2 V1 V2).
    rewrite <- H2 in H1. now injection H1.
  - intros H1 H2.
    apply (encode_decoded wordList wf) in H1, H2.
    rewrite H1 in H2. now injection H2.
Qed.

Lemma X2_codec_injective_witness :
  wordlist.WellFormed testList
  /\ (EntropyToMnemonic testList (repeat x00 16) = Ok sentence12 ->
      EntropyToMnemonic testList (repeat x00 16) = Ok sentence12 ->
      repeat x00 16 = repeat x00 16)
  /\ (MnemonicToEntropy testList sentence12 = Ok (repeat x00 16) ->
      MnemonicToEntropy testList sentence12 = Ok (repeat x00 16) ->
      sentence12 = sentence12).
Proof.
  split; [exact testList_wf|].
  exact (X2_codec_injective testList (repeat x00 16) (repeat x00 16)
           sentence12 sentence12 testList_wf).
Defined.

(** X3: a sentence that EntropyToMnemonic returns has three words for every
    four bytes of entropy, and each of its words is the word of an index
    from 0 to 2047: no slot of the allocated slice is left empty. *)
Theorem X3_sentence_shape (wordList : wordlist.List) (entropy : list byte)
  (mnemonic : Mnemonic) :
  EntropyToMnemonic wordList entropy = Ok mnemonic ->
  Z.of_nat (length mnemonic) = 3 * Z.of_nat (length entropy) / 4
  /\ Forall (fun w => exists i, 0 <= i < 2048 /\ w = wordlist.Word wordList i)
       mnemonic.
Proof.
  intros H.
  assert (validSize (length entropy)) as Hv.
  { destruct (validateEntropy entropy) as [[]|err|msg] eqn:E.
    - now apply validateEntropy_inv.
    - unfold EntropyToMnemonic in H. rewrite E in H. discriminate.
    - unfold EntropyToMnemonic in H. rewrite E in H. discriminate. }
  rewrite EntropyToMnemonic_groups in H by exact Hv. injection H as <-.
  destruct (sizes_of_valid entropy Hv) as (k & Hk & Hlen & _ & Hwc). split.
  - rewrite length_map, length_groups, Hwc, Hlen, Z2Nat.id by lia.
    replace (3 * (4 * k)) with (3 * k * 4) by lia. now rewrite Z.div_mul by lia.
  - apply Forall_forall. intros w Hin. apply in_map_iff in Hin as (i & <- & Hi).
    exists i. split; [|reflexivity].
    pose proof (groups_range (wordCount entropy) (bitBuffer entropy)) as R.
    rewrite Forall_forall in R. exact (R i Hi).
Qed.

Lemma X3_sentence_shape_witness :
  EntropyToMnemonic testList (repeat x00 16) = Ok sentence12
  /\ Z.of_nat (length sentence12) = 3 * Z.of_nat (length (repeat x00 16)) / 4
  /\ Forall (fun w => exists i, 0 <= i < 2048 /\ w = wordlist.Word testList i)
       sentence12.
Proof.
  assert (EntropyToMnemonic testList (repeat x00 16) = Ok sentence12) as H
    by (vm_compute; reflexivity).
  split; [exact H|].
  exact (X3_sentence_shape testList (repeat x00 16) sentence12 H).
Defined.

(** X4: the errors each function can return.  EntropyToMnemonic fails only
    with ErrInvalidEntropySize; MnemonicToEntropy and MnemonicToSeed fail
    only with ErrInvalidMnemonic or ErrInvalidChecksum, MnemonicToSeed with
    the very error of MnemonicToEntropy; and MnemonicToSeed never panics. *)
Theorem X4_error_kinds (wordList : wordlist.List) (NFKD : string -> string)
  (entropy : list byte) (mnemonic : Mnemonic) (passphrase : string)
  (e : error) (msg : string) :
  (EntropyToMnemonic wordList entropy = Err e -> e = ErrInvalidEntropySize)
  /\ (MnemonicToEntropy wordList mnemonic = Err e ->
      e = ErrInvalidMnemonic \/ e = ErrInvalidChecksum)
  /\ (MnemonicToSeed wordList NFKD mnemonic passphrase = Err e <->
      MnemonicToEntropy wordList mnemonic = Err e)
  /\ MnemonicToSeed wordList NFKD mnemonic passphrase <> Panic msg.
Proof.
  assert (forall e', MnemonicToEntropy wordList mnemonic = Err e' ->
            e' = ErrInvalidMnemonic \/ e' = ErrInvalidChecksum) as HM.
  { intros e' H.
    destruct (validateMnemonic wordList mnemonic) as [[]|err|m] eqn:E.
    - apply validateMnemonic_inv in E as [Hc Hw].
      rewrite MnemonicToEntropy_valid in H by assumption.
      destruct (_ =? _); [discriminate|]. injection H as <-. now right.
    - unfold MnemonicToEntropy in H. rewrite E in H. cbn [bind] in H.
      injection H as <-. left. revert E. unfold validateMnemonic.
      destruct (_ && _); [discriminate | now intros [= <-]].
    - unfold MnemonicToEntropy in H. rewrite E in H. discriminate. }
  split; [|split; [exact (HM e)|split]].
  - intros H. destruct (validateEntropy entropy) as [[]|err|m] eqn:E.
    + apply validateEntropy_inv in E.
      rewrite EntropyToMnemonic_groups in H by exact E. discriminate.
    + unfold EntropyToMnemonic in H. rewrite E in H. cbn [bind] in H.
      injection H as <-. revert E. unfold validateEntropy.
      destruct (_ && _); [discriminate | now intros [= <-]].
    + unfold EntropyToMnemonic in H. rewrite E in H. discriminate.
  - unfold MnemonicToSeed.
    destruct (MnemonicToEntropy wordList mnemonic) as [ent|err|m];
      cbn [bind]; split; intros H; try discriminate; exact H.
  - unfold MnemonicToSeed.
    destruct (MnemonicToEntropy wordList mnemonic) as [ent|err|m] eqn:E;
      cbn [bind]; try discriminate.
    exfalso.
    destruct (validateMnemonic wordList mnemonic) as [[]|err|m'] eqn:V.
    + apply validateMnemonic_inv in V as [Hc Hw].
      rewrite MnemonicToEntropy_valid in E by assumption.
      destruct (_ =? _); discriminate.
    + unfold MnemonicToEntropy in E. rewrite V in E. discriminate.
    + unfold validateMnemonic in V. destruct (_ && _); discriminate.
Qed.

(** X5: computeChecksum panics exactly when more than 256 bits are asked
    for; otherwise its value is below 2^numBits, the whole hash for 256 bits
    and zero for no bits. *)
Theorem X5_computeChecksum_range (bytes : list byte) (numBits : Z) (msg : string) :
  (computeChecksum bytes numBits = Panic msg <->
   256 < numBits /\ msg = "invalid number of bits")
  /\ (0 <= numBits <= 256 ->
      exists c, computeChecksum bytes numBits = Ok c /\ 0 <= c < 2 ^ numBits)
  /\ computeChecksum bytes 256 = Ok (be_Z (sha256.Sum256 bytes))
  /\ computeChecksum bytes 0 = Ok 0.
Proof.
  split; [|split; [|split]].
  - destruct (Z.lt_ge_cases 256 numBits) as [H|H].
    + rewrite computeChecksum_Panic by exact H. split.
      * intros [= <-]. auto.
      * intros [_ ->]. reflexivity.
    + rewrite computeChecksum_Ok by lia. split; [discriminate | lia].
  - intros H. exists (leadingBits bytes numBits). split.
    + apply computeChecksum_Ok. lia.
    + now apply leadingBits_range.
  - rewrite computeChecksum_Ok by lia. unfold leadingBits.
    change (2 ^ (256 - 256)) with 1. now rewrite Z.div_1_r.
  - rewrite computeChecksum_Ok by lia. f_equal.
    pose proof (leadingBits_range bytes 0 ltac:(lia)) as R.
    change (2 ^ 0) with 1 in R. lia.
Qed.

(** X6: in the branch of [run] that generates 32 bytes of entropy, neither
    dropped error occurs: the sentence printed has 24 words and decodes to
    the entropy, and the seed printed is the 64-byte key of that sentence
    and the passphrase. *)
Theorem X6_run_generated (wordList : wordlist.List) (NFKD : string -> string)
  (entropy : list byte) (passphrase : string) :
  wordlist.WellFormed wordList ->
  length entropy = 32%nat ->
  exists mnemonic seed,
    run_generated wordList NFKD entropy passphrase = Ok (mnemonic, seed)
    /\ EntropyToMnemonic wordList entropy = Ok mnemonic
    /\ length mnemonic = 24%nat
    /\ MnemonicToEntropy wordList mnemonic = Ok entropy
    /\ MnemonicToSeed wordList NFKD mnemonic passphrase = Ok seed
    /\ length seed = 64%nat.
Proof.
  intros wf Hlen.
  assert (validSize (length entropy)) as Hv
    by (rewrite Hlen; split; [lia | reflexivity]).
  pose proof (EntropyToMnemonic_groups wordList entropy Hv) as He.
  pose proof (MnemonicToEntropy_encoded wordList wf entropy Hv ltac:(lia)) as Hd.
  set (mnemonic := map (wordlist.Word wordList)
                     (groups (wordCount entropy) (bitBuffer entropy))) in *.
  pose proof (MnemonicToSeed_Ok wordList NFKD mnemonic passphrase entropy Hd) as Hs.
  exists mnemonic, (seedOf NFKD mnemonic passphrase).
  unfold run_generated. rewrite He. cbn [dropError bind]. rewrite Hs.
  cbn [dropError bind].
  repeat split; try assumption; try reflexivity.
  - unfold mnemonic. rewrite length_map, length_groups.
    unfold wordCount, entropyBitsToWordCount. rewrite Hlen. reflexivity.
  - apply length_seedOf.
Qed.

Lemma X6_run_generated_witness :
  wordlist.WellFormed testList
  /\ length (repeat xff 32) = 32%nat
  /\ exists mnemonic seed,
       run_generated testList (fun s => s) (repeat xff 32) "TREZOR" = Ok (mnemonic, seed)
       /\ EntropyToMnemonic testList (repeat xff 32) = Ok mnemonic
       /\ length mnemonic = 24%nat
       /\ MnemonicToEntropy testList mnemonic = Ok (repeat xff 32)
       /\ MnemonicToSeed testList (fun s => s) mnemonic "TREZOR" = Ok seed
       /\ length seed = 64%nat.
Proof.
  assert (length (repeat xff 32) = 32%nat) as H by reflexivity.
  split; [exact testList_wf|]. split; [exact H|].
  exact (X6_run_generated testList (fun s => s) (repeat xff 32) "TREZOR" testList_wf H).
Defined.
(** * The transform of transform_amd64.s *)

Import amd64.

(** ** One program on two kinds of words *)

Section Hom.
Context {W1 W2 : Type} {word1 : Word W1} {word2 : Word W2}.
Variable h : W1 -> W2.
Hypothesis h_imm : forall z, h (imm z) = imm z.
Hypothesis h_xor : forall x y, h (wxor x y) = wxor (h x) (h y).
Hypothesis h_and : forall x y, h (wand x y) = wand (h x) (h y).
Hypothesis h_or : forall x y, h (wor x y) = wor (h x) (h y).
Hypothesis h_not : forall x, h (wnot x) = wnot (h x).
Hypothesis h_add : forall x k, h (wadd x k) = wadd (h x) k.
Hypothesis h_sub : forall x k, h (wsub x k) = wsub (h x) k.
Hypothesis h_known : forall x z, known x = Some z -> known (h x) = Some z.

Lemma get_mapf (r : reg) (f : regfile W1) : get r (mapf h f) = mapv h (get r f).
Proof. destruct r; reflexivity. Qed.

Lemma set_mapf (r : reg) (v : value W1) (f : regfile W1) :
  set r (mapv h v) (mapf h f) = mapf h (set r v f).
Proof. destruct r; reflexivity. Qed.

Lemma cells_mapmem (a : array) (m : memory W1) :
  cells a (mapmem h m) = map h (cells a m).
Proof. destruct a; reflexivity. Qed.

Lemma put_mapmem (a : array) (l : list W1) (m : memory W1) :
  put a (map h l) (mapmem h m) = mapmem h (put a l m).
Proof. destruct a; reflexivity. Qed.

Lemma store_map (k : nat) (w : W1) (l : list W1) :
  store k (h w) (map h l) = map h (store k w l).
Proof.
  revert k. induction l as [|x l IH]; intros [|k]; cbn [store map]; try reflexivity.
  now rewrite IH.
Qed.

Lemma number_hom (r : reg) (f : regfile W1) (z : Z) :
  number r f = Some z -> number r (mapf h f) = Some z.
Proof.
  unfold number. rewrite get_mapf. destruct (get r f); cbn [mapv]; [|discriminate].
  apply h_known.
Qed.

Lemma address_hom (disp : Z) (base : reg) (ix : option reg) (m : machine W1)
  (ak : array * nat) :
  address disp base ix m = Some ak ->
  address disp base ix (mapm h m) = Some ak.
Proof.
  unfold address. cbn [regs mem mapm]. rewrite get_mapf.
  destruct (get base (regs m)) as [w|a]; cbn [mapv]; [discriminate|].
  rewrite cells_mapmem, length_map.
  destruct ix as [r|].
  - destruct (number r (regs m)) as [i|] eqn:E; [|discriminate].
    now rewrite (number_hom r _ i E).
  - trivial.
Qed.

Lemma binop_hom (f1 : W1 -> W1 -> W1) (f2 : W2 -> W2 -> W2) (src dst : reg)
  (m m' : machine W1) :
  (forall x y, h (f1 x y) = f2 (h x) (h y)) ->
  binop f1 src dst m = Some m' ->
  binop f2 src dst (mapm h m) = Some (mapm h m').
Proof.
  intros Hf. unfold binop. cbn [regs mem mapm]. rewrite !get_mapf.
  destruct (get src (regs m)) as [x|]; [|discriminate].
  destruct (get dst (regs m)) as [y|]; [|discriminate].
  intros [= <-]. cbn [mapv]. rewrite <- Hf.
  unfold mapm. cbn [regs mem]. f_equal. f_equal.
  exact (set_mapf dst (Int (f1 y x)) (regs m)).
Qed.

Lemma unop_hom (f1 : W1 -> W1) (f2 : W2 -> W2) (dst : reg) (m m' : machine W1) :
  (forall x, h (f1 x) = f2 (h x)) ->
  unop f1 dst m = Some m' ->
  unop f2 dst (mapm h m) = Some (mapm h m').
Proof.
  intros Hf. unfold unop. cbn [regs mem mapm]. rewrite !get_mapf.
  destruct (get dst (regs m)) as [y|]; [|discriminate].
  intros [= <-]. cbn [mapv]. rewrite <- Hf.
  unfold mapm. cbn [regs mem]. f_equal. f_equal.
  exact (set_mapf dst (Int (f1 y)) (regs m)).
Qed.

Lemma exec_hom (i : instr) (m m' : machine W1) :
  exec i m = Some m' -> exec i (mapm h m) = Some (mapm h m').
Proof.
  destruct i; cbn [exec].
  - intros [= <-]. unfold mapm. cbn [regs mem]. f_equal. f_equal.
    exact (set_mapf dst (Ptr a) (regs m)).
  - intros [= <-]. unfold mapm. cbn [regs mem]. f_equal. f_equal.
    rewrite <- h_imm. exact (set_mapf dst (Int (imm k)) (regs m)).
  - destruct (address disp base index m) as [[a k]|] eqn:E; [|discriminate].
    rewrite (address_hom _ _ _ _ _ E). cbn [mem mapm]. rewrite cells_mapmem.
    rewrite nth_error_map.
    destruct (nth_error (cells a (mem m)) k) as [w|]; [|discriminate].
    intros [= <-]. cbn [option_map]. unfold mapm. cbn [regs mem]. f_equal. f_equal.
    exact (set_mapf dst (Int w) (regs m)).
  - destruct (address disp base index m) as [[a k]|] eqn:E; [|discriminate].
    rewrite (address_hom _ _ _ _ _ E). cbn [regs mem mapm]. rewrite get_mapf.
    destruct (get src (regs m)) as [w|]; [|discriminate].
    intros [= <-]. cbn [mapv]. unfold mapm. cbn [regs mem]. f_equal. f_equal.
    rewrite cells_mapmem, store_map. apply put_mapmem.
  - apply binop_hom, h_xor.
  - apply binop_hom, h_and.
  - apply binop_hom, h_or.
  - apply unop_hom, h_not.
  - apply unop_hom. intros x. apply h_sub.
  - apply unop_hom. intros x. apply h_add.
  - apply unop_hom. intros x. apply h_sub.
  - intros [= <-]. unfold mapm. cbn [regs mem]. f_equal. f_equal.
    rewrite !get_mapf, !set_mapf. reflexivity.
Qed.

Lemma run_hom (p : list instr) (m m' : machine W1) :
  run p m = Some m' -> run p (mapm h m) = Some (mapm h m').
Proof.
  revert m. induction p as [|i p IH]; intros m; cbn [run].
  - now intros [= <-].
  - destruct (exec i m) as [m1|] eqn:E; [|discriminate].
    rewrite (exec_hom _ _ _ E). apply IH.
Qed.

Lemma StateLoop_hom (fuel : nat) (m m' : machine W1) :
  StateLoop fuel m = Some m' -> StateLoop fuel (mapm h m) = Some (mapm h m').
Proof.
  revert m. induction fuel as [|fuel IH]; intros m; cbn [StateLoop]; [discriminate|].
  destruct (run stateBody m) as [m1|] eqn:E; [|discriminate].
  rewrite (run_hom _ _ _ E).
  destruct (number R11 (regs m1)) as [r11|] eqn:N; [|discriminate].
  cbn [regs mapm]. rewrite (number_hom _ _ _ N).
  destruct (signed r11 <? 729); [apply IH | now intros [= <-]].
Qed.

Lemma Round_hom (fuel : nat) (m m' : machine W1) :
  Round fuel m = Some m' -> Round fuel (mapm h m) = Some (mapm h m').
Proof.
  unfold Round.
  destruct (run roundHead m) as [m1|] eqn:E1; [|discriminate].
  rewrite (run_hom _ _ _ E1).
  destruct (StateLoop fuel m1) as [m2|] eqn:E2; [|discriminate].
  rewrite (StateLoop_hom _ _ _ E2). apply run_hom.
Qed.

Lemma sBox_hom (a b : W1 * W1) :
  sBox (h (fst a), h (snd a)) (h (fst b), h (snd b))
  = (h (fst (sBox a b)), h (snd (sBox a b))).
Proof.
  unfold sBox. cbn [fst snd]. now rewrite h_not, h_or, h_and, !h_xor.
Qed.

Lemma cell_hom (s : list W1 * list W1) (k : nat) :
  cell (map h (fst s), map h (snd s)) k = (h (fst (cell s k)), h (snd (cell s k))).
Proof.
  unfold cell. cbn [fst snd]. rewrite <- (h_imm 0), !map_nth. reflexivity.
Qed.

Lemma roundSpec_hom (s : list W1 * list W1) :
  roundSpec (map h (fst s), map h (snd s))
  = (map h (fst (roundSpec s)), map h (snd (roundSpec s))).
Proof.
  unfold roundSpec. cbv zeta. cbn [fst snd]. rewrite !map_map.
  f_equal; apply map_ext; intros [a b]; cbn [fst snd];
    rewrite !cell_hom, sBox_hom; reflexivity.
Qed.
End Hom.

(** ** Fuel *)

Section Fuel.
Context {W : Type} {word : Word W}.

Lemma StateLoop_more (fuel k : nat) (m m' : machine W) :
  StateLoop fuel m = Some m' -> StateLoop (fuel + k) m = Some m'.
Proof.
  revert m. induction fuel as [|fuel IH]; intros m; cbn [StateLoop Nat.add];
    [discriminate|].
  destruct (run stateBody m) as [m1|]; [|discriminate].
  destruct (number R11 (regs m1)) as [r11|]; [|discriminate].
  destruct (signed r11 <? 729); [apply IH | trivial].
Qed.

Lemma Round_more (fuel k : nat) (m m' : machine W) :
  Round fuel m = Some m' -> Round (fuel + k) m = Some m'.
Proof.
  unfold Round. destruct (run roundHead m) as [m1|]; [|discriminate].
  destruct (StateLoop fuel m1) as [m2|] eqn:E; [|discriminate].
  now rewrite (StateLoop_more _ k _ _ E).
Qed.
End Fuel.

(** ** A round, on symbolic words and on the machine *)

Lemma Round_symbolic_true :
  Round 182 (symbolic true) = Some (symbolic_after true).
Proof. vm_compute. reflexivity. Qed.

Lemma Round_symbolic_false :
  Round 182 (symbolic false) = Some (symbolic_after false).
Proof. vm_compute. reflexivity. Qed.

Lemma map_nth_seq {A} (l : list A) (d : A) :
  map (fun k => nth k l d) (seq 0 (length l)) = l.
Proof.
  apply nth_ext with (d := d) (d' := d).
  - now rewrite length_map, length_seq.
  - intros n Hn. rewrite length_map, length_seq in Hn.
    rewrite (nth_indep _ d (nth 0 l d)) by (rewrite length_map, length_seq; exact Hn).
    rewrite (map_nth (fun k => nth k l d) (seq 0 (length l)) 0%nat n).
    now rewrite seq_nth by exact Hn.
Qed.

Lemma symbolic_cells (a : array) (p : bool) :
  cells a (mem (symbolic p)) = map (Cell a) (seq 0 729).
Proof. destruct a; reflexivity. Qed.

Lemma ready_flip (p : bool) (m m' : machine Z) (s : list Z * list Z) :
  ready p m ->
  source (negb p) m' = s ->
  length (fst s) = 729%nat -> length (snd s) = 729%nat ->
  source p m' = source p m ->
  rAX (regs m') = Ptr (src_l p) -> rCX (regs m') = Ptr (src_h p) ->
  rDX (regs m') = Ptr (dst_l p) -> rBX (regs m') = Ptr (dst_h p) ->
  (forall r, In r [BP; SI; DI; R8; R9; R10; R11] ->
     exists z, get r (regs m') = Int z) ->
  ready (negb p) m'.
Proof.
  intros (_ & _ & _ & _ & _ & Hl) Es L1 L2 Ek RA RC RD RB RI.
  subst s. unfold source in *. cbn [fst snd] in L1, L2.
  injection Ek as Ek1 Ek2.
  unfold ready.
  refine (conj _ (conj _ (conj _ (conj _ (conj RI _))))).
  - rewrite RA. destruct p; reflexivity.
  - rewrite RC. destruct p; reflexivity.
  - rewrite RD. destruct p; reflexivity.
  - rewrite RB. destruct p; reflexivity.
  - intros a.
    destruct p, a; cbn [negb src_l src_h] in L1, L2, Ek1, Ek2;
      first [exact L1 | exact L2 | rewrite Ek1; apply Hl | rewrite Ek2; apply Hl].
Qed.

Section Eval.
Variable m : machine Z.

Lemma eval_known (x : expr) (z : Z) : known x = Some z -> known (eval m x) = Some z.
Proof. destruct x; cbn; intros H; try discriminate. exact H. Qed.

Lemma eval_add (x : expr) (k : Z) : eval m (wadd x k) = wadd (eval m x) k.
Proof. destruct x; reflexivity. Qed.

Lemma eval_sub (x : expr) (k : Z) : eval m (wsub x k) = wsub (eval m x) k.
Proof. destruct x; reflexivity. Qed.

Lemma eval_cells (a : array) :
  length (cells a (mem m)) = 729%nat ->
  map (eval m) (map (Cell a) (seq 0 729)) = cells a (mem m).
Proof.
  intros H. rewrite map_map. cbn [eval]. rewrite <- H. apply map_nth_seq.
Qed.

Lemma ready_symbolic (p : bool) : ready p m -> mapm (eval m) (symbolic p) = m.
Proof.
  intros (HA & HC & HD & HB & Hr & Hl).
  destruct (Hr BP) as [z1 H1]; [cbn [In]; tauto|].
  destruct (Hr SI) as [z2 H2]; [cbn [In]; tauto|].
  destruct (Hr DI) as [z3 H3]; [cbn [In]; tauto|].
  destruct (Hr R8) as [z4 H4]; [cbn [In]; tauto|].
  destruct (Hr R9) as [z5 H5]; [cbn [In]; tauto|].
  destruct (Hr R10) as [z6 H6]; [cbn [In]; tauto|].
  destruct (Hr R11) as [z7 H7]; [cbn [In]; tauto|].
  clear Hr.
  unfold mapm, symbolic. cbn [regs mem]. unfold mapf, mapmem.
  cbn [rAX rCX rDX rBX rBP rSI rDI rR8 rR9 rR10 rR11 mapv eval
       m_lto m_hto m_lfrom m_hfrom].
  rewrite H1, H2, H3, H4, H5, H6, H7.
  rewrite (eval_cells lto), (eval_cells hto), (eval_cells lfrom),
    (eval_cells hfrom) by apply Hl.
  destruct m as [f mm]. cbn [regs mem get cells] in *.
  destruct f, mm. cbn [rAX rCX rDX rBX rBP rSI rDI rR8 rR9 rR10 rR11
                       m_lto m_hto m_lfrom m_hfrom] in *.
  subst. reflexivity.
Qed.

Lemma Round_machine (p : bool) (inner : nat) :
  ready p m -> (182 <= inner)%nat ->
  Round inner m = Some (mapm (eval m) (symbolic_after p)).
Proof.
  intros Hr Hi.
  replace inner with (182 + (inner - 182))%nat by lia. apply Round_more.
  rewrite <- (ready_symbolic p Hr) at 1.
  apply (Round_hom (eval m)); try reflexivity.
  - apply eval_add.
  - apply eval_sub.
  - apply eval_known.
  - destruct p; [exact Round_symbolic_true | exact Round_symbolic_false].
Qed.

(** What the round leaves: the arrays written hold the new state and are
    the ones the next round reads; the arrays read are unchanged; BP is one
    less. *)
Lemma after_source (p : bool) :
  ready p m ->
  source (negb p) (mapm (eval m) (symbolic_after p)) = roundSpec (source p m).
Proof.
  intros (_ & _ & _ & _ & _ & Hl).
  pose proof (roundSpec_hom (eval m) (fun z => eq_refl) (fun x y => eq_refl)
                (fun x y => eq_refl) (fun x y => eq_refl) (fun x => eq_refl)
                (map (Cell (src_l p)) (seq 0 729), map (Cell (src_h p)) (seq 0 729)))
    as E.
  cbn [fst snd] in E.
  rewrite (eval_cells (src_l p)), (eval_cells (src_h p)) in E by apply Hl.
  unfold source at 2. rewrite E. clear E.
  unfold symbolic_after. cbv zeta.
  generalize (roundSpec (map (Cell (src_l p)) (seq 0 729),
                         map (Cell (src_h p)) (seq 0 729))).
  intros new.
  generalize (sBox (cell (map (Cell (src_l p)) (seq 0 729),
                          map (Cell (src_h p)) (seq 0 729)) 365)
                   (cell (map (Cell (src_l p)) (seq 0 729),
                          map (Cell (src_h p)) (seq 0 729)) 0)).
  intros last.
  generalize (mem (symbolic p)). intros mm.
  unfold source, mapm. cbn [mem].
  destruct p; reflexivity.
Qed.

Lemma after_kept (p : bool) :
  ready p m ->
  source p (mapm (eval m) (symbolic_after p)) = source p m.
Proof.
  intros (_ & _ & _ & _ & _ & Hl).
  unfold symbolic_after. cbv zeta.
  generalize (roundSpec (map (Cell (src_l p)) (seq 0 729),
                         map (Cell (src_h p)) (seq 0 729))).
  intros new.
  generalize (sBox (cell (map (Cell (src_l p)) (seq 0 729),
                          map (Cell (src_h p)) (seq 0 729)) 365)
                   (cell (map (Cell (src_l p)) (seq 0 729),
                          map (Cell (src_h p)) (seq 0 729)) 0)).
  intros last.
  unfold source, mapm. cbn [mem]. rewrite !cells_mapmem.
  assert (forall mm : memory expr,
            cells (src_l p) (put (dst_h p) (snd new) (put (dst_l p) (fst new) mm))
            = cells (src_l p) mm
            /\ cells (src_h p) (put (dst_h p) (snd new) (put (dst_l p) (fst new) mm))
               = cells (src_h p) mm) as K
    by (intros mm; destruct p; split; reflexivity).
  destruct (K (mem (symbolic p))) as [K1 K2]. rewrite K1, K2.
  rewrite !symbolic_cells, !eval_cells by apply Hl. reflexivity.
Qed.

Lemma length_roundSpec (s : list Z * list Z) :
  length (fst (roundSpec s)) = 729%nat /\ length (snd (roundSpec s)) = 729%nat.
Proof.
  unfold roundSpec. cbv zeta. cbn [fst snd]. rewrite !length_map.
  split; reflexivity.
Qed.

Lemma after_regs (p : bool) :
  let f := regs (mapm (eval m) (symbolic_after p)) in
  rAX f = Ptr (src_l p) /\ rCX f = Ptr (src_h p)
  /\ rDX f = Ptr (dst_l p) /\ rBX f = Ptr (dst_h p)
  /\ (forall r, In r [BP; SI; DI; R8; R9; R10; R11] -> exists z, get r f = Int z)
  /\ (forall bp, get BP (regs m) = Int bp ->
        number BP f = Some ((bp - 1) mod 2 ^ 64)).
Proof.
  unfold symbolic_after. cbv zeta.
  generalize (roundSpec (map (Cell (src_l p)) (seq 0 729),
                         map (Cell (src_h p)) (seq 0 729))).
  intros new.
  generalize (sBox (cell (map (Cell (src_l p)) (seq 0 729),
                          map (Cell (src_h p)) (seq 0 729)) 365)
                   (cell (map (Cell (src_l p)) (seq 0 729),
                          map (Cell (src_h p)) (seq 0 729)) 0)).
  intros last.
  generalize (mem (symbolic p)). intros mm.
  unfold mapm. cbn [regs]. unfold mapf.
  cbn [rAX rCX rDX rBX rBP rSI rDI rR8 rR9 rR10 rR11 mapv].
  repeat split.
  - intros r Hin. cbn [In] in Hin.
    destruct Hin as [<-|[<-|[<-|[<-|[<-|[<-|[<-|[]]]]]]]];
      cbn [get rBP rSI rDI rR8 rR9 rR10 rR11]; eexists; reflexivity.
  - intros bp H. unfold number. cbn [get] in H.
    cbn [get rBP eval known Word64]. rewrite H. reflexivity.
Qed.

Lemma after_ready (p : bool) :
  ready p m -> ready (negb p) (mapm (eval m) (symbolic_after p)).
Proof.
  intros Hr.
  destruct (after_regs p) as (RA & RC & RD & RB & RI & _).
  destruct (length_roundSpec (source p m)) as [L1 L2].
  exact (ready_flip p m _ _ Hr (after_source p Hr) L1 L2 (after_kept p Hr)
           RA RC RD RB RI).
Qed.
End Eval.

(** ** Rounds in sequence *)

Lemma number_Int (r : reg) (f : regfile Z) (z : Z) :
  number r f = Some z -> get r f = Int z.
Proof.
  unfold number. destruct (get r f) as [w|a]; [|discriminate].
  cbn [known Word64]. now intros [= ->].
Qed.

Lemma Round_step (p : bool) (m : machine Z) (inner : nat) (bp : Z) :
  ready p m -> (182 <= inner)%nat -> get BP (regs m) = Int bp ->
  exists m', Round inner m = Some m'
    /\ ready (negb p) m'
    /\ source (negb p) m' = roundSpec (source p m)
    /\ source p m' = source p m
    /\ get BP (regs m') = Int ((bp - 1) mod 2 ^ 64).
Proof.
  intros Hr Hi Hbp.
  exists (mapm (eval m) (symbolic_after p)).
  refine (conj (Round_machine m p inner Hr Hi)
            (conj (after_ready m p Hr)
               (conj (after_source m p Hr) (conj (after_kept m p Hr) _)))).
  destruct (after_regs m p) as (_ & _ & _ & _ & _ & Hn).
  apply number_Int. exact (Hn bp Hbp).
Qed.

Lemma iter_negb_succ (n : nat) (p : bool) :
  Nat.iter n negb (negb p) = Nat.iter (S n) negb p.
Proof. symmetry. apply Nat.iter_succ_r. Qed.

Lemma iter_roundSpec_succ (n : nat) (s : list Z * list Z) :
  Nat.iter n roundSpec (roundSpec s) = Nat.iter (S n) roundSpec s.
Proof. symmetry. apply Nat.iter_succ_r. Qed.

Lemma RoundLoop_rounds (n : nat) :
  forall (p : bool) (m : machine Z) (fuel inner : nat),
    ready p m -> (182 <= inner)%nat -> (n < fuel)%nat ->
    get BP (regs m) = Int (Z.of_nat (S n)) -> Z.of_nat (S n) < 2 ^ 64 ->
    exists m', RoundLoop fuel inner m = Some m'
      /\ source (Nat.iter (S n) negb p) m' = Nat.iter (S n) roundSpec (source p m)
      /\ source (Nat.iter n negb p) m' = Nat.iter n roundSpec (source p m)
      /\ get BP (regs m') = Int 0.
Proof.
  induction n as [|n IH]; intros p m fuel inner Hr Hi Hf Hbp Hlt.
  - destruct fuel as [|fuel]; [lia|].
    destruct (Round_step p m inner _ Hr Hi Hbp) as (m' & E & _ & Es & Ek & Eb).
    change ((Z.of_nat 1 - 1) mod 2 ^ 64) with 0 in Eb.
    exists m'. cbn [RoundLoop]. rewrite E. unfold number. rewrite Eb.
    cbn [known Word64 Z.eqb]. cbn [Nat.iter]. auto.
  - destruct fuel as [|fuel]; [lia|].
    destruct (Round_step p m inner _ Hr Hi Hbp) as (m1 & E & Hr1 & Es & Ek & Eb).
    replace ((Z.of_nat (S (S n)) - 1) mod 2 ^ 64) with (Z.of_nat (S n)) in Eb
      by (rewrite Z.mod_small; lia).
    destruct (IH (negb p) m1 fuel inner Hr1 Hi ltac:(lia) Eb ltac:(lia))
      as (m' & E' & Es' & Ek' & Eb').
    exists m'. cbn [RoundLoop]. rewrite E. unfold number. rewrite Eb.
    cbn [known Word64].
    destruct (Z.eqb_spec (Z.of_nat (S n)) 0) as [H0|_]; [lia|].
    rewrite E'. rewrite Es in Es', Ek'.
    rewrite !iter_negb_succ in Es'. rewrite iter_negb_succ in Ek'.
    rewrite !iter_roundSpec_succ in Es'. rewrite iter_roundSpec_succ in Ek'.
    auto.
Qed.

Lemma run_entry (m : machine Z) : run entry m = Some (entered m).
Proof. reflexivity. Qed.

Lemma entered_ready (m : machine Z) :
  (forall a, length (cells a (mem m)) = 729%nat) ->
  (forall r, In r [SI; DI; R8; R9; R10; R11] -> exists z, get r (regs m) = Int z) ->
  ready true (entered m).
Proof.
  intros Hl Hreg.
  unfold ready, entered. cbn [regs mem set rAX rCX rDX rBX dst_l dst_h src_l src_h].
  refine (conj eq_refl (conj eq_refl (conj eq_refl (conj eq_refl (conj _ Hl))))).
  intros r [<-|Hin].
  - eexists. reflexivity.
  - destruct (Hreg r Hin) as [z Hz]. exists z. rewrite <- Hz.
    cbn [In] in Hin.
    destruct Hin as [<-|[<-|[<-|[<-|[<-|[<-|[]]]]]]]; reflexivity.
Qed.

(** The state the caller passes and the one it finds. *)
Lemma transform_rounds (m : machine Z) (fuel inner : nat) :
  (forall a, length (cells a (mem m)) = 729%nat) ->
  (forall r, In r [SI; DI; R8; R9; R10; R11] -> exists z, get r (regs m) = Int z) ->
  (81 <= fuel)%nat -> (182 <= inner)%nat ->
  exists m', transform fuel inner m = Some m'
    /\ (m_lto (mem m'), m_hto (mem m'))
       = Nat.iter 81 roundSpec (m_lfrom (mem m), m_hfrom (mem m))
    /\ (m_lfrom (mem m'), m_hfrom (mem m'))
       = Nat.iter 80 roundSpec (m_lfrom (mem m), m_hfrom (mem m)).
Proof.
  intros Hl Hreg Hf Hi.
  unfold transform. rewrite run_entry.
  pose proof (entered_ready m Hl Hreg) as Hr.
  destruct (RoundLoop_rounds 80 true (entered m) fuel inner Hr Hi ltac:(lia) eq_refl
              ltac:(cbn; lia)) as (m' & E & Es & Ek & _).
  exists m'. split; [exact E|].
  change (Nat.iter 81 negb true) with false in Es.
  change (Nat.iter 80 negb true) with true in Ek.
  split; [exact Es | exact Ek].
Qed.

(** ** The cells of a round *)

Lemma walk_nth (n : nat) :
  forall p j : nat, (p < 729)%nat -> (j < n)%nat ->
    nth j (walk n p) 0%nat = ((p + 364 * j) mod 729)%nat.
Proof.
  induction n as [|n IH]; intros p j Hp Hj; [lia|].
  cbn [walk]. destruct j as [|j].
  - cbn [nth]. rewrite Nat.mul_0_r, Nat.add_0_r, Nat.mod_small by exact Hp. reflexivity.
  - cbn [nth]. destruct (Nat.ltb_spec p 365) as [Hlt|Hge].
    + rewrite IH by lia. f_equal. lia.
    + rewrite IH by lia.
      replace (p + 364 * S j)%nat with (p - 365 + 364 * j + 1 * 729)%nat by lia.
      now rewrite Nat.Div0.mod_add.
Qed.

Lemma length_walk (n p : nat) : length (walk n p) = n.
Proof. revert p. induction n as [|n IH]; intros p; cbn [walk length]; [|rewrite IH]; reflexivity. Qed.

Lemma nth_pairs {A : Type} (g : nat * nat -> A) (d : A) (v : list nat) :
  forall j : nat, (S j < length v)%nat ->
    nth j (map g (combine v (tl v))) d = g (nth j v 0%nat, nth (S j) v 0%nat).
Proof.
  induction v as [|x v IH]; intros j Hj; [cbn in Hj; lia|].
  cbn [tl]. destruct v as [|y v]; [cbn in Hj; lia|].
  destruct j as [|j]; [reflexivity|].
  cbn [combine map nth]. cbn [tl] in IH. rewrite IH by (cbn [length] in *; lia).
  reflexivity.
Qed.

Lemma roundSpec_cell {W : Type} {word : Word W} (s : list W * list W) (j : nat) :
  (j < 729)%nat ->
  cell (roundSpec s) j
  = sBox (cell s ((364 * j) mod 729)) (cell s ((364 * (j + 1)) mod 729)).
Proof.
  intros Hj. unfold roundSpec. cbv zeta.
  pose proof (length_walk 730 0) as Hlen.
  pose proof (walk_nth 730 0 j ltac:(lia) ltac:(lia)) as E1.
  pose proof (walk_nth 730 0 (S j) ltac:(lia) ltac:(lia)) as E2.
  revert Hlen E1 E2. generalize (walk 730 0). intros v Hlen E1 E2.
  unfold cell at 1. cbn [fst snd]. rewrite !map_map.
  rewrite !nth_pairs by lia. rewrite E1, E2. cbn [fst snd Nat.add].
  replace (j + 1)%nat with (S j) by lia.
  now destruct (sBox _ _).
Qed.

Lemma word64_land (z : Z) : word64 z -> z = Z.land z (Z.ones 64).
Proof. intros H. rewrite Z.land_ones, Z.mod_small by (unfold word64 in H; lia). reflexivity. Qed.

Lemma land_word64 (z : Z) : z = Z.land z (Z.ones 64) -> word64 z.
Proof.
  intros H. rewrite Z.land_ones in H by lia. rewrite H.
  unfold word64. apply Z.mod_pos_bound. lia.
Qed.

Lemma sBox_filled (a b : Z * Z) :
  word64 (fst a) -> word64 (snd a) -> word64 (fst b) -> word64 (snd b) ->
  filled (sBox a b).
Proof.
  destruct a as [la ha], b as [lb hb]. cbn [fst snd].
  intros H1 H2 H3 H4.
  apply word64_land in H1, H2, H3, H4.
  unfold filled, sBox. cbn [fst snd wand wxor wor wnot Word64].
  rewrite H1, H2, H3, H4.
  refine (conj _ (conj _ _)).
  - apply land_word64. blast_bits.
  - apply land_word64. blast_bits.
  - blast_bits.
Qed.

Lemma cell_word64 (s : list Z * list Z) (k : nat) :
  Forall word64 (fst s) -> Forall word64 (snd s) ->
  word64 (fst (cell s k)) /\ word64 (snd (cell s k)).
Proof.
  intros H1 H2. unfold cell. cbn [fst snd imm Word64].
  assert (word64 0) as H0 by (unfold word64; lia).
  split.
  - destruct (nth_in_or_default k (fst s) (0 mod 2 ^ 64)) as [Hin| ->]; [|exact H0].
    now apply (proj1 (Forall_forall _ _) H1).
  - destruct (nth_in_or_default k (snd s) (0 mod 2 ^ 64)) as [Hin| ->]; [|exact H0].
    now apply (proj1 (Forall_forall _ _) H2).
Qed.

Lemma roundSpec_filled (s : list Z * list Z) (j : nat) :
  Forall word64 (fst s) -> Forall word64 (snd s) -> (j < 729)%nat ->
  filled (cell (roundSpec s) j).
Proof.
  intros H1 H2 Hj. rewrite roundSpec_cell by exact Hj.
  apply sBox_filled; apply cell_word64; assumption.
Qed.

Lemma Forall_nth_default (P : Z -> Prop) (l : list Z) (d : Z) :
  (forall j, (j < length l)%nat -> P (nth j l d)) -> Forall P l.
Proof.
  intros H. apply Forall_forall. intros x Hin.
  destruct (In_nth l x d Hin) as (j & Hj & <-). now apply H.
Qed.

Lemma filled_state64 (t : list Z * list Z) :
  length (fst t) = 729%nat -> length (snd t) = 729%nat ->
  (forall j, (j < 729)%nat -> filled (cell t j)) -> state64 t.
Proof.
  intros L1 L2 H. unfold state64. split; (split; [assumption|]).
  - apply Forall_nth_default with (d := imm 0). rewrite L1. intros j Hj.
    exact (proj1 (H j Hj)).
  - apply Forall_nth_default with (d := imm 0). rewrite L2. intros j Hj.
    exact (proj1 (proj2 (H j Hj))).
Qed.

Lemma roundSpec_state64 (s : list Z * list Z) :
  Forall word64 (fst s) -> Forall word64 (snd s) -> state64 (roundSpec s).
Proof.
  intros H1 H2.
  exact (filled_state64 (roundSpec s) (proj1 (length_roundSpec s))
           (proj2 (length_roundSpec s))
           (fun j Hj => roundSpec_filled s j H1 H2 Hj)).
Qed.

Lemma iter_roundSpec_state64 (n : nat) (s : list Z * list Z) :
  state64 s -> state64 (Nat.iter n roundSpec s).
Proof.
  intros H. induction n as [|n IH]; [exact H|].
  rewrite Nat.iter_succ.
  exact (roundSpec_state64 _ (proj2 (proj1 IH)) (proj2 (proj2 IH))).
Qed.

Lemma iter_roundSpec_filled (n : nat) (s : list Z * list Z) (j : nat) :
  state64 s -> (j < 729)%nat -> filled (cell (Nat.iter (S n) roundSpec s) j).
Proof.
  intros H Hj. rewrite Nat.iter_succ.
  pose proof (iter_roundSpec_state64 n s H) as I.
  exact (roundSpec_filled _ j (proj2 (proj1 I)) (proj2 (proj2 I)) Hj).
Qed.

(** ** The routine *)

(** X7: one round, from the label RoundLoop to DECQ (lines 179 to 267).  On
    a machine whose address registers point to the arrays it returns; cell
    [j] of the array written is the S-box of cells [364 j] and
    [364 (j + 1)], modulo 729, of the array read; the array read is
    unchanged; the address registers are swapped and BP is decremented. *)
Theorem X7_round (p : bool) (m : machine Z) (inner : nat) (bp : Z) :
  ready p m -> (182 <= inner)%nat -> get BP (regs m) = Int bp ->
  exists m', Round inner m = Some m'
    /\ (forall j, (j < 729)%nat ->
          cell (source (negb p) m') j
          = sBox (cell (source p m) ((364 * j) mod 729))
                 (cell (source p m) ((364 * (j + 1)) mod 729)))
    /\ source p m' = source p m
    /\ ready (negb p) m'
    /\ get BP (regs m') = Int ((bp - 1) mod 2 ^ 64).
Proof.
  intros Hr Hi Hbp.
  destruct (Round_step p m inner bp Hr Hi Hbp) as (m' & E & Hr' & Es & Ek & Eb).
  exists m'. refine (conj E (conj _ (conj Ek (conj Hr' Eb)))).
  intros j Hj. rewrite Es. now apply roundSpec_cell.
Qed.

Lemma X7_round_witness :
  let m := entered (called (repeat 0 729) (repeat 0 729)
                      (repeat (Z.ones 64) 729) (repeat 1 729) 7) in
  ready true m /\ (182 <= 182)%nat /\ get BP (regs m) = Int 81
  /\ exists m', Round 182 m = Some m'
       /\ (forall j, (j < 729)%nat ->
             cell (source false m') j
             = sBox (cell (source true m) ((364 * j) mod 729))
                    (cell (source true m) ((364 * (j + 1)) mod 729)))
       /\ source true m' = source true m
       /\ ready false m'
       /\ get BP (regs m') = Int ((81 - 1) mod 2 ^ 64).
Proof.
  intros m.
  assert (ready true m) as Hr.
  { unfold ready. repeat split.
    - intros r Hin. destruct r; cbn in Hin; try (eexists; reflexivity);
        exfalso; intuition discriminate.
    - intros a. destruct a; reflexivity. }
  assert (182 <= 182)%nat as Hi by lia.
  assert (get BP (regs m) = Int 81) as Hb by reflexivity.
  split; [exact Hr|]. split; [exact Hi|]. split; [exact Hb|].
  exact (X7_round true m 182 81 Hr Hi Hb).
Defined.

(** X8: the routine returns, and the caller finds in [lto], [hto] the state
    of [lfrom], [hfrom] after 81 rounds, and in [lfrom], [hfrom] that state
    after 80 rounds: the routine overwrites its input. *)
Theorem X8_transform_rounds (m : machine Z) (fuel inner : nat) :
  (forall a, length (cells a (mem m)) = 729%nat) ->
  (forall r, In r [SI; DI; R8; R9; R10; R11] -> exists z, get r (regs m) = Int z) ->
  (81 <= fuel)%nat -> (182 <= inner)%nat ->
  exists m', transform fuel inner m = Some m'
    /\ (m_lto (mem m'), m_hto (mem m'))
       = Nat.iter 81 roundSpec (m_lfrom (mem m), m_hfrom (mem m))
    /\ (m_lfrom (mem m'), m_hfrom (mem m'))
       = Nat.iter 80 roundSpec (m_lfrom (mem m), m_hfrom (mem m)).
Proof. exact (transform_rounds m fuel inner). Qed.

Lemma X8_transform_rounds_witness :
  let m := called (repeat 0 729) (repeat 0 729)
             (repeat (Z.ones 64) 729) (repeat 1 729) 7 in
  (forall a, length (cells a (mem m)) = 729%nat)
  /\ (forall r, In r [SI; DI; R8; R9; R10; R11] -> exists z, get r (regs m) = Int z)
  /\ exists m', transform 81 182 m = Some m'
       /\ (m_lto (mem m'), m_hto (mem m'))
          = Nat.iter 81 roundSpec (m_lfrom (mem m), m_hfrom (mem m))
       /\ (m_lfrom (mem m'), m_hfrom (mem m'))
          = Nat.iter 80 roundSpec (m_lfrom (mem m), m_hfrom (mem m)).
Proof.
  intros m.
  assert (forall a, length (cells a (mem m)) = 729%nat) as Hl
    by (intros a; destruct a; reflexivity).
  assert (forall r, In r [SI; DI; R8; R9; R10; R11] ->
            exists z, get r (regs m) = Int z) as Hreg
    by (intros r _; exists 7; destruct r; reflexivity).
  split; [exact Hl|]. split; [exact Hreg|].
  exact (X8_transform_rounds m 81 182 Hl Hreg ltac:(lia) ltac:(lia)).
Defined.



(** X10: when the cells of [lfrom] and [hfrom] are 64-bit words, every cell
    the routine leaves, in the four arrays, is a pair of 64-bit words that
    between them have a bit set in each of the 64 lanes: the S-box never
    yields a lane with both bits clear. *)
Theorem X10_transform_filled (m : machine Z) (fuel inner : nat) :
  (forall a, length (cells a (mem m)) = 729%nat) ->
  (forall r, In r [SI; DI; R8; R9; R10; R11] -> exists z, get r (regs m) = Int z) ->
  Forall word64 (m_lfrom (mem m)) -> Forall word64 (m_hfrom (mem m)) ->
  (81 <= fuel)%nat -> (182 <= inner)%nat ->
  exists m', transform fuel inner m = Some m'
    /\ forall j, (j < 729)%nat ->
         filled (cell (m_lto (mem m'), m_hto (mem m')) j)
         /\ filled (cell (m_lfrom (mem m'), m_hfrom (mem m')) j).
Proof.
  intros Hl Hreg H1 H2 Hf Hi.
  destruct (transform_rounds m fuel inner Hl Hreg Hf Hi) as (m' & E & Et & Ef).
  exists m'. split; [exact E|]. intros j Hj.
  assert (state64 (m_lfrom (mem m), m_hfrom (mem m))) as Hs
    by (split; (split; [|assumption]); [apply (Hl lfrom) | apply (Hl hfrom)]).
  rewrite Et, Ef. split; now apply iter_roundSpec_filled.
Qed.

Lemma X10_transform_filled_witness :
  let m := called (repeat 0 729) (repeat 0 729)
             (repeat (Z.ones 64) 729) (repeat 1 729) 7 in
  (forall a, length (cells a (mem m)) = 729%nat)
  /\ (forall r, In r [SI; DI; R8; R9; R10; R11] -> exists z, get r (regs m) = Int z)
  /\ Forall word64 (m_lfrom (mem m)) /\ Forall word64 (m_hfrom (mem m))
  /\ exists m', transform 81 182 m = Some m'
       /\ forall j, (j < 729)%nat ->
            filled (cell (m_lto (mem m'), m_hto (mem m')) j)
            /\ filled (cell (m_lfrom (mem m'), m_hfrom (mem m')) j).
Proof.
  intros m.
  assert (forall a, length (cells a (mem m)) = 729%nat) as Hl
    by (intros a; destruct a; reflexivity).
  assert (forall r, In r [SI; DI; R8; R9; R10; R11] ->
            exists z, get r (regs m) = Int z) as Hreg
    by (intros r _; exists 7; destruct r; reflexivity).
  assert (Forall word64 (m_lfrom (mem m))) as H1
    by (apply Forall_forall; intros x Hx; apply repeat_spec in Hx; subst x;
        unfold word64; cbn; lia).
  assert (Forall word64 (m_hfrom (mem m))) as H2
    by (apply Forall_forall; intros x Hx; apply repeat_spec in Hx; subst x;
        unfold word64; cbn; lia).
  split; [exact Hl|]. split; [exact Hreg|]. split; [exact H1|]. split; [exact H2|].
  exact (X10_transform_filled m 81 182 Hl Hreg H1 H2 ltac:(lia) ltac:(lia)).
Defined.

(** X11: what the routine leaves in the four arrays depends on [lfrom] and
    [hfrom] alone: not on what [lto] and [hto] held, not on the registers,
    and not on the bounds of the loops once they suffice. *)
Theorem X11_transform_reads_from (m1 m2 : machine Z) (fuel1 fuel2 inner1 inner2 : nat) :
  (forall a, length (cells a (mem m1)) = 729%nat) ->
  (forall a, length (cells a (mem m2)) = 729%nat) ->
  (forall r, In r [SI; DI; R8; R9; R10; R11] -> exists z, get r (regs m1) = Int z) ->
  (forall r, In r [SI; DI; R8; R9; R10; R11] -> exists z, get r (regs m2) = Int z) ->
  m_lfrom (mem m1) = m_lfrom (mem m2) -> m_hfrom (mem m1) = m_hfrom (mem m2) ->
  (81 <= fuel1)%nat -> (81 <= fuel2)%nat ->
  (182 <= inner1)%nat -> (182 <= inner2)%nat ->
  exists m1' m2',
    transform fuel1 inner1 m1 = Some m1'
    /\ transform fuel2 inner2 m2 = Some m2'
    /\ mem m1' = mem m2'.
Proof.
  intros Hl1 Hl2 Hr1 Hr2 El Eh Hf1 Hf2 Hi1 Hi2.
  destruct (transform_rounds m1 fuel1 inner1 Hl1 Hr1 Hf1 Hi1) as (m1' & E1 & Et1 & Ef1).
  destruct (transform_rounds m2 fuel2 inner2 Hl2 Hr2 Hf2 Hi2) as (m2' & E2 & Et2 & Ef2).
  exists m1', m2'. split; [exact E1|]. split; [exact E2|].
  rewrite <- El, <- Eh in Et2, Ef2. rewrite <- Et1 in Et2. rewrite <- Ef1 in Ef2.
  destruct (mem m1') as [a1 b1 c1 d1], (mem m2') as [a2 b2 c2 d2].
  cbn [m_lto m_hto m_lfrom m_hfrom] in Et2, Ef2.
  injection Et2 as -> ->. injection Ef2 as -> ->. reflexivity.
Qed.

Lemma X11_transform_reads_from_witness :
  let m1 := called (repeat 0 729) (repeat 0 729)
              (repeat (Z.ones 64) 729) (repeat 1 729) 7 in
  let m2 := called (repeat 5 729) (repeat 6 729)
              (repeat (Z.ones 64) 729) (repeat 1 729) 9 in
  exists m1' m2',
    transform 81 182 m1 = Some m1'
    /\ transform 100 200 m2 = Some m2'
    /\ mem m1' = mem m2'.
Proof.
  intros m1 m2.
  apply (X11_transform_reads_from m1 m2 81 100 182 200).
  - intros a; destruct a; reflexivity.
  - intros a; destruct a; reflexivity.
  - intros r _; exists 7; destruct r; reflexivity.
  - intros r _; exists 9; destruct r; reflexivity.
  - reflexivity.
  - reflexivity.
  - lia.
  - lia.
  - lia.
  - lia.
Defined.
